(** * crmpro: lead / conversation reconciliation, campaigns, settings, RBAC

    A shallow embedding of the server-side logic of the CRM:
    - [server/_core/rbac.ts] and [server/_core/security-helpers.ts]
      (role resolution, settings sanitising),
    - [server/services/app-settings.ts] (settings singleton),
    - [server/services/message-handler.ts] (inbound reconciliation),
    - [server/routers/leads.ts] (leads.create),
    - the campaigns router (campaigns.launch),
    - [server/services/baileys.ts] (connection.update handler),
    - the other procedures of the leads router (updateStatus, update,
      reorderKanban, getByPipeline), the settings, team, pipelines and
      internal chat routers, and the rest of the Baileys service.

    The relational store is a record of tables (lists of rows, in insertion
    order) with one auto-increment counter per table; every handler is a
    function from a store to a store and a result. *)

From Stdlib Require Import ZArith String List Lia Bool Ascii Sorted.
From stdpp Require Import base option list gmap strings pretty.

Import ListNotations.
Local Open Scope Z_scope.
Local Open Scope string_scope.
Local Open Scope list_scope.

(** ** JavaScript values and strings *)

Module JS.

(** JSON-like values; numbers are integers, objects are maps of own
    properties. *)
#[warnings="-register-all"]
Inductive value : Type :=
  | VUndefined
  | VNull
  | VBool (b : bool)
  | VNum (n : Z)
  | VStr (s : string)
  | VObj (o : gmap string value).

(** ToBoolean. *)
Definition truthy (v : value) : bool :=
  match v with
  | VUndefined | VNull => false
  | VBool b => b
  | VNum n => negb (bool_decide (n = 0))
  | VStr s => negb (bool_decide (s = ""))
  | VObj _ => true
  end.

(** [!s] is false exactly for the non-empty strings. *)
Definition str_truthy (s : string) : bool := negb (bool_decide (s = "")).

(** [o?.k] for a key [k] that no built-in prototype defines: own property of
    an object, [undefined] on [null], [undefined] and primitives. *)
Definition get (v : value) (k : string) : value :=
  match v with
  | VObj o => default VUndefined (o !! k)
  | _ => VUndefined
  end.

(** Property names every plain object inherits from [Object.prototype]. *)
Definition object_prototype_keys : list string :=
  [ "constructor"; "hasOwnProperty"; "isPrototypeOf"; "propertyIsEnumerable";
    "toLocaleString"; "toString"; "valueOf"; "__proto__";
    "__defineGetter__"; "__defineSetter__";
    "__lookupGetter__"; "__lookupSetter__" ].

(** Result of the property read [o[k]] on a plain object whose own
    properties all have type [A]: the read follows the prototype chain. *)
Inductive prop (A : Type) : Type :=
  | Own (a : A)
  | Inherited
  | Missing.
Arguments Own {A} a.
Arguments Inherited {A}.
Arguments Missing {A}.

Definition get_prop {A} (o : gmap string A) (k : string) : prop A :=
  match o !! k with
  | Some a => Own a
  | None => if bool_decide (k ∈ object_prototype_keys) then Inherited else Missing
  end.

(** [Object.prototype.hasOwnProperty.call(o, k)]. *)
Definition hasOwnProperty {A} (o : gmap string A) (k : string) : bool :=
  bool_decide (is_Some (o !! k)).

(** UTF-8 encodings of the code points [String.prototype.trim] strips:
    TAB, LF, VT, FF, CR, SP, NBSP, U+1680, U+2000..U+200A, U+2028, U+2029,
    U+202F, U+205F, U+3000, U+FEFF. *)
Definition bytes (l : list nat) : string :=
  fold_right (fun n s => String (ascii_of_nat n) s) "" l.

Definition white_space : list string :=
  map bytes
    ([ [9%nat]; [10%nat]; [11%nat]; [12%nat]; [13%nat]; [32%nat];
       [194; 160]%nat; [225; 154; 128]%nat ]
     ++ map (fun n => [226; 128; n]%nat)
            [128; 129; 130; 131; 132; 133; 134; 135; 136; 137; 138;
             168; 169; 175]%nat
     ++ [ [226; 129; 159]%nat; [227; 128; 128]%nat; [239; 187; 191]%nat ]).

Fixpoint drop_prefix (p s : string) : option string :=
  match p, s with
  | EmptyString, _ => Some s
  | String a p', String b s' =>
      if bool_decide (a = b) then drop_prefix p' s' else None
  | String _ _, EmptyString => None
  end.

Fixpoint drop_any (ps : list string) (s : string) : option string :=
  match ps with
  | [] => None
  | p :: ps' =>
      match drop_prefix p s with
      | Some s' => Some s'
      | None => drop_any ps' s
      end
  end.

Fixpoint trim_start_fuel (ws : list string) (fuel : nat) (s : string) : string :=
  match fuel with
  | O => s
  | S fuel' =>
      match drop_any ws s with
      | Some s' => trim_start_fuel ws fuel' s'
      | None => s
      end
  end.

Definition trimStart (s : string) : string :=
  trim_start_fuel white_space (String.length s) s.

Definition trimEnd (s : string) : string :=
  String.rev
    (trim_start_fuel (map String.rev white_space) (String.length s)
       (String.rev s)).

(** [s.trim()]. *)
Definition trim (s : string) : string := trimEnd (trimStart s).

(** [hay.includes(needle)]. *)
Fixpoint includes (hay needle : string) : bool :=
  String.prefix needle hay
  || match hay with
     | EmptyString => false
     | String _ hay' => includes hay' needle
     end.

(** [s.split(sep)[0]] for a one-character separator. *)
Fixpoint before (sep : ascii) (s : string) : string :=
  match s with
  | EmptyString => EmptyString
  | String c s' => if bool_decide (c = sep) then EmptyString else String c (before sep s')
  end.

Definition lower_ascii (c : ascii) : ascii :=
  let n := nat_of_ascii c in
  if (65 <=? n)%nat && (n <=? 90)%nat then ascii_of_nat (n + 32) else c.

(** [s.toLowerCase()] on UTF-8 text, for ASCII and the Latin-1 letters
    (U+00C0..U+00DE without U+00D7, encoded as 0xC3 0x80..0x9E). *)
Fixpoint toLowerCase (s : string) : string :=
  match s with
  | EmptyString => EmptyString
  | String c s' =>
      if (nat_of_ascii c =? 195)%nat then
        match s' with
        | String d s'' =>
            let n := nat_of_ascii d in
            if (128 <=? n)%nat && (n <=? 158)%nat && negb (n =? 151)%nat
            then String c (String (ascii_of_nat (n + 32)) (toLowerCase s''))
            else String c (String d (toLowerCase s''))
        | EmptyString => String c EmptyString
        end
      else String (lower_ascii c) (toLowerCase s')
  end.

(** [a || b] on optional strings: the first that is present and non-empty. *)
Definition or_str (a : option string) (b : string) : string :=
  match a with
  | Some x => if str_truthy x then x else b
  | None => b
  end.

End JS.

(** ** Role resolution: [server/_core/rbac.ts] *)

Module Rbac.
Import JS.

Definition BUILTIN_RANK : gmap string Z :=
  list_to_map
    [ ("viewer", 0); ("agent", 1); ("supervisor", 2); ("admin", 3); ("owner", 4) ].

(** [typeof r === "number"]: own entries of [BUILTIN_RANK] are numbers, what
    is inherited from [Object.prototype] is a function or an object. *)
Definition is_number (r : prop Z) : bool :=
  match r with Own _ => true | _ => false end.

(** [r ?? 0]. *)
Definition nullish_zero (r : prop Z) : prop Z :=
  match r with Missing => Own 0 | _ => r end.

(** [c > b] where [c] is a number: a function or an object on the right
    converts to NaN and the comparison is false. *)
Definition rank_gt (c b : prop Z) : bool :=
  match c, b with
  | Own n, Own m => bool_decide (n > m)
  | _, _ => false
  end.

Definition computeEffectiveRole
    (baseRole : string) (customRole : option string)
    (permissionsMatrix : gmap string (list string)) : string :=
  let base := trim (if str_truthy baseRole then baseRole else "agent") in
  if bool_decide (base = "owner") then "owner" else
  let custom :=
    trim (match customRole with
          | Some c => if str_truthy c then c else ""
          | None => ""
          end) in
  if negb (str_truthy custom) then base else
  if negb (hasOwnProperty permissionsMatrix custom) then base else
  if bool_decide (custom = "owner") then base else
  let baseRank := nullish_zero (get_prop BUILTIN_RANK base) in
  let customRank := get_prop BUILTIN_RANK custom in
  if is_number customRank && rank_gt customRank baseRank then base else
  if negb (is_number customRank) && negb (bool_decide (base = "admin")) then base else
  custom.

End Rbac.

(** ** [server/_core/security-helpers.ts] *)

Module SecurityHelpers.
Import JS.

(** One masking step of [sanitizeAppSettings]:
    [if (sanitized.cfg?.secret) { const { secret, ...rest } = sanitized.cfg;
       sanitized.cfg = { ...rest, flag: true }; }]. *)
Definition strip_secret (cfg secret flag : string)
    (sanitized : gmap string value) : gmap string value :=
  match sanitized !! cfg with
  | Some (VObj c) =>
      if truthy (get (VObj c) secret)
      then <[cfg := VObj (<[flag := VBool true]> (delete secret c))]> sanitized
      else sanitized
  | _ => sanitized
  end.

(** [settings] is a row object, or [None] for [null] / [undefined]; the
    result [None] is [null]. *)
Definition sanitizeAppSettings (settings : option (gmap string value))
    : option (gmap string value) :=
  match settings with
  | None => None
  | Some s =>
      let sanitized := s in
      let sanitized := strip_secret "smtpConfig" "pass" "hasPassword" sanitized in
      let sanitized := strip_secret "aiConfig" "apiKey" "hasApiKey" sanitized in
      let sanitized := strip_secret "mapsConfig" "apiKey" "hasApiKey" sanitized in
      let sanitized := strip_secret "storageConfig" "secretKey" "hasSecretKey" sanitized in
      Some sanitized
  end.

Definition RESERVED_SYSTEM_ROLES : list string :=
  [ "owner"; "admin"; "supervisor"; "agent"; "viewer" ].

Record validation := { valid : bool; error : option string }.

(** [!permissionsMatrix[trimmed]]: the entries of the matrix are arrays,
    which are truthy, and so is whatever the prototype chain supplies. *)
Definition matrix_entry_falsy (permissionsMatrix : gmap string (list string))
    (k : string) : bool :=
  match get_prop permissionsMatrix k with
  | Own _ | Inherited => false
  | Missing => true
  end.

Definition validateCustomRole (customRole : option string)
    (permissionsMatrix : gmap string (list string)) : validation :=
  match customRole with
  | None => {| valid := true; error := None |}
  | Some c =>
      if negb (str_truthy c) then {| valid := true; error := None |} else
      let trimmed := trim c in
      if bool_decide (trimmed ∈ RESERVED_SYSTEM_ROLES) then
        {| valid := false;
           error := Some "Cannot assign reserved system roles (owner, admin, supervisor, agent, viewer) as customRole" |}
      else if matrix_entry_falsy permissionsMatrix trimmed then
        {| valid := false;
           error := Some ("Invalid customRole: '" +:+ trimmed
                          +:+ "' not found in permissions matrix") |}
      else {| valid := true; error := None |}
  end.

Definition getEffectiveRole (baseRole : string) (customRole : option string)
    (permissionsMatrix : gmap string (list string)) : string :=
  if bool_decide (baseRole = "owner") then "owner" else
  match customRole with
  | None => baseRole
  | Some c =>
      if negb (str_truthy c) then baseRole else
      if negb (valid (validateCustomRole customRole permissionsMatrix))
      then baseRole
      else c
  end.

End SecurityHelpers.

(** ** The relational store *)

(** The tables as the handlers use them.  The schema file is not among the
    sources: a column is an [option] where a handler reads it with a
    default or leaves it out of an insert. *)

Module Db.

(** A table: its rows in insertion order and its AUTO_INCREMENT counter. *)
Record Table (A : Type) := { rows : list A; next_id : Z }.
Arguments rows {A} t.
Arguments next_id {A} t.

Definition empty_table {A} : Table A := {| rows := []; next_id := 1 |}.

(** [db.insert(t).values(mk)]: the row gets the next id, which is the
    [insertId] of the statement. *)
Definition insert_row {A} (mk : Z -> A) (t : Table A) : Table A * Z :=
  ({| rows := (rows t ++ [mk (next_id t)])%list; next_id := next_id t + 1 |}, next_id t).

(** [db.update(t).set(f).where(p)]. *)
Definition update_where {A} (p : A -> bool) (f : A -> A) (t : Table A) : Table A :=
  {| rows := map (fun r => if p r then f r else r) (rows t); next_id := next_id t |}.

(** [select max(col)]: NULL over no rows. *)
Definition sql_max (l : list Z) : option Z :=
  fold_right (fun x acc => Some (match acc with None => x | Some m => Z.max x m end))
    None l.

Record Lead := {
  lead_id : Z;
  lead_name : string;
  lead_phone : string;
  lead_email : option string;
  lead_country : string;
  lead_source : option string;
  lead_notes : option string;
  lead_customFields : option (gmap string JS.value);
  lead_value : option string;
  lead_commission : option string;
  lead_assignedToId : option Z;
  lead_whatsappNumberId : option Z;
  lead_pipelineStageId : option Z;
  lead_kanbanOrder : option Z;
  lead_createdAt : option Z;
  lead_updatedAt : option Z;
  lead_lastContactedAt : option Z
}.

Record Pipeline := { pipeline_id : Z; pipeline_isDefault : bool }.

Record PipelineStage := { stage_id : Z; stage_pipelineId : Z; stage_order : Z }.

Record Conversation := {
  conv_id : Z;
  conv_channel : string;
  conv_whatsappNumberId : option Z;
  conv_leadId : option Z;
  conv_contactPhone : string;
  conv_contactName : option string;
  conv_unreadCount : option Z;
  conv_lastMessageAt : option Z;
  conv_status : string
}.

Record ChatMessage := {
  msg_id : Z;
  msg_conversationId : Z;
  msg_whatsappNumberId : option Z;
  msg_direction : string;
  msg_messageType : string;
  msg_content : string;
  msg_whatsappMessageId : option string;
  msg_status : string;
  msg_deliveredAt : option Z;
  msg_createdAt : option Z
}.

Record Campaign := {
  camp_id : Z;
  camp_status : string;
  camp_totalRecipients : Z;
  (** [audienceConfig?.pipelineStageId] *)
  camp_audienceStage : option Z;
  camp_startedAt : option Z
}.

Record Recipient := {
  rcpt_id : Z;
  rcpt_campaignId : Z;
  rcpt_leadId : Z;
  rcpt_status : string
}.

Record AppSettingsRow := {
  as_id : Z;
  as_singleton : Z;
  (** the remaining columns, by name *)
  as_cols : gmap string JS.value
}.

Record Store := {
  leads : Table Lead;
  conversations : Table Conversation;
  chatMessages : Table ChatMessage;
  pipelines : list Pipeline;
  pipelineStages : list PipelineStage;
  whatsappNumbers : list Z;
  campaigns : list Campaign;
  campaignRecipients : Table Recipient;
  appSettings : Table AppSettingsRow
}.

Definition empty : Store :=
  {| leads := empty_table; conversations := empty_table;
     chatMessages := empty_table; pipelines := []; pipelineStages := [];
     whatsappNumbers := []; campaigns := [];
     campaignRecipients := empty_table; appSettings := empty_table |}.

Definition set_leads (t : Table Lead) (db : Store) : Store :=
  {| leads := t; conversations := conversations db;
     chatMessages := chatMessages db; pipelines := pipelines db;
     pipelineStages := pipelineStages db; whatsappNumbers := whatsappNumbers db;
     campaigns := campaigns db; campaignRecipients := campaignRecipients db;
     appSettings := appSettings db |}.

Definition set_conversations (t : Table Conversation) (db : Store) : Store :=
  {| leads := leads db; conversations := t;
     chatMessages := chatMessages db; pipelines := pipelines db;
     pipelineStages := pipelineStages db; whatsappNumbers := whatsappNumbers db;
     campaigns := campaigns db; campaignRecipients := campaignRecipients db;
     appSettings := appSettings db |}.

Definition set_chatMessages (t : Table ChatMessage) (db : Store) : Store :=
  {| leads := leads db; conversations := conversations db;
     chatMessages := t; pipelines := pipelines db;
     pipelineStages := pipelineStages db; whatsappNumbers := whatsappNumbers db;
     campaigns := campaigns db; campaignRecipients := campaignRecipients db;
     appSettings := appSettings db |}.

Definition set_campaigns (l : list Campaign) (db : Store) : Store :=
  {| leads := leads db; conversations := conversations db;
     chatMessages := chatMessages db; pipelines := pipelines db;
     pipelineStages := pipelineStages db; whatsappNumbers := whatsappNumbers db;
     campaigns := l; campaignRecipients := campaignRecipients db;
     appSettings := appSettings db |}.

Definition set_campaignRecipients (t : Table Recipient) (db : Store) : Store :=
  {| leads := leads db; conversations := conversations db;
     chatMessages := chatMessages db; pipelines := pipelines db;
     pipelineStages := pipelineStages db; whatsappNumbers := whatsappNumbers db;
     campaigns := campaigns db; campaignRecipients := t;
     appSettings := appSettings db |}.

Definition set_appSettings (t : Table AppSettingsRow) (db : Store) : Store :=
  {| leads := leads db; conversations := conversations db;
     chatMessages := chatMessages db; pipelines := pipelines db;
     pipelineStages := pipelineStages db; whatsappNumbers := whatsappNumbers db;
     campaigns := campaigns db; campaignRecipients := campaignRecipients db;
     appSettings := t |}.

(** [select().from(leads).where(eq(leads.phone, phone)).limit(1)]: the first
    matching row in table order; two phones are equal for the column when
    they are the same string. *)
Definition lead_by_phone (phone : string) (db : Store) : option Lead :=
  find (fun l => bool_decide (lead_phone l = phone)) (rows (leads db)).

(** [select().from(pipelines).where(eq(pipelines.isDefault, true)).limit(1)]. *)
Definition default_pipeline (db : Store) : option Pipeline :=
  find pipeline_isDefault (pipelines db).

(** The first row of least [order]. *)
Fixpoint min_stage (l : list PipelineStage) : option PipelineStage :=
  match l with
  | [] => None
  | s :: l' =>
      match min_stage l' with
      | Some m => if bool_decide (stage_order m < stage_order s) then Some m else Some s
      | None => Some s
      end
  end.

(** [select().from(pipelineStages).where(eq(pipelineStages.pipelineId, pid))
       .orderBy(asc(pipelineStages.order)).limit(1)]. *)
Definition first_stage (pid : Z) (db : Store) : option PipelineStage :=
  min_stage (filter (fun s => bool_decide (stage_pipelineId s = pid)) (pipelineStages db)).

(** [select max(kanbanOrder) from leads where pipelineStageId = stageId]. *)
Definition max_kanbanOrder (stageId : Z) (db : Store) : option Z :=
  sql_max
    (omap lead_kanbanOrder
       (filter (fun l => bool_decide (lead_pipelineStageId l = Some stageId))
          (rows (leads db)))).

(** [((maxRows[0] as any)?.max ?? 0) + 1]. *)
Definition next_kanbanOrder (stageId : Z) (db : Store) : Z :=
  default 0 (max_kanbanOrder stageId db) + 1.

End Db.

(** ** leads.create: [server/routers/leads.ts] *)

Module Leads.
Import Db.

Record CreateInput := {
  in_name : string;
  in_phone : string;
  in_email : option string;
  in_country : string;
  in_source : option string;
  in_notes : option string;
  in_pipelineStageId : option Z;
  in_customFields : option (gmap string JS.value);
  in_value : option Z
}.

Record CreateResult := {
  res_id : Z;
  res_success : bool;
  (** [existed] is only set on the early return *)
  res_existed : option bool
}.

(** [if (!stageId)]: [null] and [0] are falsy. *)
Definition stage_truthy (stageId : option Z) : bool :=
  match stageId with
  | Some n => negb (bool_decide (n = 0))
  | None => false
  end.

(** Resolve pipeline stage (fallback to default pipeline's first stage). *)
Definition resolve_stage (input : CreateInput) (db : Store) : option Z :=
  let stageId := in_pipelineStageId input in
  if negb (stage_truthy stageId) then
    match default_pipeline db with
    | Some pipeline => stage_id <$> first_stage (pipeline_id pipeline) db
    | None => stageId
    end
  else stageId.

Definition commission (country : string) : string :=
  if bool_decide (JS.toLowerCase country = "panamá")
     || bool_decide (JS.toLowerCase country = "panama")
  then "10000.00" else "5000.00".

(** The mutation of [leadsRouter.create]; [user] is [ctx.user?.id].
    Columns the insert does not name are left [None].  The mutation ends by
    handing an event to [dispatchIntegrationEvent] without awaiting it; the
    event is [create_dispatch] below. *)
Definition create (user : option Z) (input : CreateInput) (db : Store)
    : Store * CreateResult :=
  match lead_by_phone (in_phone input) db with
  | Some existing =>
      (db, {| res_id := lead_id existing; res_success := true;
              res_existed := Some true |})
  | None =>
      let stageId := resolve_stage input db in
      let nextOrder :=
        match stageId with
        | Some sid => if stage_truthy stageId then next_kanbanOrder sid db else 0
        | None => 0
        end in
      let defaultWhatsappNumberId := head (whatsappNumbers db) in
      let '(t, newLeadId) :=
        insert_row
          (fun id =>
             {| lead_id := id;
                lead_name := in_name input;
                lead_phone := in_phone input;
                lead_email := in_email input;
                lead_country := in_country input;
                lead_source := in_source input;
                lead_notes := in_notes input;
                lead_customFields := in_customFields input;
                lead_value :=
                  Some (match in_value input with
                        | Some v => if bool_decide (v = 0) then "0.00" else pretty v
                        | None => "0.00"
                        end);
                lead_commission := Some (commission (in_country input));
                lead_assignedToId := user;
                lead_whatsappNumberId := defaultWhatsappNumberId;
                lead_pipelineStageId := stageId;
                lead_kanbanOrder := Some nextOrder;
                lead_createdAt := None;
                lead_updatedAt := None;
                lead_lastContactedAt := None |})
          (leads db) in
      (set_leads t db,
       {| res_id := newLeadId; res_success := true; res_existed := None |})
  end.

(** The argument of [void dispatchIntegrationEvent({...})]. *)
Record IntegrationEvent := {
  ev_whatsappNumberId : Z;
  ev_event : string;
  ev_id : Z;
  ev_input : CreateInput;
  ev_assignedToId : option Z
}.

(** The event [create] dispatches, if any: none on the early return and
    none without a default WhatsApp number. *)
Definition create_dispatch (user : option Z) (input : CreateInput) (db : Store)
    : option IntegrationEvent :=
  match lead_by_phone (in_phone input) db with
  | Some _ => None
  | None =>
      match head (whatsappNumbers db) with
      | Some defaultWhatsappNumberId =>
          if bool_decide (defaultWhatsappNumberId = 0) then None
          else Some {| ev_whatsappNumberId := defaultWhatsappNumberId;
                       ev_event := "lead_created";
                       ev_id := next_id (leads db);
                       ev_input := input;
                       ev_assignedToId := user |}
      | None => None
      end
  end.

(** A sequence of [create] calls, each by some user. *)
Definition create_all (calls : list (option Z * CreateInput)) (db : Store) : Store :=
  fold_left (fun d c => fst (create (fst c) (snd c) d)) calls db.

End Leads.

(** ** Inbound reconciliation: [server/services/message-handler.ts] *)

Module MessageHandler.
Import Db.

(** The fields of a Baileys message event the handler reads. *)
Record WAMessage := {
  key_remoteJid : option string;
  key_fromMe : bool;
  key_id : option string;
  message_conversation : option string;
  message_extendedText : option string;
  message_imageCaption : option string;
  pushName : option string
}.

(** The handler's guards: a JID is present, is neither a group nor the
    status broadcast, and the message is not our own. *)
Definition accepted (message : WAMessage) : option string :=
  match key_remoteJid message with
  | None => None
  | Some jid =>
      if negb (JS.str_truthy jid) || JS.includes jid "@g.us"
         || JS.includes jid "status@broadcast"
      then None
      else if key_fromMe message then None
      else Some jid
  end.

Definition text_of (message : WAMessage) : string :=
  JS.or_str (message_conversation message)
    (JS.or_str (message_extendedText message)
       (JS.or_str (message_imageCaption message) "Media Message")).

(** ['+' + jid.split('@')[0]] *)
Definition phone_of (jid : string) : string := "+" +:+ JS.before "@" jid.

Definition contact_of (message : WAMessage) : string :=
  JS.or_str (pushName message) "Unknown".

Definition touch_lead (now : Z) (l : Lead) : Lead :=
  {| lead_id := lead_id l; lead_name := lead_name l; lead_phone := lead_phone l;
     lead_email := lead_email l; lead_country := lead_country l;
     lead_source := lead_source l; lead_notes := lead_notes l;
     lead_customFields := lead_customFields l; lead_value := lead_value l;
     lead_commission := lead_commission l;
     lead_assignedToId := lead_assignedToId l;
     lead_whatsappNumberId := lead_whatsappNumberId l;
     lead_pipelineStageId := lead_pipelineStageId l;
     lead_kanbanOrder := lead_kanbanOrder l;
     lead_createdAt := lead_createdAt l; lead_updatedAt := lead_updatedAt l;
     lead_lastContactedAt := Some now |}.

(** Determine Default Pipeline Stage and the next Kanban order. *)
Definition default_stage_and_order (db : Store) : option Z * Z :=
  match default_pipeline db with
  | Some p =>
      match first_stage (pipeline_id p) db with
      | Some st => (Some (stage_id st), next_kanbanOrder (stage_id st) db)
      | None => (None, 0)
      end
  | None => (None, 0)
  end.

Definition new_lead (now : Z) (contactName phoneNumber : string)
    (stageId : option Z) (nextOrder : Z) (id : Z) : Lead :=
  {| lead_id := id; lead_name := contactName; lead_phone := phoneNumber;
     lead_email := None; lead_country := "Unknown";
     lead_source := Some "whatsapp_inbound"; lead_notes := None;
     lead_customFields := None; lead_value := None; lead_commission := None;
     lead_assignedToId := None; lead_whatsappNumberId := None;
     lead_pipelineStageId := stageId; lead_kanbanOrder := Some nextOrder;
     lead_createdAt := Some now; lead_updatedAt := Some now;
     lead_lastContactedAt := Some now |}.

(** 1. Find or Create Lead *)
Definition find_or_create_lead (now : Z) (contactName phoneNumber : string)
    (db : Store) : Store * Z :=
  match lead_by_phone phoneNumber db with
  | Some existing =>
      let leadId := lead_id existing in
      (set_leads
         (update_where (fun l => bool_decide (lead_id l = leadId))
            (touch_lead now) (leads db)) db,
       leadId)
  | None =>
      let '(stageId, nextOrder) := default_stage_and_order db in
      let '(t, leadId) :=
        insert_row (new_lead now contactName phoneNumber stageId nextOrder)
          (leads db) in
      (set_leads t db, leadId)
  end.

Definition conv_matches (leadId userId : Z) (c : Conversation) : bool :=
  bool_decide (conv_leadId c = Some leadId)
  && bool_decide (conv_whatsappNumberId c = Some userId)
  && bool_decide (conv_channel c = "whatsapp").

Definition conversation_of (leadId userId : Z) (db : Store) : option Conversation :=
  find (conv_matches leadId userId) (rows (conversations db)).

(** [(existingConv[0].unreadCount || 0) + 1] *)
Definition bump (unreadCount : option Z) : Z := default 0 unreadCount + 1.

Definition bump_conversation (now : Z) (unread : Z) (c : Conversation) : Conversation :=
  {| conv_id := conv_id c; conv_channel := conv_channel c;
     conv_whatsappNumberId := conv_whatsappNumberId c;
     conv_leadId := conv_leadId c; conv_contactPhone := conv_contactPhone c;
     conv_contactName := conv_contactName c;
     conv_unreadCount := Some unread;
     conv_lastMessageAt := Some now; conv_status := conv_status c |}.

Definition new_conversation (now userId leadId : Z)
    (contactName phoneNumber : string) (id : Z) : Conversation :=
  {| conv_id := id; conv_channel := "whatsapp";
     conv_whatsappNumberId := Some userId; conv_leadId := Some leadId;
     conv_contactPhone := phoneNumber; conv_contactName := Some contactName;
     conv_unreadCount := Some 1; conv_lastMessageAt := Some now;
     conv_status := "active" |}.

(** 2. Find or Create Conversation *)
Definition find_or_create_conversation (now userId leadId : Z)
    (contactName phoneNumber : string) (db : Store) : Store * Z :=
  match conversation_of leadId userId db with
  | Some existing =>
      let conversationId := conv_id existing in
      (set_conversations
         (update_where (fun c => bool_decide (conv_id c = conversationId))
            (bump_conversation now (bump (conv_unreadCount existing)))
            (conversations db)) db,
       conversationId)
  | None =>
      let '(t, conversationId) :=
        insert_row (new_conversation now userId leadId contactName phoneNumber)
          (conversations db) in
      (set_conversations t db, conversationId)
  end.

Definition new_message (now userId conversationId : Z) (message : WAMessage)
    (id : Z) : ChatMessage :=
  {| msg_id := id; msg_conversationId := conversationId;
     msg_whatsappNumberId := Some userId; msg_direction := "inbound";
     msg_messageType := "text"; msg_content := text_of message;
     msg_whatsappMessageId := key_id message; msg_status := "delivered";
     msg_deliveredAt := Some now; msg_createdAt := Some now |}.

(** 3. Insert Chat Message *)
Definition insert_message (now userId conversationId : Z) (message : WAMessage)
    (db : Store) : Store :=
  set_chatMessages
    (fst (insert_row (new_message now userId conversationId message)
            (chatMessages db))) db.

(** [MessageHandler.handleIncomingMessage(userId, message)] on an available
    database; [now] is the value of [new Date()]. *)
Definition handleIncomingMessage (now userId : Z) (message : WAMessage)
    (db : Store) : Store :=
  match accepted message with
  | None => db
  | Some jid =>
      let phoneNumber := phone_of jid in
      let contactName := contact_of message in
      let '(db1, leadId) := find_or_create_lead now contactName phoneNumber db in
      let '(db2, conversationId) :=
        find_or_create_conversation now userId leadId contactName phoneNumber db1 in
      insert_message now userId conversationId message db2
  end.

End MessageHandler.

(** ** campaigns.launch *)

Module Campaigns.
Import Db.

(** What a failed statement throws, as the catch clause sees it: the
    [code] and the [message] of the error object itself. *)
Record SqlError := { err_code : option string; err_message : option string }.

Inductive Exn :=
  | Error (msg : string)
  | Sql (e : SqlError).

Inductive LaunchResult :=
  | AlreadyLaunched (recipientsCount : Z)
  | Launched (recipientsCount : nat) (inserted : nat).

(** The test of the [catch] clause, negated: the error is ignored when
    [err.code === 'ER_DUP_ENTRY'] or [err.message?.includes('Duplicate')]. *)
Definition is_duplicate (e : SqlError) : bool :=
  bool_decide (err_code e = Some "ER_DUP_ENTRY")
  || match err_message e with
     | Some m => JS.includes m "Duplicate"
     | None => false
     end.

(** The error of the MySQL driver for a violated unique key, when it
    reaches the caller as the driver made it. *)
Definition dup_entry : SqlError :=
  {| err_code := Some "ER_DUP_ENTRY";
     err_message := Some "Duplicate entry for key 'uq_campaign_lead'" |}.

Definition same_pair (campaignId leadId : Z) (r : Recipient) : bool :=
  bool_decide (rcpt_campaignId r = campaignId) && bool_decide (rcpt_leadId r = leadId).

(** [db.insert(campaignRecipients).values({campaignId, leadId, status})]
    under [UNIQUE KEY uq_campaign_lead (campaignId, leadId)].  [dup] is
    what the query layer throws when the key is violated: its shape is the
    library's, not this program's.  [fault] is a failure of the statement
    that comes from outside the table (lost connection, lock timeout,
    ...). *)
Definition insert_recipient (dup : SqlError) (fault : option SqlError)
    (campaignId leadId : Z) (db : Store) : SqlError + Store :=
  match fault with
  | Some e => inl e
  | None =>
      if existsb (same_pair campaignId leadId) (rows (campaignRecipients db))
      then inl dup
      else inr (set_campaignRecipients
                  (fst (insert_row
                          (fun id => {| rcpt_id := id; rcpt_campaignId := campaignId;
                                        rcpt_leadId := leadId; rcpt_status := "pending" |})
                          (campaignRecipients db))) db)
  end.

(** Create recipients with duplicate handling: the [for] loop. *)
Fixpoint create_recipients (dup : SqlError) (faults : Z -> option SqlError)
    (campaignId : Z) (audience : list Lead) (insertedCount : nat) (db : Store)
    : Store * (SqlError + nat) :=
  match audience with
  | [] => (db, inr insertedCount)
  | lead :: rest =>
      match insert_recipient dup (faults (lead_id lead)) campaignId (lead_id lead) db
      with
      | inr db' => create_recipients dup faults campaignId rest (S insertedCount) db'
      | inl err =>
          if is_duplicate err
          then create_recipients dup faults campaignId rest insertedCount db
          else (db, inl err)
      end
  end.

(** [if (config?.pipelineStageId)] filters by stage, otherwise all leads. *)
Definition audience_of (c : Campaign) (db : Store) : list Lead :=
  if Leads.stage_truthy (camp_audienceStage c)
  then filter (fun l => bool_decide (lead_pipelineStageId l = camp_audienceStage c))
         (rows (leads db))
  else rows (leads db).

Definition schedule (now : Z) (total : nat) (c : Campaign) : Campaign :=
  {| camp_id := camp_id c; camp_status := "scheduled";
     camp_totalRecipients := Z.of_nat total;
     camp_audienceStage := camp_audienceStage c; camp_startedAt := Some now |}.

Definition campaign_by_id (campaignId : Z) (db : Store) : option Campaign :=
  find (fun c => bool_decide (camp_id c = campaignId)) (campaigns db).

(** The mutation of [campaigns.launch]: the store it leaves and what it
    returns or throws. *)
Definition launch (dup : SqlError) (now : Z) (faults : Z -> option SqlError)
    (campaignId : Z) (db : Store) : Store * (Exn + LaunchResult) :=
  match campaign_by_id campaignId db with
  | None => (db, inl (Error "Campaign not found"))
  | Some c =>
      if bool_decide (camp_status c = "scheduled")
         || bool_decide (camp_status c = "running")
      then (db, inr (AlreadyLaunched (camp_totalRecipients c)))
      else if negb (bool_decide (camp_status c = "draft"))
      then (db, inl (Error ("Cannot launch campaign with status: " +:+ camp_status c)))
      else
        let audience := audience_of c db in
        if bool_decide (length audience = 0%nat)
        then (db, inl (Error "No recipients found for campaign"))
        else
          match create_recipients dup faults campaignId audience 0 db with
          | (db', inl err) => (db', inl (Sql err))
          | (db', inr insertedCount) =>
              (set_campaigns
                 (map (fun c' => if bool_decide (camp_id c' = campaignId)
                                 then schedule now (length audience) c' else c')
                    (campaigns db')) db',
               inr (Launched (length audience) insertedCount))
          end
  end.

End Campaigns.

(** ** [server/services/app-settings.ts] *)

Module AppSettings.
Import Db.

(** [select().from(appSettings).orderBy(desc(appSettings.id)).limit(1)] *)
Fixpoint latest (l : list AppSettingsRow) : option AppSettingsRow :=
  match l with
  | [] => None
  | r :: l' =>
      match latest l' with
      | Some m => if bool_decide (as_id r < as_id m) then Some m else Some r
      | None => Some r
      end
  end.

Definition defaults (id : Z) : AppSettingsRow :=
  {| as_id := id; as_singleton := 1;
     as_cols :=
       list_to_map
         [ ("companyName", JS.VStr "Imagine Lab CRM");
           ("timezone", JS.VStr "America/Asuncion");
           ("language", JS.VStr "es");
           ("currency", JS.VStr "PYG");
           ("scheduling",
            JS.VObj (list_to_map
                       [ ("slotMinutes", JS.VNum 15); ("maxPerSlot", JS.VNum 6);
                         ("allowCustomTime", JS.VBool true) ])) ] |}.

Definition getOrCreateAppSettings (db : Store) : Store * option AppSettingsRow :=
  match latest (rows (appSettings db)) with
  | Some row => (db, Some row)
  | None =>
      let db' := set_appSettings (fst (insert_row defaults (appSettings db))) db in
      (db', latest (rows (appSettings db')))
  end.

(** [set(patch)] keeps the entries of the patch whose value is not
    [undefined]; the keys of a patch are taken to be columns of the table,
    as they are in every call of this program. *)
Definition is_defined (v : JS.value) : bool :=
  match v with
  | JS.VUndefined => false
  | _ => true
  end.

Definition defined (patch : gmap string JS.value) : gmap string JS.value :=
  filter (fun kv => is_defined kv.2 = true) patch.

(** The update statement on one row: the columns that [set] kept are
    overwritten. *)
Definition apply_patch (patch : gmap string JS.value) (r : AppSettingsRow)
    : AppSettingsRow :=
  {| as_id := as_id r; as_singleton := as_singleton r;
     as_cols := defined patch ∪ as_cols r |}.

(** [updateAppSettings]: the row it returns, or the message of the error
    it throws.  [set] throws when it has kept no entry, after
    [getOrCreateAppSettings] has run and before any statement is sent;
    [row.id] is read after that. *)
Definition updateAppSettings (patch : gmap string JS.value) (db : Store)
    : Store * (string + option AppSettingsRow) :=
  let '(db1, row) := getOrCreateAppSettings db in
  if bool_decide (size (defined patch) = 0%nat)
  then (db1, inl "No values to set")
  else
    match row with
    | Some row =>
        let db2 :=
          set_appSettings
            (update_where (fun r => bool_decide (as_id r = as_id row))
               (apply_patch patch) (appSettings db1)) db1 in
        (db2, inr (find (fun r => bool_decide (as_id r = as_id row))
                     (rows (appSettings db2))))
    | None => (db1, inl "TypeError")
    end.

Inductive Call :=
  | GetOrCreate
  | Update (patch : gmap string JS.value).

Definition call (c : Call) (db : Store) : Store :=
  match c with
  | GetOrCreate => fst (getOrCreateAppSettings db)
  | Update patch => fst (updateAppSettings patch db)
  end.

Definition run (calls : list Call) (db : Store) : Store :=
  fold_left (fun d c => call c d) calls db.

End AppSettings.

(** ** The connection.update handler: [server/services/baileys.ts] *)

Module Baileys.

Inductive Status := connecting | connected | disconnected | qr_ready.

Record ConnectionState := {
  status : Status;
  qr : option string;
  socket : option Z
}.

(** The [connection] field of the update. *)
Inductive WAConnection := conn_open | conn_connecting | conn_close.

Record ConnectionUpdate := {
  connection : option WAConnection;
  (** [(lastDisconnect?.error as Boom)?.output?.statusCode] *)
  lastDisconnect_statusCode : option Z;
  update_qr : option string
}.

(** [DisconnectReason.loggedOut] of the Baileys library. *)
Definition loggedOut : Z := 401.

(** What the handler does outside the connection table. *)
Inductive Action :=
  | OnQrUpdate (qr : string)
  | OnStatusUpdate (s : Status)
  | InitializeSession (userId : Z)
  | RmSession (userId : Z).

(** The in-memory connection table and the session directories on disk. *)
Record World := {
  connections : gmap Z ConnectionState;
  sessions : gset Z
}.

Definition qr_step (userId : Z) (update : ConnectionUpdate) (w : World)
    : World * list Action :=
  match update_qr update with
  | Some q =>
      if JS.str_truthy q then
        let old := connections w !! userId in
        ({| connections :=
              <[userId := {| status := qr_ready; qr := Some q;
                             socket := old ≫= socket |}]> (connections w);
            sessions := sessions w |},
         [OnQrUpdate q; OnStatusUpdate qr_ready])
      else (w, [])
  | None => (w, [])
  end.

Definition shouldReconnect (update : ConnectionUpdate) : bool :=
  negb (bool_decide (lastDisconnect_statusCode update = Some loggedOut)).

Definition connection_step (userId : Z) (update : ConnectionUpdate) (w : World)
    : World * list Action :=
  match connection update with
  | Some conn_close =>
      let w1 :=
        {| connections :=
             <[userId := {| status := disconnected; qr := None; socket := None |}]>
               (connections w);
           sessions := sessions w |} in
      if shouldReconnect update then
        (w1, [OnStatusUpdate disconnected; InitializeSession userId])
      else if bool_decide (userId ∈ sessions w1) then
        ({| connections := connections w1; sessions := sessions w1 ∖ {[userId]} |},
         [OnStatusUpdate disconnected; RmSession userId])
      else (w1, [OnStatusUpdate disconnected])
  | Some conn_open =>
      let old := connections w !! userId in
      ({| connections :=
            <[userId := {| status := connected; qr := None;
                           socket := old ≫= socket |}]> (connections w);
          sessions := sessions w |},
       [OnStatusUpdate connected])
  | _ => (w, [])
  end.

(** [sock.ev.on('connection.update', ...)] of the session of [userId]. *)
Definition on_connection_update (userId : Z) (update : ConnectionUpdate)
    (w : World) : World * list Action :=
  let '(w1, a1) := qr_step userId update w in
  let '(w2, a2) := connection_step userId update w1 in
  (w2, (a1 ++ a2)%list).

End Baileys.

(** ** The rest of the leads router: [server/routers/leads.ts] *)

Module LeadsRouter.
Import Db.

(** [getById]: [result[0] ?? null]. *)
Definition getById (id : Z) (db : Store) : option Lead :=
  find (fun l => bool_decide (lead_id l = id)) (rows (leads db)).

(** [set({ pipelineStageId, kanbanOrder })] on one row. *)
Definition set_stage_order (stageId : Z) (order : option Z) (l : Lead) : Lead :=
  {| lead_id := lead_id l; lead_name := lead_name l; lead_phone := lead_phone l;
     lead_email := lead_email l; lead_country := lead_country l;
     lead_source := lead_source l; lead_notes := lead_notes l;
     lead_customFields := lead_customFields l; lead_value := lead_value l;
     lead_commission := lead_commission l;
     lead_assignedToId := lead_assignedToId l;
     lead_whatsappNumberId := lead_whatsappNumberId l;
     lead_pipelineStageId := Some stageId;
     lead_kanbanOrder := order;
     lead_createdAt := lead_createdAt l; lead_updatedAt := lead_updatedAt l;
     lead_lastContactedAt := lead_lastContactedAt l |}.

(** [updateStatus]: move to end of stage by default.  (The webhook
    dispatch that follows does not touch the store.) *)
Definition updateStatus (id pipelineStageId : Z) (db : Store) : Store :=
  let nextOrder := next_kanbanOrder pipelineStageId db in
  set_leads
    (update_where (fun l => bool_decide (lead_id l = id))
       (set_stage_order pipelineStageId (Some nextOrder)) (leads db)) db.

(** [CASE id WHEN ids[0] THEN n WHEN ids[1] THEN n+1 ... END]: the first
    branch that matches, NULL when none does. *)
Fixpoint case_when (ids : list Z) (n : Z) (id : Z) : option Z :=
  match ids with
  | [] => None
  | x :: rest => if bool_decide (id = x) then Some n else case_when rest (n + 1) id
  end.

(** [reorderKanban]: the stage and the positions 1..n for the listed
    leads; the result is [updated]. *)
Definition reorderKanban (pipelineStageId : Z) (orderedLeadIds : list Z)
    (db : Store) : Store * nat :=
  let ids := filter (fun id => id <> 0) orderedLeadIds in
  if bool_decide (length ids = 0%nat) then (db, 0%nat)
  else
    (set_leads
       (update_where (fun l => bool_decide (lead_id l ∈ ids))
          (fun l => set_stage_order pipelineStageId (case_when ids 1 (lead_id l)) l)
          (leads db)) db,
     length ids).

(** [delete]: [db.delete(leads).where(eq(leads.id, id))]; the foreign key
    [fk_campaign_recipients_lead] takes the recipient rows of the lead
    with it. *)
Definition delete (id : Z) (db : Store) : Store :=
  set_campaignRecipients
    {| rows := filter (fun r => rcpt_leadId r <> id) (rows (campaignRecipients db));
       next_id := next_id (campaignRecipients db) |}
    (set_leads
       {| rows := filter (fun l => lead_id l <> id) (rows (leads db));
          next_id := next_id (leads db) |} db).

(** The comparator of [getByPipeline], as "a comes no later than b":
    by [Number(kanbanOrder ?? 0)], then newest [createdAt] first. *)
Definition sort_order (l : Lead) : Z := default 0 (lead_kanbanOrder l).
Definition sort_time (l : Lead) : Z := default 0 (lead_createdAt l).

Definition lead_leb (a b : Lead) : bool :=
  if bool_decide (sort_order a = sort_order b)
  then bool_decide (sort_time b <= sort_time a)
  else bool_decide (sort_order a < sort_order b).

(** A stable sort by a "no later than" test, as [Array.prototype.sort] and
    [ORDER BY] are modelled. *)
Fixpoint insert_by {A} (leb : A -> A -> bool) (x : A) (l : list A) : list A :=
  match l with
  | [] => [x]
  | y :: l' => if leb x y then x :: y :: l' else y :: insert_by leb x l'
  end.

Definition sort_by {A} (leb : A -> A -> bool) (l : list A) : list A :=
  fold_right (insert_by leb) [] l.

(** [if (input.pipelineId)] selects that pipeline, otherwise the default
    one. *)
Definition select_pipeline (pipelineId : option Z) (db : Store) : option Pipeline :=
  if Leads.stage_truthy pipelineId
  then find (fun p => bool_decide (Some (pipeline_id p) = pipelineId)) (pipelines db)
  else default_pipeline db.

Definition stages_of (pid : Z) (db : Store) : list PipelineStage :=
  sort_by (fun a b => bool_decide (stage_order a <= stage_order b))
    (filter (fun s => stage_pipelineId s = pid) (pipelineStages db)).

(** [for (const lead of filteredLeads) if (lead.pipelineStageId &&
    result[lead.pipelineStageId]) result[lead.pipelineStageId].push(lead)] *)
Definition push_lead (result : gmap Z (list Lead)) (lead : Lead) : gmap Z (list Lead) :=
  match lead_pipelineStageId lead with
  | Some k =>
      if bool_decide (k = 0) then result
      else match result !! k with
           | Some arr => <[k := arr ++ [lead]]> result
           | None => result
           end
  | None => result
  end.

Definition sort_bucket (result : gmap Z (list Lead)) (s : PipelineStage)
    : gmap Z (list Lead) :=
  match result !! stage_id s with
  | Some arr => <[stage_id s := sort_by lead_leb arr]> result
  | None => result
  end.

(** [inArray(leads.pipelineStageId, stageIds)] *)
Definition in_stages (stageIds : list Z) (l : Lead) : bool :=
  match lead_pipelineStageId l with
  | Some k => bool_decide (k ∈ stageIds)
  | None => false
  end.

(** [getByPipeline]: the leads of a pipeline grouped by stage id. *)
Definition getByPipeline (pipelineId : option Z) (db : Store) : gmap Z (list Lead) :=
  match select_pipeline pipelineId db with
  | None => ∅
  | Some pipeline =>
      let stages := stages_of (pipeline_id pipeline) db in
      let stageIds := map stage_id stages in
      let filteredLeads :=
        if bool_decide (length stageIds = 0%nat) then []
        else sort_by (fun a b => bool_decide (lead_kanbanOrder a = None)
                                 || bool_decide (sort_order a <= sort_order b)
                                    && negb (bool_decide (lead_kanbanOrder b = None)))
               (filter (fun l => in_stages stageIds l) (rows (leads db))) in
      let result := fold_left (fun r s => <[stage_id s := []]> r) stages ∅ in
      let result := fold_left push_lead filteredLeads result in
      fold_left sort_bucket stages result
  end.

End LeadsRouter.

(** ** campaigns.calculateAudience *)

Module CampaignsRouter.
Import Db.

(** [calculateAudience]: simple filter by stage for now; [tags] is accepted
    and not used.  The result is [countResult[0]?.count ?? 0]. *)
Definition calculateAudience (pipelineStageId : option Z)
    (tags : option (list string)) (db : Store) : Z :=
  Z.of_nat
    (length
       (if Leads.stage_truthy pipelineStageId
        then filter (fun l => bool_decide (lead_pipelineStageId l = pipelineStageId))
               (rows (leads db))
        else rows (leads db))).

End CampaignsRouter.

(** ** The rest of the Baileys service: [server/services/baileys.ts] *)

Module BaileysService.
Import Db Baileys.

(** [getStatus]: [connections.get(userId)?.status || 'disconnected']. *)
Definition getStatus (userId : Z) (w : World) : Status :=
  default disconnected (status <$> connections w !! userId).

(** [getQr]: [connections.get(userId)?.qr]. *)
Definition getQr (userId : Z) (w : World) : option string :=
  connections w !! userId ≫= qr.

(** [initializeSession] up to the registration of the listeners:
    [useMultiFileAuthState] makes the session directory when it is not
    there, [makeWASocket] gives the socket [sock], and the entry of the
    user is replaced.  The close branch of the listener calls it without
    awaiting it, so it gets here in a later turn than the listener's. *)
Definition initializeSession (userId : Z) (sock : Z) (w : World)
    : World * list Action :=
  ({| connections :=
        <[userId := {| status := connecting; qr := None; socket := Some sock |}]>
          (connections w);
      sessions := {[userId]} ∪ sessions w |},
   [OnStatusUpdate connecting]).

(** [disconnect]: only for a connection with a socket; the result names
    the socket that was ended. *)
Definition disconnect (userId : Z) (w : World) : World * option Z :=
  match connections w !! userId ≫= socket with
  | Some sock =>
      ({| connections := base.delete userId (connections w);
          sessions := sessions w ∖ {[userId]} |},
       Some sock)
  | None => (w, None)
  end.

(** [s.replace(c, '')] for a one-character pattern: the first occurrence
    goes. *)
Fixpoint remove_first (c : ascii) (s : string) : string :=
  match s with
  | EmptyString => EmptyString
  | String d s' => if bool_decide (d = c) then s' else String d (remove_first c s')
  end.

(** The JID [sendMessage] and [sendReadReceipt] address:
    [to.includes('@') ? to : `${to.replace('+', '')}@s.whatsapp.net`]. *)
Definition jid_of (to : string) : string :=
  if JS.includes to "@" then to
  else remove_first "+" to +:+ "@s.whatsapp.net".

(** The [messages.upsert] listener of the session of [userId]: every
    message that is not our own goes to the message handler; each comes
    with the time at which it is handled. *)
Definition on_messages_upsert (userId : Z)
    (messages : list (Z * MessageHandler.WAMessage)) (db : Store) : Store :=
  fold_left
    (fun d m =>
       if MessageHandler.key_fromMe m.2 then d
       else MessageHandler.handleIncomingMessage m.1 userId m.2 d)
    messages db.

(** The same listener in the copy of the file that only takes batches of
    type 'notify'. *)
Definition on_messages_upsert_notify (userId : Z) (type : string)
    (messages : list (Z * MessageHandler.WAMessage)) (db : Store) : Store :=
  if bool_decide (type = "notify") then on_messages_upsert userId messages db
  else db.

End BaileysService.

(** ** The settings router *)

Module SettingsRouter.
Import JS Db AppSettings.

(** The own properties [{ ...v }] copies: those of an object, the
    characters of a string (by byte, which is right for ASCII text), none
    for any other value. *)
Definition spread (v : value) : gmap string value :=
  match v with
  | VObj o => o
  | VStr s =>
      list_to_map
        (imap (fun i c => (pretty (Z.of_nat i), VStr (String c EmptyString)))
           (list_ascii_of_string s))
  | _ => ∅
  end.

(** [(row.col as Record<string, any>) ?? {}] and [row.col || {}], spread. *)
Definition column_or_empty (row : AppSettingsRow) (col : string) : gmap string value :=
  match as_cols row !! col with
  | Some v => if truthy v then spread v else ∅
  | None => ∅
  end.

(** The row as the object [settings.get] hands to the sanitiser. *)
Definition row_object (row : AppSettingsRow) : gmap string value :=
  <["id" := VNum (as_id row)]> (<["singleton" := VNum (as_singleton row)]> (as_cols row)).

(** [settings.get] on an available database. *)
Definition get (db : Store) : Store * option (gmap string value) :=
  let '(db', row) := getOrCreateAppSettings db in
  (db', SecurityHelpers.sanitizeAppSettings (row_object <$> row)).

(** [{ ...o, k: v }] as it is stored in a JSON column: a property whose
    value is [undefined] is not written. *)
Definition set_optional (k : string) (v : option value) (o : gmap string value)
    : gmap string value :=
  match v with
  | Some x => <[k := x]> o
  | None => base.delete k o
  end.

Record SmtpInput := {
  smtp_host : string;
  smtp_port : Z;
  smtp_secure : bool;
  smtp_user : string;
  (** absent, [null] or a string *)
  smtp_pass : option (option string);
  smtp_from : option string
}.

Section Crypto.

(** [encryptSecret] of [server/_core/crypto], which is not among the
    sources; [None] when it throws. *)
Variable encryptSecret : string -> option string.

(** [updateSmtpConfig]: the error case is a throw of [encryptSecret]. *)
Definition updateSmtpConfig (input : SmtpInput) (db : Store) : Store * bool :=
  match getOrCreateAppSettings db with
  | (db1, Some currentSettings) =>
      let prev := column_or_empty currentSettings "smtpConfig" in
      let next :=
        set_optional "from" (VStr <$> smtp_from input)
          (<["user" := VStr (smtp_user input)]>
             (<["secure" := VBool (smtp_secure input)]>
                (<["port" := VNum (smtp_port input)]>
                   (<["host" := VStr (smtp_host input)]> prev)))) in
      let with_pass :=
        match smtp_pass input with
        | Some (Some p) =>
            if str_truthy p && str_truthy (trim p)
            then match encryptSecret (trim p) with
                 | Some e => Some (<["pass" := VStr e]> next)
                 | None => None
                 end
            else Some next
        | Some None => Some (<["pass" := VNull]> next)
        | None => Some next
        end in
      match with_pass with
      | Some next' =>
          ((updateAppSettings {[ "smtpConfig" := VObj next' ]} db1).1, true)
      | None => (db1, false)
      end
  | (db1, None) => (db1, false)
  end.

End Crypto.

(** [updateDashboardConfig]: merge with existing config. *)
Definition updateDashboardConfig (input : gmap string bool) (db : Store) : Store :=
  match getOrCreateAppSettings db with
  | (db1, Some currentSettings) =>
      let current := column_or_empty currentSettings "dashboardConfig" in
      (updateAppSettings
         {[ "dashboardConfig" := VObj ((VBool <$> input) ∪ current) ]} db1).1
  | (db1, None) => db1
  end.

(** [updateDashboardLayout]; the layout array is carried as one JSON
    value. *)
Definition updateDashboardLayout (layout : value) (db : Store) : Store :=
  match getOrCreateAppSettings db with
  | (db1, Some currentSettings) =>
      let current := column_or_empty currentSettings "dashboardConfig" in
      (updateAppSettings
         {[ "dashboardConfig" := VObj (<["layout" := layout]> current) ]} db1).1
  | (db1, None) => db1
  end.

End SettingsRouter.

(** ** leads.update *)

Module LeadsUpdate.
Import JS Rbac Db Leads.

(** The input of [update]: [None] is a field that was not sent, and for
    the nullable fields [Some None] is [null]. *)
Record UpdateInput := {
  up_id : Z;
  up_name : option string;
  up_phone : option string;
  up_email : option (option string);
  up_country : option string;
  up_source : option (option string);
  up_notes : option (option string);
  up_pipelineStageId : option Z;
  up_customFields : option (gmap string value);
  up_value : option Z;
  up_assignedToId : option (option Z)
}.

(** [ctx.user] *)
Record Caller := {
  caller_id : option Z;
  caller_role : option string;
  caller_customRole : option string
}.

Inductive Outcome :=
  | Done
  | Thrown (message : string).

(** [role === "owner" || role === "admin" || (matrix[role] &&
    (matrix[role].includes("*") || ...))]; [None] is the TypeError of
    [.includes] on what the matrix only inherits. *)
Definition hasAssign (role : string) (matrix : gmap string (list string))
    : option bool :=
  if bool_decide (role = "owner") || bool_decide (role = "admin") then Some true
  else
    match get_prop matrix role with
    | Own perms =>
        Some (bool_decide ("*" ∈ perms) || bool_decide ("leads.*" ∈ perms)
              || bool_decide ("leads.assign" ∈ perms))
    | Inherited => None
    | Missing => Some false
    end.

(** CHECK ASSIGN PERMISSION *)
Definition check_assign (caller : Caller) (matrix : gmap string (list string))
    : option bool :=
  let userRole := or_str (caller_role caller) "agent" in
  let role := computeEffectiveRole userRole (caller_customRole caller) matrix in
  hasAssign role matrix.

(** [set(data)] on one row: the fields that were sent, and the kanban
    order and the commission that were derived from them. *)
Definition apply_update (input : UpdateInput) (kanbanOrder : option Z) (l : Lead)
    : Lead :=
  {| lead_id := lead_id l;
     lead_name := default (lead_name l) (up_name input);
     lead_phone := default (lead_phone l) (up_phone input);
     lead_email := default (lead_email l) (up_email input);
     lead_country := default (lead_country l) (up_country input);
     lead_source := default (lead_source l) (up_source input);
     lead_notes := default (lead_notes l) (up_notes input);
     lead_customFields :=
       match up_customFields input with
       | Some f => Some f
       | None => lead_customFields l
       end;
     lead_value :=
       match up_value input with
       | Some v => Some (pretty v)
       | None => lead_value l
       end;
     lead_commission :=
       match up_country input with
       | Some c => if str_truthy c then Some (commission c) else lead_commission l
       | None => lead_commission l
       end;
     lead_assignedToId := default (lead_assignedToId l) (up_assignedToId input);
     lead_whatsappNumberId := lead_whatsappNumberId l;
     lead_pipelineStageId :=
       match up_pipelineStageId input with
       | Some sid => Some sid
       | None => lead_pipelineStageId l
       end;
     lead_kanbanOrder :=
       match kanbanOrder with
       | Some k => Some k
       | None => lead_kanbanOrder l
       end;
     lead_createdAt := lead_createdAt l; lead_updatedAt := lead_updatedAt l;
     lead_lastContactedAt := lead_lastContactedAt l |}.

(** No field but the id was sent: drizzle has no values to set. *)
Definition nothing_to_set (input : UpdateInput) : bool :=
  bool_decide (up_name input = None) && bool_decide (up_phone input = None)
  && bool_decide (up_email input = None) && bool_decide (up_country input = None)
  && bool_decide (up_source input = None) && bool_decide (up_notes input = None)
  && bool_decide (up_pipelineStageId input = None)
  && bool_decide (up_customFields input = None)
  && bool_decide (up_value input = None)
  && bool_decide (up_assignedToId input = None).

(** The unique key [uq_leads_phone]: the update would give the lead the
    phone of another lead. *)
Definition phone_conflict (input : UpdateInput) (db : Store) : bool :=
  match up_phone input with
  | Some phone =>
      bool_decide (Exists (fun l => lead_id l = up_id input) (rows (leads db)))
      && bool_decide (Exists (fun l => lead_id l <> up_id input /\ lead_phone l = phone)
                        (rows (leads db)))
  | None => false
  end.

(** [update] for an input zod accepted; [permissionsMatrix] is that column
    of the settings row, [None] for NULL.  The webhook dispatch at the end
    does not touch the store. *)
Definition update (caller : Caller) (input : UpdateInput)
    (permissionsMatrix : option (gmap string (list string))) (db : Store)
    : Store * Outcome :=
  let checked :=
    match up_assignedToId input with
    | Some _ =>
        let db1 := (AppSettings.getOrCreateAppSettings db).1 in
        (db1, check_assign caller (default ∅ permissionsMatrix))
    | None => (db, Some true)
    end in
  match checked with
  | (db1, None) => (db1, Thrown "TypeError")
  | (db1, Some false) =>
      (db1, Thrown "No tienes permisos para reasignar leads (leads.assign)")
  | (db1, Some true) =>
      let kanbanOrder :=
        match up_pipelineStageId input with
        | Some sid =>
            if stage_truthy (Some sid) then Some (next_kanbanOrder sid db1) else None
        | None => None
        end in
      if nothing_to_set input then (db1, Thrown "No values to set") else
      if phone_conflict input db1 then (db1, Thrown "ER_DUP_ENTRY") else
      (set_leads
         (update_where (fun l => bool_decide (lead_id l = up_id input))
            (apply_update input kanbanOrder) (leads db1)) db1,
       Done)
  end.

End LeadsUpdate.

(** ** The pipelines router *)

Module PipelinesRouter.
Import Db.

Definition set_pipelineStages (l : list PipelineStage) (db : Store) : Store :=
  {| leads := leads db; conversations := conversations db;
     chatMessages := chatMessages db; pipelines := pipelines db;
     pipelineStages := l; whatsappNumbers := whatsappNumbers db;
     campaigns := campaigns db; campaignRecipients := campaignRecipients db;
     appSettings := appSettings db |}.

(** [set({ order: CASE id WHEN .. END })] on one row; the CASE has a branch
    for every row the WHERE clause lets through. *)
Definition set_order (order : option Z) (s : PipelineStage) : PipelineStage :=
  match order with
  | Some n => {| stage_id := stage_id s; stage_pipelineId := stage_pipelineId s;
                 stage_order := n |}
  | None => s
  end.

(** [reorderStages]: the positions 0..n-1 for the listed stages of the
    pipeline. *)
Definition reorderStages (pipelineId : Z) (orderedStageIds : list Z)
    (db : Store) : Store :=
  let ids := orderedStageIds in
  if bool_decide (length ids = 0%nat) then db
  else
    set_pipelineStages
      (map (fun s =>
              if bool_decide (stage_pipelineId s = pipelineId)
                 && bool_decide (stage_id s ∈ ids)
              then set_order (LeadsRouter.case_when ids 0 (stage_id s)) s
              else s)
         (pipelineStages db)) db.

End PipelinesRouter.

(** ** The team router *)

Module TeamRouter.
Import JS Db.

(** The columns of [users] the team router reads or writes; [None] is
    NULL, and for [user_hasSeenTour] a column left to its default. *)
Record User := {
  user_id : Z;
  user_openId : string;
  user_name : option string;
  user_email : option string;
  user_password : option string;
  user_role : string;
  user_customRole : option string;
  user_isActive : bool;
  user_hasSeenTour : option bool;
  user_loginMethod : option string;
  user_invitationToken : option string;
  user_invitationExpires : option Z
}.

(** [ctx.user] *)
Record Ctx := { ctx_id : Z; ctx_role : string }.

Inductive Outcome :=
  | Done (insertId : option Z)
  | Thrown (message : string).

Definition set_role (role : string) (u : User) : User :=
  {| user_id := user_id u; user_openId := user_openId u; user_name := user_name u;
     user_email := user_email u; user_password := user_password u;
     user_role := role; user_customRole := user_customRole u;
     user_isActive := user_isActive u; user_hasSeenTour := user_hasSeenTour u;
     user_loginMethod := user_loginMethod u;
     user_invitationToken := user_invitationToken u;
     user_invitationExpires := user_invitationExpires u |}.

Definition set_customRole (customRole : option string) (u : User) : User :=
  {| user_id := user_id u; user_openId := user_openId u; user_name := user_name u;
     user_email := user_email u; user_password := user_password u;
     user_role := user_role u; user_customRole := customRole;
     user_isActive := user_isActive u; user_hasSeenTour := user_hasSeenTour u;
     user_loginMethod := user_loginMethod u;
     user_invitationToken := user_invitationToken u;
     user_invitationExpires := user_invitationExpires u |}.

Definition set_isActive (isActive : bool) (u : User) : User :=
  {| user_id := user_id u; user_openId := user_openId u; user_name := user_name u;
     user_email := user_email u; user_password := user_password u;
     user_role := user_role u; user_customRole := user_customRole u;
     user_isActive := isActive; user_hasSeenTour := user_hasSeenTour u;
     user_loginMethod := user_loginMethod u;
     user_invitationToken := user_invitationToken u;
     user_invitationExpires := user_invitationExpires u |}.

(** [select().from(users).where(eq(users.id, userId)).limit(1)] *)
Definition target (userId : Z) (t : Table User) : option User :=
  find (fun u => bool_decide (user_id u = userId)) (rows t).

(** [target[0]?.role === "owner" && ctx.user.role !== "owner"] *)
Definition owner_guard (ctx : Ctx) (userId : Z) (t : Table User) : bool :=
  bool_decide (user_role <$> target userId t = Some "owner")
  && negb (bool_decide (ctx_role ctx = "owner")).

(** The number of UTF-16 code units of UTF-8 text, which is what
    [z.string().min] and [.max] count: one per character, two for a
    character of four bytes. *)
Definition utf16_length (s : string) : nat :=
  let codes := map nat_of_ascii (list_ascii_of_string s) in
  (length (filter (fun n => (n < 128)%nat \/ (192 <= n)%nat) codes)
   + length (filter (fun n => (240 <= n)%nat) codes))%nat.

Definition ALL_ROLES : list string :=
  [ "owner"; "admin"; "supervisor"; "agent"; "viewer" ].

(** Owner cannot be created this way. *)
Definition CREATABLE_ROLES : list string :=
  [ "admin"; "supervisor"; "agent"; "viewer" ].

(** What zod answers for an input outside the schema. *)
Definition bad_request : Outcome := Thrown "BAD_REQUEST".

(** [updateRole] *)
Definition updateRole (ctx : Ctx) (userId : Z) (role : string) (t : Table User)
    : Table User * Outcome :=
  if negb (bool_decide (role ∈ ALL_ROLES)) then (t, bad_request) else
  if bool_decide (role = "owner") && negb (bool_decide (ctx_role ctx = "owner"))
  then (t, Thrown "Only owner can assign owner") else
  if owner_guard ctx userId t
  then (t, Thrown "Only owner can change another owner") else
  (update_where (fun u => bool_decide (user_id u = userId)) (set_role role) t,
   Done None).

(** [const value = input.customRole ? input.customRole.trim() : null] *)
Definition custom_value (customRole : option string) : option string :=
  match customRole with
  | Some c => if str_truthy c then Some (trim c) else None
  | None => None
  end.

(** [updateCustomRole]; [permissionsMatrix] is that column of the first
    settings row, [None] without a row or for NULL. *)
Definition updateCustomRole (ctx : Ctx) (userId : Z) (customRole : option string)
    (permissionsMatrix : option (gmap string (list string))) (t : Table User)
    : Table User * Outcome :=
  if bool_decide (64 < from_option utf16_length 0 customRole)%nat
  then (t, bad_request) else
  if owner_guard ctx userId t
  then (t, Thrown "Only owner can change another owner") else
  let value := custom_value customRole in
  if bool_decide (value = Some "owner") then (t, Thrown "Forbidden role") else
  let matrix := default ∅ permissionsMatrix in
  if from_option str_truthy false value
     && negb (hasOwnProperty matrix (default "" value))
  then (t, Thrown "Role does not exist in permissions matrix") else
  (update_where (fun u => bool_decide (user_id u = userId)) (set_customRole value) t,
   Done None).

(** [setActive] *)
Definition setActive (ctx : Ctx) (userId : Z) (isActive : bool) (t : Table User)
    : Table User * Outcome :=
  if owner_guard ctx userId t
  then (t, Thrown "Only owner can disable owner") else
  (update_where (fun u => bool_decide (user_id u = userId)) (set_isActive isActive) t,
   Done None).

(** [select().from(users).where(eq(users.email, email)).limit(1)] is not
    empty. *)
Definition email_taken (email : string) (t : Table User) : bool :=
  bool_decide (Exists (fun u => user_email u = Some email) (rows t)).

(** [delete] *)
Definition delete (ctx : Ctx) (userId : Z) (t : Table User) : Table User * Outcome :=
  match target userId t with
  | None => (t, Thrown "User not found")
  | Some u =>
      if bool_decide (user_role u = "owner")
         && negb (bool_decide (ctx_role ctx = "owner"))
      then (t, Thrown "Only owner can delete another owner") else
      if bool_decide (user_id u = ctx_id ctx)
      then (t, Thrown "Cannot delete yourself") else
      ({| rows := filter (fun r => user_id r <> userId) (rows t);
          next_id := next_id t |}, Done None)
  end.

Section Zod.

(** [z.string().email()], whose pattern is zod's. *)
Variable is_email : string -> bool.

(** [create]; [hashedPassword] is what [bcrypt.hash] gave and [nano] what
    [nanoid(16)] gave. *)
Definition create (name email password role : string)
    (hashedPassword nano : string) (t : Table User) : Table User * Outcome :=
  if negb ((1 <=? utf16_length name)%nat && is_email email
           && (6 <=? utf16_length password)%nat
           && bool_decide (role ∈ CREATABLE_ROLES))
  then (t, bad_request) else
  if email_taken email t then (t, Thrown "User with this email already exists") else
  let '(t', insertId) :=
    insert_row (fun id =>
      {| user_id := id; user_openId := "local_" +:+ nano; user_name := Some name;
         user_email := Some email; user_password := Some hashedPassword;
         user_role := role; user_customRole := None; user_isActive := true;
         user_hasSeenTour := Some false; user_loginMethod := Some "credentials";
         user_invitationToken := None; user_invitationExpires := None |}) t in
  (t', Done (Some insertId)).

(** [invite] up to the mail it sends after the insert; [token] and [nano]
    are what [nanoid] gave, [now] is [Date.now()]. *)
Definition invite (name email role : string) (token nano : string) (now : Z)
    (t : Table User) : Table User * Outcome :=
  if negb ((1 <=? utf16_length name)%nat && is_email email
           && bool_decide (role ∈ CREATABLE_ROLES))
  then (t, bad_request) else
  if email_taken email t then (t, Thrown "User already exists") else
  let '(t', _) :=
    insert_row (fun id =>
      {| user_id := id; user_openId := "invite_" +:+ nano; user_name := Some name;
         user_email := Some email; user_password := None;
         user_role := role; user_customRole := None; user_isActive := true;
         user_hasSeenTour := None; user_loginMethod := Some "credentials";
         user_invitationToken := Some token;
         user_invitationExpires := Some (now + 24 * 60 * 60 * 1000) |}) t in
  (t', Done None).

(** A request to the team router. *)
Inductive Call :=
  | UpdateRole (userId : Z) (role : string)
  | UpdateCustomRole (userId : Z) (customRole : option string)
      (permissionsMatrix : option (gmap string (list string)))
  | SetActive (userId : Z) (isActive : bool)
  | Create (name email password role hashedPassword nano : string)
  | Invite (name email role token nano : string) (now : Z)
  | Delete (userId : Z).

Definition call (ctx : Ctx) (c : Call) (t : Table User) : Table User * Outcome :=
  match c with
  | UpdateRole userId role => updateRole ctx userId role t
  | UpdateCustomRole userId customRole m => updateCustomRole ctx userId customRole m t
  | SetActive userId isActive => setActive ctx userId isActive t
  | Create name email password role hashedPassword nano =>
      create name email password role hashedPassword nano t
  | Invite name email role token nano now => invite name email role token nano now t
  | Delete userId => delete ctx userId t
  end.

(** Requests served one after the other, each with its caller. *)
Definition run (calls : list (Ctx * Call)) (t : Table User) : Table User :=
  fold_left (fun t' c => (call c.1 c.2 t').1) calls t.

End Zod.

End TeamRouter.

(** ** The internal chat router *)

Module InternalChat.
Import JS Db TeamRouter.

Record Attachment := { att_type : string; att_url : string; att_name : string }.

Record InternalMessage := {
  im_id : Z;
  im_senderId : Z;
  im_recipientId : option Z;
  im_content : string;
  im_attachments : option (list Attachment);
  im_isRead : bool;
  im_createdAt : Z
}.

(** [send]; [me] is [ctx.user.id], [recipientId] is [None] for [null] and
    for a missing field, [now] the time of the insert. *)
Definition send (me : Z) (content : string) (recipientId : option Z)
    (attachments : option (list Attachment)) (now : Z)
    (t : Table InternalMessage) : Table InternalMessage * Outcome :=
  if negb (1 <=? utf16_length content)%nat
     || negb (forallb (fun a => bool_decide (att_type a ∈ ["image"; "video"; "file"]))
                (default [] attachments))
  then (t, bad_request) else
  ((insert_row (fun id =>
      {| im_id := id; im_senderId := me; im_recipientId := recipientId;
         im_content := content; im_attachments := attachments;
         im_isRead := false; im_createdAt := now |}) t).1,
   Done None).

(** A row of [getHistory]. *)
Record HistoryRow := {
  h_id : Z;
  h_content : string;
  h_attachments : option (list Attachment);
  h_createdAt : Z;
  h_senderId : Z;
  h_senderName : option string
}.

(** The left join with [users] on the primary key. *)
Definition history_row (users : Table User) (m : InternalMessage) : HistoryRow :=
  {| h_id := im_id m; h_content := im_content m;
     h_attachments := im_attachments m; h_createdAt := im_createdAt m;
     h_senderId := im_senderId m;
     h_senderName := target (im_senderId m) users ≫= user_name |}.

(** The WHERE clause of [getHistory]: [!input.recipientId] selects the
    general channel. *)
Definition in_channel (me : Z) (recipientId : option Z) (m : InternalMessage) : bool :=
  if Leads.stage_truthy recipientId
  then bool_decide (im_senderId m = me) && bool_decide (im_recipientId m = recipientId)
       || bool_decide (Some (im_senderId m) = recipientId)
          && bool_decide (im_recipientId m = Some me)
  else bool_decide (im_recipientId m = None).

(** [ORDER BY createdAt ASC]: the statement fixes the order of two rows
    only when their [createdAt] differ, and [createdAt] counts whole
    seconds.  [tie] ranks the rows of one second as the server happens to
    return them. *)
Definition history_leb (tie : InternalMessage -> Z) (a b : InternalMessage) : bool :=
  bool_decide (im_createdAt a < im_createdAt b)
  || bool_decide (im_createdAt a = im_createdAt b) && bool_decide (tie a <= tie b).

(** [getHistory] *)
Definition getHistory (tie : InternalMessage -> Z) (me : Z) (recipientId : option Z)
    (users : Table User) (t : Table InternalMessage) : list HistoryRow :=
  map (history_row users)
    (take 100
       (LeadsRouter.sort_by (history_leb tie)
          (filter (fun m => in_channel me recipientId m) (rows t)))).

Definition set_isRead (m : InternalMessage) : InternalMessage :=
  {| im_id := im_id m; im_senderId := im_senderId m;
     im_recipientId := im_recipientId m; im_content := im_content m;
     im_attachments := im_attachments m; im_isRead := true;
     im_createdAt := im_createdAt m |}.

(** [markAsRead]: only Direct Message read status is tracked. *)
Definition markAsRead (me : Z) (senderId : option Z) (t : Table InternalMessage)
    : Table InternalMessage :=
  if Leads.stage_truthy senderId
  then update_where
         (fun m => bool_decide (Some (im_senderId m) = senderId)
                   && bool_decide (im_recipientId m = Some me)
                   && negb (im_isRead m))
         set_isRead t
  else t.

(** A row of [getRecentChats]. *)
Record RecentChat := {
  rc_id : Z;
  rc_name : option string;
  rc_role : string;
  rc_isActive : bool;
  rc_unreadCount : Z
}.

(** The row counts, grouped by [senderId], of the unread messages sent to
    me, collected into [unreadMap]. *)
Definition unreadMap (me : Z) (t : Table InternalMessage) : gmap Z Z :=
  fold_left
    (fun m r => <[im_senderId r := default 0 (m !! im_senderId r) + 1]> m)
    (filter (fun r => bool_decide (im_recipientId r = Some me) && negb (im_isRead r))
       (rows t))
    ∅.

(** [unreadMap.get(u.id) || 0] *)
Definition recent_chat (counts : gmap Z Z) (u : User) : RecentChat :=
  {| rc_id := user_id u; rc_name := user_name u; rc_role := user_role u;
     rc_isActive := user_isActive u;
     rc_unreadCount := default 0 (counts !! user_id u) |}.

(** [getRecentChats]: sort by unread first. *)
Definition getRecentChats (me : Z) (users : Table User) (t : Table InternalMessage)
    : list RecentChat :=
  let allUsers := filter (fun u => user_isActive u = true) (rows users) in
  LeadsRouter.sort_by (fun a b => bool_decide (rc_unreadCount b <= rc_unreadCount a))
    (map (recent_chat (unreadMap me t))
       (filter (fun u => user_id u <> me) allUsers)).

End InternalChat.

(** * Vocabulary of the properties *)

Module Spec.
Import JS Rbac SecurityHelpers Db Leads MessageHandler Campaigns.

(** The base role as [computeEffectiveRole] normalises it. *)
Definition base_of (baseRole : string) : string :=
  trim (if str_truthy baseRole then baseRole else "agent").

Definition custom_of (customRole : option string) : string :=
  trim (match customRole with
        | Some c => if str_truthy c then c else ""
        | None => ""
        end).

(** The configuration objects and, in each, the secret and the flag that
    replaces it. *)
Definition secret_fields : list (string * (string * string)) :=
  [ ("smtpConfig", ("pass", "hasPassword"));
    ("aiConfig", ("apiKey", "hasApiKey"));
    ("mapsConfig", ("apiKey", "hasApiKey"));
    ("storageConfig", ("secretKey", "hasSecretKey")) ].

(** [settings.cfg?.secret] *)
Definition secret_of (settings : gmap string value) (cfg secret : string) : value :=
  get (default VUndefined (settings !! cfg)) secret.

(** The key [secret] is not a property of [settings.cfg]. *)
Definition absent (settings : gmap string value) (cfg secret : string) : Prop :=
  match settings !! cfg with
  | Some (VObj c) => c !! secret = None
  | _ => True
  end.

(** [settings.cfg] lost [secret], has [flag: true], and is otherwise as in
    [before]. *)
Definition masked (before after : gmap string value) (cfg secret flag : string)
    : Prop :=
  exists c c',
    before !! cfg = Some (VObj c) /\ after !! cfg = Some (VObj c')
    /\ c' !! secret = None /\ c' !! flag = Some (VBool true)
    /\ forall k, k <> secret -> k <> flag -> c' !! k = c !! k.

(** How many leads carry a phone number. *)
Definition phone_count (phone : string) (db : Store) : nat :=
  length (filter (fun l => bool_decide (lead_phone l = phone)) (rows (leads db))).

(** The claim of C3: the store holds a conversation of the lead. *)
Definition has_conversation (leadId : Z) (db : Store) : Prop :=
  exists c, c ∈ rows (conversations db) /\ conv_leadId c = Some leadId.

(** The stage the default pipeline puts first, if there is one. *)
Definition default_first_stage (db : Store) : option PipelineStage :=
  default_pipeline db ≫= fun p => first_stage (pipeline_id p) db.

(** The tables the inbound handler has no statement for are as before. *)
Definition untouched (db db' : Store) : Prop :=
  pipelines db' = pipelines db
  /\ pipelineStages db' = pipelineStages db
  /\ whatsappNumbers db' = whatsappNumbers db
  /\ campaigns db' = campaigns db
  /\ campaignRecipients db' = campaignRecipients db
  /\ appSettings db' = appSettings db.

(** What one accepted message leaves behind: [lead], [conv] and [msg] are
    the lead of the sender's phone, its conversation on this channel
    identity and the stored message. *)
Definition reconciled (now userId : Z) (message : WAMessage) (phone : string)
    (db db' : Store) (lead : Lead) (conv : Conversation) (msg : ChatMessage)
    : Prop :=
  lead_by_phone phone db' = Some lead
  /\ match lead_by_phone phone db with
     | Some l =>
         lead = touch_lead now l
         /\ length (rows (leads db')) = length (rows (leads db))
     | None =>
         rows (leads db') = rows (leads db) ++ [lead]
         /\ match default_first_stage db with
            | Some st =>
                lead_pipelineStageId lead = Some (stage_id st)
                /\ lead_kanbanOrder lead
                   = Some (default 0 (max_kanbanOrder (stage_id st) db) + 1)
            | None =>
                lead_pipelineStageId lead = None /\ lead_kanbanOrder lead = Some 0
            end
     end
  /\ conversation_of (lead_id lead) userId db' = Some conv
  /\ match conversation_of (lead_id lead) userId db with
     | Some c =>
         conv_id conv = conv_id c
         /\ length (rows (conversations db')) = length (rows (conversations db))
         /\ conv_unreadCount conv = Some (default 0 (conv_unreadCount c) + 1)
     | None =>
         rows (conversations db') = rows (conversations db) ++ [conv]
         /\ conv_unreadCount conv = Some 1
     end
  /\ rows (chatMessages db') = rows (chatMessages db) ++ [msg]
  /\ msg_conversationId msg = conv_id conv
  /\ msg_direction msg = "inbound"
  /\ msg_content msg = text_of message
  /\ msg_whatsappMessageId msg = key_id message
  /\ untouched db db'.

(** The claim of C1 for a newly created lead: it sits in the first stage
    of the default pipeline, one past the largest kanban order there. *)
Definition in_default_first_stage (db : Store) (lead : Lead) : Prop :=
  exists st,
    default_first_stage db = Some st
    /\ lead_pipelineStageId lead = Some (stage_id st)
    /\ lead_kanbanOrder lead = Some (default 0 (max_kanbanOrder (stage_id st) db) + 1).

(** The (campaignId, leadId) pairs of the recipient rows, in table order. *)
Definition recipient_pairs (db : Store) : list (Z * Z) :=
  map (fun r => (rcpt_campaignId r, rcpt_leadId r)) (rows (campaignRecipients db)).

(** The audience meets no recipient row of the campaign: no lead of it
    has one, and no lead comes twice. *)
Definition fresh_audience (campaignId : Z) (audience : list Lead) (db : Store) : Prop :=
  NoDup (map lead_id audience)
  /\ Forall (fun l => (campaignId, lead_id l) ∉ recipient_pairs db) audience.

End Spec.

(** * Sample stores, inputs and events *)

Module Sample.
Import JS Db Leads MessageHandler Campaigns Baileys.

(** A settings object whose SMTP password is the empty string. *)
Definition settings_empty_pass : gmap string value :=
  {[ "smtpConfig" := VObj {[ "host" := VStr "mail.example.org"; "pass" := VStr "" ]} ]}.

Definition lead_ana : Lead :=
  {| lead_id := 1; lead_name := "Ana"; lead_phone := "+595981000111";
     lead_email := None; lead_country := "Paraguay"; lead_source := None;
     lead_notes := None; lead_customFields := None; lead_value := Some "0.00";
     lead_commission := Some "5000.00"; lead_assignedToId := None;
     lead_whatsappNumberId := None; lead_pipelineStageId := None;
     lead_kanbanOrder := Some 0; lead_createdAt := None; lead_updatedAt := None;
     lead_lastContactedAt := None |}.

Definition store_ana : Store :=
  set_leads {| rows := [lead_ana]; next_id := 2 |} Db.empty.

Definition input_ana : CreateInput :=
  {| in_name := "Ana Maria"; in_phone := "+595981000111"; in_email := None;
     in_country := "Panama"; in_source := None; in_notes := None;
     in_pipelineStageId := None; in_customFields := None; in_value := None |}.

Definition input_luis : CreateInput :=
  {| in_name := "Luis"; in_phone := "+595971222333"; in_email := None;
     in_country := "Paraguay"; in_source := None; in_notes := None;
     in_pipelineStageId := None; in_customFields := None; in_value := Some 150 |}.

Definition hola : WAMessage :=
  {| key_remoteJid := Some "595981000111@s.whatsapp.net"; key_fromMe := false;
     key_id := Some "3EB0A1"; message_conversation := Some "hola";
     message_extendedText := None; message_imageCaption := None;
     pushName := Some "Ana" |}.

Definition lead_marta : Lead :=
  {| lead_id := 1; lead_name := "Marta"; lead_phone := "+595961444555";
     lead_email := None; lead_country := "Paraguay"; lead_source := None;
     lead_notes := None; lead_customFields := None; lead_value := Some "0.00";
     lead_commission := Some "5000.00"; lead_assignedToId := None;
     lead_whatsappNumberId := None; lead_pipelineStageId := Some 11;
     lead_kanbanOrder := Some 4; lead_createdAt := None; lead_updatedAt := None;
     lead_lastContactedAt := None |}.

(** Two pipelines, the second the default one with stage 11 first, and one
    lead in that stage. *)
Definition store_pipeline : Store :=
  {| leads := {| rows := [lead_marta]; next_id := 2 |};
     conversations := empty_table; chatMessages := empty_table;
     pipelines := [ {| pipeline_id := 1; pipeline_isDefault := false |};
                    {| pipeline_id := 2; pipeline_isDefault := true |} ];
     pipelineStages :=
       [ {| stage_id := 10; stage_pipelineId := 2; stage_order := 2 |};
         {| stage_id := 11; stage_pipelineId := 2; stage_order := 1 |};
         {| stage_id := 12; stage_pipelineId := 1; stage_order := 0 |} ];
     whatsappNumbers := [7]; campaigns := [];
     campaignRecipients := empty_table; appSettings := empty_table |}.

(** A message in a group chat. *)
Definition group_hola : WAMessage :=
  {| key_remoteJid := Some "120363000000000000@g.us"; key_fromMe := false;
     key_id := Some "3EB0A2"; message_conversation := Some "hola";
     message_extendedText := None; message_imageCaption := None;
     pushName := Some "Ana" |}.


Definition lead_luis : Lead :=
  {| lead_id := 2; lead_name := "Luis"; lead_phone := "+595971222333";
     lead_email := None; lead_country := "Paraguay"; lead_source := None;
     lead_notes := None; lead_customFields := None; lead_value := Some "150";
     lead_commission := Some "5000.00"; lead_assignedToId := None;
     lead_whatsappNumberId := None; lead_pipelineStageId := None;
     lead_kanbanOrder := Some 0; lead_createdAt := None; lead_updatedAt := None;
     lead_lastContactedAt := None |}.

Definition draft1 : Campaign :=
  {| camp_id := 1; camp_status := "draft"; camp_totalRecipients := 0;
     camp_audienceStage := None; camp_startedAt := None |}.

(** Two leads and a draft campaign without recipients. *)
Definition store_two_leads : Store :=
  set_campaigns [draft1]
    (set_leads {| rows := [lead_ana; lead_luis]; next_id := 3 |} Db.empty).

(** A unique-key violation as a query layer that wraps the driver's error
    hands it on: the code is on the cause, not on the error, and the
    message quotes the statement. *)
Definition wrapped_dup : SqlError :=
  {| err_code := None;
     err_message :=
       Some "Failed query: insert into `campaign_recipients` (`id`, `campaignId`, `leadId`, `status`) values (default, ?, ?, ?)" |}.

Definition connection_lost : SqlError :=
  {| err_code := Some "ECONNRESET"; err_message := Some "read ECONNRESET" |}.

(** The insert for lead 2 loses the connection. *)
Definition fail_on_luis (leadId : Z) : option SqlError :=
  if bool_decide (leadId = 2) then Some connection_lost else None.

(** A close event that reports a logout. *)
Definition logged_out_close : ConnectionUpdate :=
  {| connection := Some conn_close;
     lastDisconnect_statusCode := Some loggedOut;
     update_qr := None |}.

Definition world7 : World :=
  {| connections := {[ 7 := {| status := connected; qr := None; socket := Some 1 |} ]};
     sessions := {[ 7 ]} |}.

End Sample.

(** * Vocabulary and samples for the other handlers *)

Module SpecX.
Import JS Db Leads MessageHandler Campaigns.

(** A table whose ids are distinct and below its counter, as
    AUTO_INCREMENT on a primary key keeps them. *)
Definition table_wf {A} (id : A -> Z) (t : Table A) : Prop :=
  NoDup (map id (rows t)) /\ Forall (fun r => id r < next_id t) (rows t).

(** No phone number belongs to two leads. *)
Definition phones_unique (db : Store) : Prop :=
  forall phone, (Spec.phone_count phone db <= 1)%nat.

(** The leads the bucket of stage [k] is to hold: those of the stage,
    none for the stage id 0, which the grouping loop takes for "no
    stage". *)
Definition of_stage (k : Z) (l : Lead) : Prop :=
  lead_pipelineStageId l = Some k /\ k <> 0.

(** The rows a launch may add: the store changes only for a draft
    campaign with an audience. *)
Definition launchable (campaignId : Z) (db : Store) : Prop :=
  exists c,
    campaign_by_id campaignId db = Some c
    /\ camp_status c = "draft"
    /\ audience_of c db <> [].

(** The messages of a batch that pass the handler's guards. *)
Definition accepted_count (messages : list (Z * WAMessage)) : nat :=
  length (filter (fun m => is_Some (accepted m.2)) messages).

(** A step of the lead intake: a create call or an inbound message. *)
Inductive Intake :=
  | ByForm (user : option Z) (input : CreateInput)
  | ByMessage (now userId : Z) (message : WAMessage).

Definition intake (i : Intake) (db : Store) : Store :=
  match i with
  | ByForm user input => (create user input db).1
  | ByMessage now userId message => handleIncomingMessage now userId message db
  end.

(** The value a settings column holds in the row the application reads,
    [None] when there is no row or the column is not set. *)
Definition stored (col : string) (db : Store) : option value :=
  AppSettings.latest (rows (appSettings db)) ≫= fun row => as_cols row !! col.

(** The configuration object of a settings column as the routers read it:
    empty when there is no row or nothing in the column. *)
Definition config (col : string) (db : Store) : gmap string value :=
  from_option (fun row => SettingsRouter.column_or_empty row col) ∅
    (AppSettings.latest (rows (appSettings db))).

(** The owner accounts. *)
Definition owners (t : Table TeamRouter.User) : list TeamRouter.User :=
  filter (fun u => TeamRouter.user_role u = "owner") (rows t).

(** No e-mail address belongs to two users. *)
Definition emails_unique (t : Table TeamRouter.User) : Prop :=
  forall email,
    (length (filter (fun u => TeamRouter.user_email u = Some email) (rows t)) <= 1)%nat.

(** No user carries "owner" as custom role. *)
Definition no_owner_custom (t : Table TeamRouter.User) : Prop :=
  Forall (fun u => TeamRouter.user_customRole u <> Some "owner") (rows t).

(** The unread direct messages from [sender] to [me]. *)
Definition unread (me sender : Z) (t : Table InternalChat.InternalMessage) : nat :=
  length (filter (fun m => InternalChat.im_senderId m = sender
                           /\ InternalChat.im_recipientId m = Some me
                           /\ InternalChat.im_isRead m = false) (rows t)).

(** The chat list of [me], in table order: the other active users, each
    with the number of unread direct messages to [me]. *)
Definition chat_rows (me : Z) (users : Table TeamRouter.User)
    (t : Table InternalChat.InternalMessage) : list InternalChat.RecentChat :=
  map (fun u => {| InternalChat.rc_id := TeamRouter.user_id u;
                   InternalChat.rc_name := TeamRouter.user_name u;
                   InternalChat.rc_role := TeamRouter.user_role u;
                   InternalChat.rc_isActive := TeamRouter.user_isActive u;
                   InternalChat.rc_unreadCount :=
                     Z.of_nat (unread me (TeamRouter.user_id u) t) |})
    (filter (fun u => TeamRouter.user_isActive u = true /\ TeamRouter.user_id u <> me)
       (rows users)).

(** The messages of the direct chat between [a] and [b]. *)
Definition between (a b : Z) (m : InternalChat.InternalMessage) : Prop :=
  (InternalChat.im_senderId m = a /\ InternalChat.im_recipientId m = Some b)
  \/ (InternalChat.im_senderId m = b /\ InternalChat.im_recipientId m = Some a).

End SpecX.

Module SampleX.
Import JS Db Leads MessageHandler Campaigns Sample.

Definition lead_rosa : Lead :=
  {| lead_id := 2; lead_name := "Rosa"; lead_phone := "+595971000222";
     lead_email := None; lead_country := "Paraguay"; lead_source := None;
     lead_notes := None; lead_customFields := None; lead_value := Some "0.00";
     lead_commission := Some "5000.00"; lead_assignedToId := None;
     lead_whatsappNumberId := None; lead_pipelineStageId := Some 10;
     lead_kanbanOrder := Some 1; lead_createdAt := Some 50; lead_updatedAt := None;
     lead_lastContactedAt := None |}.

Definition lead_ines : Lead :=
  {| lead_id := 3; lead_name := "Ines"; lead_phone := "+595971000333";
     lead_email := None; lead_country := "Paraguay"; lead_source := None;
     lead_notes := None; lead_customFields := None; lead_value := Some "0.00";
     lead_commission := Some "5000.00"; lead_assignedToId := None;
     lead_whatsappNumberId := None; lead_pipelineStageId := Some 11;
     lead_kanbanOrder := Some 2; lead_createdAt := Some 60; lead_updatedAt := None;
     lead_lastContactedAt := None |}.

(** The pipelines of [store_pipeline] with three leads: Marta (order 4) and
    Ines (order 2) in stage 11, Rosa in stage 10. *)
Definition store_kanban : Store :=
  set_leads {| rows := [lead_marta; lead_rosa; lead_ines]; next_id := 4 |}
    store_pipeline.

(** A batch: an accepted message, one of our own, one from a group and
    the first one delivered again. *)
Definition batch : list (Z * WAMessage) :=
  [ (1000, hola);
    (1001, {| key_remoteJid := Some "595981000111@s.whatsapp.net";
              key_fromMe := true; key_id := Some "3EB0B7";
              message_conversation := Some "buenas"; message_extendedText := None;
              message_imageCaption := None; pushName := None |});
    (1002, group_hola);
    (1003, hola) ].

Definition world_live : Baileys.World :=
  {| Baileys.connections :=
       {[ 7 := {| Baileys.status := Baileys.connected; Baileys.qr := None;
                  Baileys.socket := Some 41 |};
          8 := {| Baileys.status := Baileys.qr_ready; Baileys.qr := Some "2@abc";
                  Baileys.socket := Some 42 |} ]};
     Baileys.sessions := {[ 7; 8 ]} |}.

Definition timed_out_close : Baileys.ConnectionUpdate :=
  {| Baileys.connection := Some Baileys.conn_close;
     Baileys.lastDisconnect_statusCode := Some 408;
     Baileys.update_qr := None |}.

Definition user (id : Z) (name email role : string) : TeamRouter.User :=
  {| TeamRouter.user_id := id; TeamRouter.user_openId := "local_" +:+ name;
     TeamRouter.user_name := Some name; TeamRouter.user_email := Some email;
     TeamRouter.user_password := None; TeamRouter.user_role := role;
     TeamRouter.user_customRole := None; TeamRouter.user_isActive := true;
     TeamRouter.user_hasSeenTour := Some true;
     TeamRouter.user_loginMethod := Some "credentials";
     TeamRouter.user_invitationToken := None;
     TeamRouter.user_invitationExpires := None |}.

(** An owner, an admin and an agent. *)
Definition team : Table TeamRouter.User :=
  {| rows := [ user 1 "olga" "olga@crm.test" "owner";
               user 2 "adan" "adan@crm.test" "admin";
               user 3 "agus" "agus@crm.test" "agent" ];
     next_id := 4 |}.

Definition adan : TeamRouter.Ctx := {| TeamRouter.ctx_id := 2; TeamRouter.ctx_role := "admin" |}.

(** Every address with an "@" counts as an e-mail address here. *)
Definition has_at (s : string) : bool := JS.includes s "@".

(** What the admin tries: to demote, disable and remove the owner and to
    make another one; to add an agent, promote another and remove him. *)
Definition adan_calls : list (TeamRouter.Ctx * TeamRouter.Call) :=
  [ (adan, TeamRouter.UpdateRole 1 "viewer");
    (adan, TeamRouter.UpdateCustomRole 1 (Some "sales") (Some {[ "sales" := ["leads.view"] ]}));
    (adan, TeamRouter.SetActive 1 false);
    (adan, TeamRouter.Delete 1);
    (adan, TeamRouter.UpdateRole 3 "owner");
    (adan, TeamRouter.Create "Bea" "bea@crm.test" "secret1" "agent" "$2a$10$hash" "n4n0");
    (adan, TeamRouter.UpdateRole 3 "supervisor");
    (adan, TeamRouter.Delete 3) ].

Definition dm (id sender recipient : Z) (content : string) (isRead : bool) (at_ : Z)
    : InternalChat.InternalMessage :=
  {| InternalChat.im_id := id; InternalChat.im_senderId := sender;
     InternalChat.im_recipientId := Some recipient;
     InternalChat.im_content := content; InternalChat.im_attachments := None;
     InternalChat.im_isRead := isRead; InternalChat.im_createdAt := at_ |}.

(** Two unread messages from the agent and one from the owner to the
    admin, and one from the agent to the owner. *)
Definition inbox : Table InternalChat.InternalMessage :=
  {| rows := [ dm 1 3 2 "hola" false 100; dm 2 1 2 "informe?" false 110;
               dm 3 3 1 "permiso" false 120; dm 4 3 2 "estas?" false 130;
               dm 5 2 3 "voy" true 140 ];
     next_id := 6 |}.

Definition agus : LeadsUpdate.Caller :=
  {| LeadsUpdate.caller_id := Some 3; LeadsUpdate.caller_role := Some "agent";
     LeadsUpdate.caller_customRole := Some "admin" |}.

(** A matrix that lets admins do everything and agents see leads. *)
Definition matrix_view : gmap string (list string) :=
  {[ "admin" := ["*"]; "agent" := ["leads.view"] ]}.

(** Hand lead 1 to user 3. *)
Definition reassign : LeadsUpdate.UpdateInput :=
  {| LeadsUpdate.up_id := 1; LeadsUpdate.up_name := None;
     LeadsUpdate.up_phone := None; LeadsUpdate.up_email := None;
     LeadsUpdate.up_country := None; LeadsUpdate.up_source := None;
     LeadsUpdate.up_notes := None; LeadsUpdate.up_pipelineStageId := None;
     LeadsUpdate.up_customFields := None; LeadsUpdate.up_value := None;
     LeadsUpdate.up_assignedToId := Some (Some 3) |}.

(** Give lead 1 the phone of lead 2. *)
Definition steal_phone : LeadsUpdate.UpdateInput :=
  {| LeadsUpdate.up_id := 1; LeadsUpdate.up_name := None;
     LeadsUpdate.up_phone := Some "+595971000222"; LeadsUpdate.up_email := None;
     LeadsUpdate.up_country := None; LeadsUpdate.up_source := None;
     LeadsUpdate.up_notes := None; LeadsUpdate.up_pipelineStageId := None;
     LeadsUpdate.up_customFields := None; LeadsUpdate.up_value := None;
     LeadsUpdate.up_assignedToId := None |}.

End SampleX.

(** * Properties *)

(** ** Role resolution *)

Section RoleResolution.
Import JS Rbac SecurityHelpers Spec.

Variable permissionsMatrix : gmap string (list string).

Lemma computeEffectiveRole_cases baseRole customRole :
  computeEffectiveRole baseRole customRole permissionsMatrix = base_of baseRole
  \/ (computeEffectiveRole baseRole customRole permissionsMatrix = custom_of customRole
      /\ base_of baseRole <> "owner"
      /\ custom_of customRole <> "owner"
      /\ is_Some (permissionsMatrix !! custom_of customRole)).
Proof.
  unfold computeEffectiveRole. fold (base_of baseRole). fold (custom_of customRole).
  case_bool_decide as Hb; [left; congruence|].
  destruct (str_truthy (custom_of customRole)); cbn [negb]; [|by left].
  unfold hasOwnProperty. case_bool_decide as Hm; cbn [negb]; [|by left].
  case_bool_decide as Hc; [by left|].
  destruct (_ && _); [by left|].
  destruct (_ && _); [by left|].
  right. done.
Qed.

(** computeEffectiveRole answers "owner" exactly for an owner base role. *)
Lemma computeEffectiveRole_owner_iff baseRole customRole :
  computeEffectiveRole baseRole customRole permissionsMatrix = "owner"
  <-> base_of baseRole = "owner".
Proof.
  split.
  - destruct (computeEffectiveRole_cases baseRole customRole)
      as [-> | (-> & _ & Hc & _)]; [done|]. intros; contradiction.
  - intros Hb. unfold computeEffectiveRole. fold (base_of baseRole).
    by rewrite bool_decide_eq_true_2.
Qed.

(** A custom role that is not an own key of the matrix is ignored. *)
Lemma computeEffectiveRole_not_in_matrix baseRole customRole :
  permissionsMatrix !! custom_of customRole = None ->
  computeEffectiveRole baseRole customRole permissionsMatrix = base_of baseRole.
Proof.
  intros Hm.
  destruct (computeEffectiveRole_cases baseRole customRole)
    as [-> | (_ & _ & _ & [x Hx])]; [done | congruence].
Qed.

(** A built-in custom role that outranks a built-in base role is ignored. *)
Lemma computeEffectiveRole_no_builtin_escalation baseRole customRole rb rc :
  BUILTIN_RANK !! base_of baseRole = Some rb ->
  BUILTIN_RANK !! custom_of customRole = Some rc ->
  rc > rb ->
  computeEffectiveRole baseRole customRole permissionsMatrix = base_of baseRole.
Proof.
  intros Hb Hc Hgt.
  unfold computeEffectiveRole. fold (base_of baseRole). fold (custom_of customRole).
  case_bool_decide as Ho; [congruence|].
  repeat (case_match; [done|]).
  exfalso. unfold get_prop in *. rewrite Hb, Hc in *. cbn in *.
  rewrite bool_decide_eq_true_2 in * by done. done.
Qed.

(** A custom role outside the built-in ones takes effect only for an admin. *)
Lemma computeEffectiveRole_custom_only_admin baseRole customRole :
  BUILTIN_RANK !! custom_of customRole = None ->
  computeEffectiveRole baseRole customRole permissionsMatrix <> base_of baseRole ->
  base_of baseRole = "admin".
Proof.
  intros Hc. unfold computeEffectiveRole.
  fold (base_of baseRole). fold (custom_of customRole).
  case_bool_decide as Ho; [congruence|].
  repeat (case_match; [done|]).
  intros _. unfold get_prop in *. rewrite Hc in *.
  destruct (bool_decide (custom_of customRole ∈ object_prototype_keys));
    cbn in *; case_bool_decide; cbn in *; congruence.
Qed.

(** getEffectiveRole never answers "owner" for another base role. *)
Lemma getEffectiveRole_never_owner baseRole customRole :
  baseRole <> "owner" ->
  getEffectiveRole baseRole customRole permissionsMatrix <> "owner".
Proof.
  intros Hb. unfold getEffectiveRole.
  rewrite bool_decide_eq_false_2 by done.
  destruct customRole as [c|]; [|done].
  destruct (str_truthy c) eqn:Hc; cbn [negb]; [|done].
  destruct (valid _) eqn:Hv; cbn [negb]; [|done].
  intros ->. unfold validateCustomRole in Hv. cbn in Hv. discriminate.
Qed.

(** getEffectiveRole ignores a reserved custom role. *)
Lemma getEffectiveRole_reserved baseRole c :
  trim c ∈ RESERVED_SYSTEM_ROLES ->
  getEffectiveRole baseRole (Some c) permissionsMatrix = baseRole.
Proof.
  intros Hr. unfold getEffectiveRole.
  case_bool_decide; [congruence|].
  destruct (str_truthy c) eqn:Hc; cbn [negb]; [|done].
  unfold validateCustomRole. rewrite Hc. cbn [negb].
  by rewrite bool_decide_eq_true_2.
Qed.

(** getEffectiveRole ignores a custom role that is neither an own key of
    the matrix nor a name found on [Object.prototype]. *)
Lemma getEffectiveRole_missing baseRole c :
  permissionsMatrix !! trim c = None ->
  trim c ∉ object_prototype_keys ->
  getEffectiveRole baseRole (Some c) permissionsMatrix = baseRole.
Proof.
  intros Hm Hp. unfold getEffectiveRole.
  case_bool_decide; [congruence|].
  destruct (str_truthy c) eqn:Hc; cbn [negb]; [|done].
  unfold validateCustomRole. rewrite Hc. cbn [negb].
  case_bool_decide; [done|].
  unfold matrix_entry_falsy, get_prop. rewrite Hm.
  by rewrite bool_decide_eq_false_2.
Qed.

End RoleResolution.

(** C9: role resolution must fall back to the base role for every custom
    role that is unknown to the permissions matrix.  [getEffectiveRole]
    does not: its validation reads [permissionsMatrix[trimmed]], which also
    finds what a plain object inherits, so with an empty matrix the unknown
    custom role "constructor" is returned for an agent, where
    [computeEffectiveRole], which tests own properties, answers "agent". *)
Theorem getEffectiveRole_inherited_key_accepted :
  (∅ : gmap string (list string)) !! "constructor" = None
  /\ SecurityHelpers.valid (SecurityHelpers.validateCustomRole (Some "constructor") ∅)
     = true
  /\ SecurityHelpers.getEffectiveRole "agent" (Some "constructor") ∅ = "constructor"
  /\ Rbac.computeEffectiveRole "agent" (Some "constructor") ∅ = "agent".
Proof. split; [done|]. repeat split; vm_compute; reflexivity. Qed.

(** ** Settings sanitising *)

Section Sanitize.
Import JS SecurityHelpers Spec Sample.

Lemma strip_secret_other cfg secret flag s k :
  k <> cfg -> strip_secret cfg secret flag s !! k = s !! k.
Proof.
  intros Hk. unfold strip_secret.
  destruct (s !! cfg) as [[| | | | |c]|]; try done.
  destruct (truthy _); [|done]. by rewrite lookup_insert_ne.
Qed.

Lemma strip_secret_truthy cfg secret flag s :
  secret <> flag ->
  truthy (secret_of s cfg secret) = true ->
  masked s (strip_secret cfg secret flag s) cfg secret flag.
Proof.
  intros Hsf. unfold secret_of, strip_secret.
  destruct (s !! cfg) as [[| | | | |c]|] eqn:Hcfg; cbn; try done.
  intros Ht. unfold get. rewrite Ht.
  exists c, (<[flag := VBool true]> (delete secret c)).
  split; [done|]. split; [by rewrite lookup_insert_eq|].
  split; [by rewrite lookup_insert_ne, lookup_delete_eq|].
  split; [by rewrite lookup_insert_eq|].
  intros k Hk1 Hk2. by rewrite lookup_insert_ne, lookup_delete_ne.
Qed.

Lemma strip_secret_falsy cfg secret flag s :
  truthy (secret_of s cfg secret) = false ->
  strip_secret cfg secret flag s = s.
Proof.
  unfold secret_of, strip_secret.
  destruct (s !! cfg) as [[| | | | |c]|]; cbn; try done.
  unfold get. by intros ->.
Qed.

Lemma secret_of_strip_other cfg cfg' secret secret' flag s :
  cfg <> cfg' ->
  secret_of (strip_secret cfg' secret' flag s) cfg secret = secret_of s cfg secret.
Proof. intros H. unfold secret_of. by rewrite strip_secret_other. Qed.

Lemma masked_frame before after after' cfg secret flag :
  after' !! cfg = after !! cfg ->
  masked before after cfg secret flag -> masked before after' cfg secret flag.
Proof.
  intros He (c & c' & H1 & H2 & H3). exists c, c'. by rewrite He.
Qed.

Lemma masked_frame_before before before' after cfg secret flag :
  before' !! cfg = before !! cfg ->
  masked before after cfg secret flag -> masked before' after cfg secret flag.
Proof.
  intros He (c & c' & H1 & H2 & H3). exists c, c'. by rewrite He.
Qed.

(** C10 (as amended): on a settings object, sanitizeAppSettings removes
    each of smtpConfig.pass, aiConfig.apiKey, mapsConfig.apiKey and
    storageConfig.secretKey that is truthy and sets the matching flag to
    true; a configuration object whose secret is missing or falsy is
    returned as it is, and so is every other field; null gives null. *)
Theorem sanitizeAppSettings_spec (settings : gmap string value) :
  sanitizeAppSettings None = None
  /\ exists out,
      sanitizeAppSettings (Some settings) = Some out
      /\ (forall cfg secret flag,
            (cfg, (secret, flag)) ∈ secret_fields ->
            if truthy (secret_of settings cfg secret)
            then masked settings out cfg secret flag
            else out !! cfg = settings !! cfg)
      /\ (forall k, k ∉ secret_fields.*1 -> out !! k = settings !! k).
Proof.
  split; [done|]. eexists. split; [reflexivity|]. split.
  - intros cfg secret flag Hin. unfold secret_fields in Hin.
    rewrite !elem_of_cons, elem_of_nil in Hin.
    destruct Hin as [Hin|[Hin|[Hin|[Hin|[]]]]]; simplify_eq.
    + destruct (truthy _) eqn:Ht.
      * apply masked_frame with (strip_secret "smtpConfig" "pass" "hasPassword" settings).
        { by rewrite !strip_secret_other by done. }
        by apply strip_secret_truthy.
      * rewrite !strip_secret_other by done. by rewrite strip_secret_falsy.
    + destruct (truthy _) eqn:Ht.
      * rewrite <- (secret_of_strip_other _ "smtpConfig" _ "pass" "hasPassword") in Ht by done.
        apply strip_secret_truthy with (flag := "hasApiKey") in Ht; [|done].
        eapply masked_frame_before; [|eapply masked_frame; [|exact Ht]].
        { by rewrite strip_secret_other by done. }
        by rewrite !strip_secret_other by done.
      * rewrite <- (secret_of_strip_other _ "smtpConfig" _ "pass" "hasPassword") in Ht by done.
        rewrite !(strip_secret_other "storageConfig"), !(strip_secret_other "mapsConfig") by done.
        rewrite strip_secret_falsy by done. by rewrite strip_secret_other by done.
    + destruct (truthy _) eqn:Ht.
      * rewrite <- (secret_of_strip_other _ "smtpConfig" _ "pass" "hasPassword") in Ht by done.
        rewrite <- (secret_of_strip_other _ "aiConfig" _ "apiKey" "hasApiKey") in Ht by done.
        apply strip_secret_truthy with (flag := "hasApiKey") in Ht; [|done].
        eapply masked_frame_before; [|eapply masked_frame; [|exact Ht]].
        { by rewrite !strip_secret_other by done. }
        by rewrite !strip_secret_other by done.
      * rewrite <- (secret_of_strip_other _ "smtpConfig" _ "pass" "hasPassword") in Ht by done.
        rewrite <- (secret_of_strip_other _ "aiConfig" _ "apiKey" "hasApiKey") in Ht by done.
        rewrite !(strip_secret_other "storageConfig") by done.
        rewrite strip_secret_falsy by done. by rewrite !strip_secret_other by done.
    + destruct (truthy _) eqn:Ht.
      * rewrite <- (secret_of_strip_other _ "smtpConfig" _ "pass" "hasPassword") in Ht by done.
        rewrite <- (secret_of_strip_other _ "aiConfig" _ "apiKey" "hasApiKey") in Ht by done.
        rewrite <- (secret_of_strip_other _ "mapsConfig" _ "apiKey" "hasApiKey") in Ht by done.
        apply strip_secret_truthy with (flag := "hasSecretKey") in Ht; [|done].
        eapply masked_frame_before; [|exact Ht].
        by rewrite !strip_secret_other by done.
      * rewrite <- (secret_of_strip_other _ "smtpConfig" _ "pass" "hasPassword") in Ht by done.
        rewrite <- (secret_of_strip_other _ "aiConfig" _ "apiKey" "hasApiKey") in Ht by done.
        rewrite <- (secret_of_strip_other _ "mapsConfig" _ "apiKey" "hasApiKey") in Ht by done.
        rewrite strip_secret_falsy by done. by rewrite !strip_secret_other by done.
  - intros k Hk. cbn in Hk.
    rewrite !not_elem_of_cons in Hk. destruct Hk as (? & ? & ? & ? & _).
    by rewrite !strip_secret_other by done.
Qed.

(** C10 (as stated) fails: the key smtpConfig.pass of the input above is
    still there in what sanitizeAppSettings returns. *)
Lemma sanitizeAppSettings_keeps_falsy_secret :
  exists out,
    sanitizeAppSettings (Some settings_empty_pass) = Some out
    /\ ~ absent out "smtpConfig" "pass".
Proof.
  eexists. split; [reflexivity|].
  unfold absent. vm_compute. discriminate.
Qed.

End Sanitize.

(** ** Lookups in tables *)

Section Tables.
Context {A : Type}.
Implicit Types (p : A -> bool) (l : list A).

Lemma find_none_Forall p l :
  find p l = None <-> Forall (fun x => p x = false) l.
Proof.
  induction l as [|x l IH]; cbn.
  - split; [constructor | done].
  - destruct (p x) eqn:Hx.
    + split; [done|]. intros H. inversion H; congruence.
    + rewrite IH. split; [by constructor | by inversion 1].
Qed.

Lemma find_some_elem p l x : find p l = Some x -> x ∈ l /\ p x = true.
Proof.
  intros H. apply find_some in H as [H1 H2]. by rewrite list_elem_of_In.
Qed.

Lemma find_is_Some p l x : x ∈ l -> p x = true -> is_Some (find p l).
Proof.
  intros Hin Hp. destruct (find p l) eqn:Hf; [by eexists|].
  apply find_none_Forall in Hf. rewrite Forall_forall in Hf.
  specialize (Hf x Hin). congruence.
Qed.

Lemma find_snoc p l x :
  find p (l ++ [x]) =
  match find p l with
  | Some y => Some y
  | None => if p x then Some x else None
  end.
Proof.
  induction l as [|y l IH]; cbn; [done|]. by destruct (p y).
Qed.

Lemma find_map_stable p (f : A -> A) l :
  (forall x, p (f x) = p x) -> find p (map f l) = f <$> find p l.
Proof.
  intros Hf. induction l as [|x l IH]; cbn; [done|].
  rewrite Hf. by destruct (p x).
Qed.

Lemma filter_snoc_length p l x :
  length (filter p (l ++ [x])) = (length (filter p l) + if p x then 1 else 0)%nat.
Proof.
  rewrite filter_app, length_app. cbn.
  unfold filter at 2. cbn. by destruct (decide (p x)), (p x).
Qed.

End Tables.

Lemma sql_max_spec (l : list Z) :
  match Db.sql_max l with
  | None => l = []
  | Some m => m ∈ l /\ Forall (fun x => x <= m) l
  end.
Proof.
  induction l as [|x l IH]; [done|].
  change (Db.sql_max (x :: l))
    with (Some (match Db.sql_max l with None => x | Some m => Z.max x m end)).
  destruct (Db.sql_max l) as [m|].
  - destruct IH as [Hin Hall]. split.
    + destruct (Z.max_spec x m) as [[_ ->]|[_ ->]]; [by right | by left].
    + constructor; [lia|]. eapply Forall_impl; [exact Hall|]. cbn. lia.
  - subst. split; [by left|]. constructor; [lia | constructor].
Qed.

(** ** leads.create *)

Section LeadsCreate.
Import Db Leads Spec Sample.

Lemma lead_by_phone_None phone db :
  lead_by_phone phone db = None <-> phone_count phone db = 0%nat.
Proof.
  unfold lead_by_phone, phone_count. rewrite find_none_Forall.
  rewrite length_zero_iff_nil. split.
  - intros H. induction H as [|x l Hx _ IH]; [done|].
    rewrite filter_cons. destruct (decide _) as [Hd|Hd]; [|done].
    rewrite Hx in Hd. done.
  - intros H. apply Forall_forall. intros x Hx.
    destruct (bool_decide (lead_phone x = phone)) eqn:Hp; [|done].
    assert (x ∈ filter (fun l => bool_decide (lead_phone l = phone)) (rows (leads db))) as Hin.
    { apply list_elem_of_filter. split; [by rewrite Hp | done]. }
    rewrite H in Hin. by apply elem_of_nil in Hin.
Qed.

Lemma create_phone_count user input db phone :
  (phone_count phone (create user input db).1 <= Nat.max 1 (phone_count phone db))%nat.
Proof.
  unfold create. destruct (lead_by_phone (in_phone input) db) eqn:Hf; cbn; [lia|].
  apply lead_by_phone_None in Hf.
  unfold phone_count in *. cbn. rewrite filter_snoc_length. cbn.
  case_bool_decide as Hp; [|lia]. subst phone. lia.
Qed.

Lemma create_all_phone_count calls db phone :
  (phone_count phone (create_all calls db) <= Nat.max 1 (phone_count phone db))%nat.
Proof.
  revert db. induction calls as [|[user input] calls IH]; intros db; cbn; [lia|].
  etrans; [apply IH|]. pose proof (create_phone_count user input db phone). lia.
Qed.

(** C2: when the store holds a lead with the input phone, leads.create
    returns the id of such a lead with existed = true and changes nothing;
    hence a run of create calls never takes a phone number to more than
    one lead (a number that had none or one before has at most one
    after). *)
Theorem leads_create_existing_phone user input db l :
  l ∈ rows (leads db) ->
  lead_phone l = in_phone input ->
  (exists existing,
      existing ∈ rows (leads db)
      /\ lead_phone existing = in_phone input
      /\ create user input db =
         (db, {| res_id := lead_id existing; res_success := true;
                 res_existed := Some true |}))
  /\ forall calls phone,
       (phone_count phone db <= 1)%nat ->
       (phone_count phone (create_all calls db) <= 1)%nat.
Proof.
  intros Hin Hphone. split.
  - destruct (find_is_Some (fun l => bool_decide (lead_phone l = in_phone input))
                (rows (leads db)) l Hin) as [existing Hf].
    { by apply bool_decide_eq_true_2. }
    exists existing. apply find_some_elem in Hf as Hf'. destruct Hf' as [He Hp].
    apply bool_decide_eq_true_1 in Hp. split; [done|]. split; [done|].
    unfold create, lead_by_phone. by rewrite Hf.
  - intros calls phone Hle.
    pose proof (create_all_phone_count calls db phone). lia.
Qed.

Lemma leads_create_existing_phone_witness :
  lead_ana ∈ rows (leads store_ana)
  /\ lead_phone lead_ana = in_phone input_ana
  /\ ((exists existing,
         existing ∈ rows (leads store_ana)
         /\ lead_phone existing = in_phone input_ana
         /\ create (Some 7) input_ana store_ana =
            (store_ana, {| res_id := lead_id existing; res_success := true;
                           res_existed := Some true |}))
      /\ forall calls phone,
           (phone_count phone store_ana <= 1)%nat ->
           (phone_count phone (create_all calls store_ana) <= 1)%nat).
Proof.
  assert (lead_ana ∈ rows (leads store_ana)) as Hin by (cbn; by left).
  split; [exact Hin|]. split; [reflexivity|].
  exact (leads_create_existing_phone (Some 7) input_ana store_ana lead_ana Hin eq_refl).
Defined.

(** C3 (as stated) fails: creating a lead with a new phone number in the
    empty store leaves no conversation for it (and dispatches no event). *)
Lemma leads_create_no_conversation :
  lead_by_phone (in_phone input_ana) Db.empty = None
  /\ create_dispatch (Some 7) input_ana Db.empty = None
  /\ ~ has_conversation (res_id (create (Some 7) input_ana Db.empty).2)
         (create (Some 7) input_ana Db.empty).1.
Proof.
  split; [reflexivity|]. split; [reflexivity|].
  intros (c & Hc & _). cbn in Hc. by apply elem_of_nil in Hc.
Qed.

(** C3 (as amended): for a phone number no lead has, leads.create appends
    exactly one lead row, carrying the input phone and the returned id
    (existed is not set), and leaves the conversations table as it was. *)
Theorem leads_create_new_phone user input db :
  Forall (fun l => lead_phone l <> in_phone input) (rows (leads db)) ->
  exists new,
    rows (leads (create user input db).1) = (rows (leads db) ++ [new])%list
    /\ lead_phone new = in_phone input
    /\ lead_id new = res_id (create user input db).2
    /\ res_existed (create user input db).2 = None
    /\ conversations (create user input db).1 = conversations db.
Proof.
  intros Hnew.
  assert (lead_by_phone (in_phone input) db = None) as Hf.
  { unfold lead_by_phone. apply find_none_Forall.
    eapply Forall_impl; [exact Hnew|]. cbn. intros l Hl.
    by apply bool_decide_eq_false_2. }
  unfold create. rewrite Hf. cbn. eexists. split; [reflexivity|]. done.
Qed.

Lemma leads_create_new_phone_witness :
  Forall (fun l => lead_phone l <> in_phone input_luis) (rows (leads store_ana))
  /\ exists new,
      rows (leads (create None input_luis store_ana).1)
      = rows (leads store_ana) ++ [new]
      /\ lead_phone new = in_phone input_luis
      /\ lead_id new = res_id (create None input_luis store_ana).2
      /\ res_existed (create None input_luis store_ana).2 = None
      /\ conversations (create None input_luis store_ana).1 = conversations store_ana.
Proof.
  assert (Forall (fun l => lead_phone l <> in_phone input_luis) (rows (leads store_ana)))
    as H by (repeat constructor; cbn; discriminate).
  split; [exact H|].
  exact (leads_create_new_phone None input_luis store_ana H).
Defined.

End LeadsCreate.

(** ** Inbound reconciliation *)

Section Inbound.
Import Db MessageHandler Spec Sample.

Lemma max_kanbanOrder_spec stageId db :
  match max_kanbanOrder stageId db with
  | Some m =>
      (exists l, l ∈ rows (leads db) /\ lead_pipelineStageId l = Some stageId
                 /\ lead_kanbanOrder l = Some m)
      /\ forall l k, l ∈ rows (leads db) -> lead_pipelineStageId l = Some stageId ->
                     lead_kanbanOrder l = Some k -> k <= m
  | None =>
      forall l, l ∈ rows (leads db) -> lead_pipelineStageId l = Some stageId ->
                lead_kanbanOrder l = None
  end.
Proof.
  unfold max_kanbanOrder.
  set (in_stage := fun l : Lead => bool_decide (lead_pipelineStageId l = Some stageId)).
  pose proof (sql_max_spec (omap lead_kanbanOrder (filter in_stage (rows (leads db))))) as H.
  destruct (sql_max _) as [m|].
  - destruct H as [Hin Hall]. split.
    + apply list_elem_of_omap in Hin as (l & Hl & Hk).
      apply list_elem_of_filter in Hl as [Hs Hl]. exists l.
      split; [done|]. split; [|done]. by apply bool_decide_unpack in Hs.
    + intros l k Hl Hs Hk. rewrite Forall_forall in Hall. apply Hall.
      apply list_elem_of_omap. exists l. split; [|done].
      apply list_elem_of_filter. split; [|done]. by apply bool_decide_pack.
  - intros l Hl Hs. destruct (lead_kanbanOrder l) as [k|] eqn:Hk; [|done].
    assert (k ∈ omap lead_kanbanOrder (filter in_stage (rows (leads db)))) as Hin.
    { apply list_elem_of_omap. exists l. split; [|done].
      apply list_elem_of_filter. split; [|done]. by apply bool_decide_pack. }
    rewrite H in Hin. by apply elem_of_nil in Hin.
Qed.

Lemma lead_step now name phone db :
  let r := find_or_create_lead now name phone db in
  conversations r.1 = conversations db
  /\ chatMessages r.1 = chatMessages db
  /\ untouched db r.1
  /\ exists lead,
      lead_by_phone phone r.1 = Some lead /\ lead_id lead = r.2
      /\ match lead_by_phone phone db with
         | Some l =>
             lead = touch_lead now l
             /\ length (rows (leads r.1)) = length (rows (leads db))
         | None =>
             rows (leads r.1) = rows (leads db) ++ [lead]
             /\ lead_pipelineStageId lead = (default_stage_and_order db).1
             /\ lead_kanbanOrder lead = Some (default_stage_and_order db).2
         end.
Proof.
  unfold find_or_create_lead.
  destruct (lead_by_phone phone db) as [l|] eqn:Hf.
  - cbn. split; [done|]. split; [done|]. split; [done|].
    exists (touch_lead now l).
    split; [|split; [done|split; [done|by rewrite length_map]]].
    unfold lead_by_phone in *. cbn. rewrite find_map_stable.
    + rewrite Hf. cbn. by rewrite bool_decide_eq_true_2.
    + intros x. by destruct (bool_decide (lead_id x = lead_id l)).
  - destruct (default_stage_and_order db) as [stageId nextOrder]. cbn.
    split; [done|]. split; [done|]. split; [done|].
    exists (new_lead now name phone stageId nextOrder (next_id (leads db))).
    split; [|done].
    unfold lead_by_phone in *. cbn. rewrite find_snoc, Hf. cbn.
    by rewrite bool_decide_eq_true_2.
Qed.

Lemma conv_step now userId leadId name phone db :
  let r := find_or_create_conversation now userId leadId name phone db in
  leads r.1 = leads db
  /\ chatMessages r.1 = chatMessages db
  /\ untouched db r.1
  /\ exists conv,
      conversation_of leadId userId r.1 = Some conv /\ conv_id conv = r.2
      /\ match conversation_of leadId userId db with
         | Some c =>
             conv_id conv = conv_id c
             /\ length (rows (conversations r.1)) = length (rows (conversations db))
             /\ conv_unreadCount conv = Some (default 0 (conv_unreadCount c) + 1)
         | None =>
             rows (conversations r.1) = rows (conversations db) ++ [conv]
             /\ conv_unreadCount conv = Some 1
         end.
Proof.
  unfold find_or_create_conversation.
  destruct (conversation_of leadId userId db) as [c|] eqn:Hf.
  - cbn. split; [done|]. split; [done|]. split; [done|].
    exists (bump_conversation now (bump (conv_unreadCount c)) c).
    split; [|split; [done|split; [done|split; [by rewrite length_map|done]]]].
    unfold conversation_of in *. cbn. rewrite find_map_stable.
    + rewrite Hf. cbn. by rewrite bool_decide_eq_true_2.
    + intros x. by destruct (bool_decide (conv_id x = conv_id c)).
  - cbn. split; [done|]. split; [done|]. split; [done|].
    exists (new_conversation now userId leadId name phone (next_id (conversations db))).
    split; [|done].
    unfold conversation_of in *. cbn. rewrite find_snoc, Hf.
    unfold conv_matches. cbn. by rewrite !bool_decide_eq_true_2.
Qed.

Lemma default_stage_and_order_spec db :
  match default_first_stage db with
  | Some st =>
      default_stage_and_order db
      = (Some (stage_id st), default 0 (max_kanbanOrder (stage_id st) db) + 1)
  | None => default_stage_and_order db = (None, 0)
  end.
Proof.
  unfold default_first_stage, default_stage_and_order.
  destruct (default_pipeline db) as [p|]; cbn; [|done].
  by destruct (first_stage (pipeline_id p) db).
Qed.

Lemma handle_run now userId message db jid :
  accepted message = Some jid ->
  exists lead conv msg,
    reconciled now userId message (phone_of jid) db
      (handleIncomingMessage now userId message db) lead conv msg.
Proof.
  intros Hacc. unfold handleIncomingMessage. rewrite Hacc.
  pose proof (lead_step now (contact_of message) (phone_of jid) db) as Hl.
  destruct (find_or_create_lead now (contact_of message) (phone_of jid) db)
    as [db1 leadId]. cbn in Hl.
  destruct Hl as (Hc1 & Hm1 & Hu1 & lead & Hlead & Hid & Hcase). subst leadId.
  pose proof (conv_step now userId (lead_id lead) (contact_of message)
                (phone_of jid) db1) as Hc.
  destruct (find_or_create_conversation now userId (lead_id lead)
              (contact_of message) (phone_of jid) db1) as [db2 convId].
  cbn in Hc. destruct Hc as (Hl2 & Hm2 & Hu2 & conv & Hconv & Hcid & Hccase).
  subst convId.
  exists lead, conv, (new_message now userId (conv_id conv) message
                        (next_id (chatMessages db2))).
  assert (untouched db (insert_message now userId (conv_id conv) message db2)) as Hu.
  { unfold untouched in *. cbn.
    destruct Hu1 as (<- & <- & <- & <- & <- & <-). exact Hu2. }
  unfold reconciled, lead_by_phone, conversation_of in *. cbn.
  rewrite Hl2, Hm2, Hm1. rewrite Hc1 in Hccase.
  split; [done|]. split.
  { destruct (find _ (rows (leads db))); [done|].
    destruct Hcase as (Hrows & Hst & Hord). split; [done|].
    pose proof (default_stage_and_order_spec db) as Hd.
    destruct (default_first_stage db); rewrite Hd in Hst, Hord; done. }
  done.
Qed.

(** C1 (as stated) fails: in a store without pipelines the accepted
    message above creates a lead that is in no stage and has kanban
    order 0. *)
Lemma handleIncomingMessage_no_default_pipeline :
  accepted hola = Some "595981000111@s.whatsapp.net"
  /\ exists lead,
      rows (leads (handleIncomingMessage 1000 7 hola Db.empty)) = [lead]
      /\ lead_pipelineStageId lead = None
      /\ lead_kanbanOrder lead = Some 0
      /\ ~ in_default_first_stage Db.empty lead.
Proof.
  split; [reflexivity|]. eexists. split; [reflexivity|].
  split; [reflexivity|]. split; [reflexivity|].
  intros (st & Hst & _). discriminate.
Qed.

(** C1 (as amended): for an accepted message the handler looks up the lead
    of the phone number taken from the JID; an existing lead only gets its
    last-contact time set, a missing one is appended, in the first stage of
    the default pipeline with kanban order one above the largest in that
    stage (1 when the stage has none) if there is such a stage, and in no
    stage with kanban order 0 otherwise.  It then looks up the conversation
    of (lead, channel identity): an existing one keeps its row and has its
    unread counter raised by one, a missing one is appended with counter 1.
    Last it appends one inbound message row for that conversation. *)
Theorem handleIncomingMessage_sequence now userId message db jid :
  accepted message = Some jid ->
  exists lead conv msg,
    reconciled now userId message (phone_of jid) db
      (handleIncomingMessage now userId message db) lead conv msg.
Proof. apply handle_run. Qed.

Lemma handleIncomingMessage_sequence_witness :
  accepted hola = Some "595981000111@s.whatsapp.net"
  /\ exists lead conv msg,
      reconciled 1000 7 hola (phone_of "595981000111@s.whatsapp.net") store_pipeline
        (handleIncomingMessage 1000 7 hola store_pipeline) lead conv msg.
Proof.
  split; [reflexivity|].
  exact (handleIncomingMessage_sequence 1000 7 hola store_pipeline
           "595981000111@s.whatsapp.net" eq_refl).
Defined.

(** C5: handling the same accepted message twice adds at most one lead,
    and none the second time; the second run appends a second message row
    with the same message id and text for the same conversation, and
    raises that conversation's unread counter once more. *)
Theorem handleIncomingMessage_twice now1 now2 userId message db jid :
  accepted message = Some jid ->
  let db1 := handleIncomingMessage now1 userId message db in
  let db2 := handleIncomingMessage now2 userId message db1 in
  (length (rows (leads db1)) <= length (rows (leads db)) + 1)%nat
  /\ length (rows (leads db2)) = length (rows (leads db1))
  /\ (exists m1 m2,
        rows (chatMessages db2) = rows (chatMessages db) ++ [m1; m2]
        /\ msg_whatsappMessageId m1 = key_id message
        /\ msg_whatsappMessageId m2 = key_id message
        /\ msg_content m1 = text_of message
        /\ msg_content m2 = text_of message
        /\ msg_conversationId m2 = msg_conversationId m1)
  /\ exists lead conv1 conv2 unread,
       lead_by_phone (phone_of jid) db1 = Some lead
       /\ conversation_of (lead_id lead) userId db1 = Some conv1
       /\ conversation_of (lead_id lead) userId db2 = Some conv2
       /\ conv_id conv2 = conv_id conv1
       /\ length (rows (conversations db2)) = length (rows (conversations db1))
       /\ unread = default 0 (conversation_of (lead_id lead) userId db
                               ≫= conv_unreadCount) + 1
       /\ conv_unreadCount conv1 = Some unread
       /\ conv_unreadCount conv2 = Some (unread + 1).
Proof.
  intros Hacc db1 db2.
  destruct (handle_run now1 userId message db jid Hacc)
    as (lead1 & conv1 & msg1 & Hl1 & Hlc1 & Hc1 & Hcc1 & Hm1 & Hmc1 & _ & Hmt1 & Hmi1 & _).
  destruct (handle_run now2 userId message db1 jid Hacc)
    as (lead2 & conv2 & msg2 & Hl2 & Hlc2 & Hc2 & Hcc2 & Hm2 & Hmc2 & _ & Hmt2 & Hmi2 & _).
  fold db1 in Hl1, Hlc1, Hc1, Hcc1, Hm1. fold db2 in Hl2, Hlc2, Hc2, Hcc2, Hm2.
  rewrite Hl1 in Hlc2. destruct Hlc2 as [-> Hlen2]. cbn in Hc2, Hcc2.
  rewrite Hc1 in Hcc2. destruct Hcc2 as (Hid & Hclen & Hun2).
  assert (conv_unreadCount conv1
          = Some (default 0 (conversation_of (lead_id lead1) userId db
                              ≫= conv_unreadCount) + 1)) as Hun1.
  { destruct (conversation_of (lead_id lead1) userId db); cbn.
    - by destruct Hcc1 as (_ & _ & ->).
    - by destruct Hcc1 as (_ & ->). }
  split.
  { destruct (lead_by_phone (phone_of jid) db).
    - destruct Hlc1 as [_ ->]. lia.
    - destruct Hlc1 as [-> _]. rewrite length_app. cbn. lia. }
  split; [done|]. split.
  { exists msg1, msg2. rewrite Hm2, Hm1, <- app_assoc. cbn.
    split; [done|]. split; [done|]. split; [done|]. split; [done|].
    split; [done|]. congruence. }
  eexists lead1, conv1, conv2, _.
  rewrite Hun1 in Hun2. cbn [default] in Hun2.
  split; [done|]. split; [done|]. split; [done|]. split; [done|]. split; [done|].
  split; [reflexivity|]. done.
Qed.

Lemma handleIncomingMessage_twice_witness :
  accepted hola = Some "595981000111@s.whatsapp.net"
  /\ let db1 := handleIncomingMessage 1000 7 hola Db.empty in
     let db2 := handleIncomingMessage 1060 7 hola db1 in
     (length (rows (leads db1)) <= length (rows (leads Db.empty)) + 1)%nat
     /\ length (rows (leads db2)) = length (rows (leads db1))
     /\ (exists m1 m2,
           rows (chatMessages db2) = rows (chatMessages Db.empty) ++ [m1; m2]
           /\ msg_whatsappMessageId m1 = key_id hola
           /\ msg_whatsappMessageId m2 = key_id hola
           /\ msg_content m1 = text_of hola
           /\ msg_content m2 = text_of hola
           /\ msg_conversationId m2 = msg_conversationId m1)
     /\ exists lead conv1 conv2 unread,
          lead_by_phone (phone_of "595981000111@s.whatsapp.net") db1 = Some lead
          /\ conversation_of (lead_id lead) 7 db1 = Some conv1
          /\ conversation_of (lead_id lead) 7 db2 = Some conv2
          /\ conv_id conv2 = conv_id conv1
          /\ length (rows (conversations db2)) = length (rows (conversations db1))
          /\ unread = default 0 (conversation_of (lead_id lead) 7 Db.empty
                                  ≫= conv_unreadCount) + 1
          /\ conv_unreadCount conv1 = Some unread
          /\ conv_unreadCount conv2 = Some (unread + 1).
Proof.
  split; [reflexivity|].
  exact (handleIncomingMessage_twice 1000 1060 7 hola Db.empty
           "595981000111@s.whatsapp.net" eq_refl).
Defined.

End Inbound.

(** ** campaigns.launch *)

Section Launch.
Import Db Campaigns Spec Sample.

(** What the query layer throws for a violated unique key is the same
    throughout a run. *)
Variable dup : SqlError.

Lemma existsb_same_pair campaignId leadId db :
  existsb (same_pair campaignId leadId) (rows (campaignRecipients db)) = true
  <-> (campaignId, leadId) ∈ recipient_pairs db.
Proof.
  unfold recipient_pairs. rewrite existsb_exists, list_elem_of_fmap.
  unfold same_pair. split.
  - intros (r & Hin & Hr). apply andb_true_iff in Hr as [H1 H2].
    apply bool_decide_eq_true_1 in H1, H2. exists r.
    rewrite <- list_elem_of_In in Hin. split; [congruence | done].
  - intros (r & Heq & Hin). exists r. rewrite <- list_elem_of_In.
    split; [done|]. injection Heq as -> ->.
    by rewrite !bool_decide_eq_true_2.
Qed.

(** What one insert statement can do to the store. *)
Lemma insert_recipient_inr fault campaignId leadId db db' :
  insert_recipient dup fault campaignId leadId db = inr db' ->
  fault = None
  /\ ((campaignId, leadId) ∉ recipient_pairs db)
  /\ recipient_pairs db' = recipient_pairs db ++ [(campaignId, leadId)]
  /\ campaigns db' = campaigns db /\ leads db' = leads db.
Proof.
  unfold insert_recipient. destruct fault; [done|].
  destruct (existsb _ _) eqn:He; [done|]. intros [= <-].
  split; [done|]. split.
  - rewrite <- existsb_same_pair. congruence.
  - unfold recipient_pairs. cbn. by rewrite map_app.
Qed.

Lemma insert_recipient_inl campaignId leadId db err :
  insert_recipient dup None campaignId leadId db = inl err ->
  err = dup /\ (campaignId, leadId) ∈ recipient_pairs db.
Proof.
  unfold insert_recipient. destruct (existsb _ _) eqn:He; [|done].
  intros [= <-]. split; [done|]. by apply existsb_same_pair.
Qed.

Lemma insert_recipient_fresh campaignId leadId db :
  (campaignId, leadId) ∉ recipient_pairs db ->
  exists db', insert_recipient dup None campaignId leadId db = inr db'.
Proof.
  intros Hnew. unfold insert_recipient.
  destruct (existsb _ _) eqn:He; [|by eexists].
  by apply existsb_same_pair in He.
Qed.

(** The loop only ever appends recipient rows, of this campaign and of
    leads of the audience, and touches no other table. *)
Lemma create_recipients_appends faults campaignId audience n db :
  exists added,
    recipient_pairs (create_recipients dup faults campaignId audience n db).1
    = recipient_pairs db ++ added
    /\ Forall (fun p => (p.1 = campaignId) /\ (p ∉ recipient_pairs db)) added
    /\ NoDup added
    /\ campaigns (create_recipients dup faults campaignId audience n db).1 = campaigns db
    /\ leads (create_recipients dup faults campaignId audience n db).1 = leads db.
Proof.
  revert n db. induction audience as [|lead rest IH]; intros n db; cbn.
  { exists []. rewrite app_nil_r.
    split; [done|]. split; [constructor|]. split; [constructor|done]. }
  destruct (insert_recipient _ _ _ _ db) as [err|db'] eqn:Hins.
  - destruct (is_duplicate err); [apply IH|].
    exists []. cbn. rewrite app_nil_r.
    split; [done|]. split; [constructor|]. split; [constructor|done].
  - apply insert_recipient_inr in Hins as (_ & Hnew & Hpairs & Hc & Hl).
    destruct (IH (S n) db') as (added & Heq & Hall & Hnd & Hc' & Hl').
    exists ((campaignId, lead_id lead) :: added).
    rewrite Heq, Hpairs, <- app_assoc. cbn. split; [done|].
    rewrite Hpairs in Hall. split; [|split; [|split; congruence]].
    + constructor; [done|]. eapply Forall_impl; [exact Hall|].
      cbn. intros p [Hp Hnin]. split; [done|].
      intros Hin. apply Hnin, elem_of_app. by left.
    + constructor; [|done]. rewrite Forall_forall in Hall.
      intros Hin. destruct (Hall _ Hin) as [_ Hnin].
      apply Hnin, elem_of_app. right. constructor.
Qed.

Lemma create_recipients_NoDup faults campaignId audience n db :
  NoDup (recipient_pairs db) ->
  NoDup (recipient_pairs (create_recipients dup faults campaignId audience n db).1).
Proof.
  intros Hnd.
  destruct (create_recipients_appends faults campaignId audience n db)
    as (added & -> & Hall & Hadd & _).
  apply NoDup_app. split; [done|]. split; [|done].
  intros p Hp Hin. rewrite Forall_forall in Hall. by destruct (Hall _ Hin).
Qed.

(** When every error that occurs is one the catch clause recognises, the
    loop runs to its end: the injected ones are, and the one of the unique
    key either is or does not occur. *)
Lemma create_recipients_completes faults campaignId audience n db :
  Forall (fun l => forall e, faults (lead_id l) = Some e -> is_duplicate e = true)
    audience ->
  is_duplicate dup = true \/ fresh_audience campaignId audience db ->
  exists inserted,
    (create_recipients dup faults campaignId audience n db).2 = inr inserted.
Proof.
  intros Hall. revert n db.
  induction Hall as [|lead rest Hlead _ IH]; intros n db Hkey; cbn; [by eexists|].
  assert (is_duplicate dup = true \/ fresh_audience campaignId rest db) as Hrest.
  { destruct Hkey as [Hd|[Hnd Hfr]]; [by left|right].
    inversion Hnd; subst. inversion Hfr; subst. by split. }
  destruct (faults (lead_id lead)) as [e|] eqn:Hf.
  { cbn. rewrite (Hlead e eq_refl). by apply IH. }
  destruct (insert_recipient dup None _ _ db) as [err|db'] eqn:Hins.
  - apply insert_recipient_inl in Hins as [-> Hin].
    destruct Hkey as [Hd|[_ Hfr]]; [rewrite Hd; by apply IH|].
    inversion Hfr; subst. done.
  - apply IH. destruct Hkey as [Hd|[Hnd Hfr]]; [by left|right].
    apply insert_recipient_inr in Hins as (_ & _ & Hpairs & _).
    inversion Hnd as [|? ? Hnin Hnd']; subst.
    inversion Hfr as [|? ? _ Hfr']; subst.
    split; [done|]. rewrite Forall_forall in Hfr'. apply Forall_forall.
    intros l Hl. rewrite Hpairs, elem_of_app, list_elem_of_singleton.
    intros [Hin|[= Heq]]; [by apply (Hfr' l)|].
    apply Hnin. rewrite <- Heq. apply list_elem_of_fmap. by exists l.
Qed.

(** Every lead the loop got past has a recipient row. *)
Lemma create_recipients_covers faults campaignId audience n db inserted :
  (create_recipients dup faults campaignId audience n db).2 = inr inserted ->
  Forall (fun l => faults (lead_id l) = None) audience ->
  Forall (fun l => (campaignId, lead_id l)
                   ∈ recipient_pairs (create_recipients dup faults campaignId audience n db).1)
    audience.
Proof.
  revert n db. induction audience as [|lead rest IH]; intros n db; cbn; [constructor|].
  intros Hres Hall. inversion Hall as [|? ? Hlead Hrest]; subst.
  revert Hres. rewrite Hlead.
  destruct (insert_recipient dup None _ _ db) as [err|db'] eqn:Hins; intros Hres.
  - apply insert_recipient_inl in Hins as [-> Hin].
    destruct (is_duplicate dup); [|done].
    constructor; [|by apply IH].
    destruct (create_recipients_appends faults campaignId rest n db)
      as (added & -> & _). apply elem_of_app. by left.
  - apply insert_recipient_inr in Hins as (_ & _ & Hpairs & _).
    constructor; [|by apply IH].
    destruct (create_recipients_appends faults campaignId rest (S n) db')
      as (added & -> & _). rewrite Hpairs, !elem_of_app.
    left. right. constructor.
Qed.

Lemma create_recipients_app faults campaignId pre rest n db :
  create_recipients dup faults campaignId (pre ++ rest) n db =
  match create_recipients dup faults campaignId pre n db with
  | (db', inr n') => create_recipients dup faults campaignId rest n' db'
  | (db', inl err) => (db', inl err)
  end.
Proof.
  revert n db. induction pre as [|lead pre IH]; intros n db; cbn; [done|].
  destruct (insert_recipient _ _ _ _ db) as [err|db']; [|apply IH].
  destruct (is_duplicate err); [apply IH | done].
Qed.

Lemma launch_draft now faults campaignId db c :
  campaign_by_id campaignId db = Some c ->
  camp_status c = "draft" ->
  audience_of c db <> [] ->
  launch dup now faults campaignId db =
  match create_recipients dup faults campaignId (audience_of c db) 0 db with
  | (db', inl err) => (db', inl (Sql err))
  | (db', inr insertedCount) =>
      (set_campaigns
         (map (fun c' => if bool_decide (camp_id c' = campaignId)
                         then schedule now (length (audience_of c db)) c' else c')
            (campaigns db')) db',
       inr (Launched (length (audience_of c db)) insertedCount))
  end.
Proof.
  intros Hc Hs Ha. unfold launch. rewrite Hc, Hs.
  rewrite (bool_decide_eq_false_2 ("draft" = "scheduled")) by done.
  rewrite (bool_decide_eq_false_2 ("draft" = "running")) by done.
  rewrite (bool_decide_eq_true_2 ("draft" = "draft")) by done. cbn.
  rewrite bool_decide_eq_false_2; [done|]. by rewrite length_zero_iff_nil.
Qed.


(** The update of a launch that got through the loop leaves the campaign
    scheduled. *)
Lemma campaign_by_id_schedule now n campaignId cs c :
  find (fun c' => bool_decide (camp_id c' = campaignId)) cs = Some c ->
  find (fun c' => bool_decide (camp_id c' = campaignId))
    (map (fun c' => if bool_decide (camp_id c' = campaignId)
                    then schedule now n c' else c') cs)
  = Some (schedule now n c).
Proof.
  intros Hc. apply find_some_elem in Hc as Hc'. destruct Hc' as [_ Hid].
  induction cs as [|x l IH]; [done|].
  cbn in *. destruct (bool_decide (camp_id x = campaignId)) eqn:Hx.
  - injection Hc as ->. cbn. by rewrite Hid.
  - rewrite Hx. by apply IH.
Qed.


(** C7: when the insert for one lead of the audience fails with an error
    that is not a duplicate, the launch throws that error; the recipient
    rows of the leads before it are in the table and stay there, the store
    being exactly what the loop had made of it so far, and the campaigns
    table is untouched, so the campaign is still a draft.  The leads
    before the failing one get past their inserts: the error of the unique
    key is one the catch clause recognises, or none of them meets a
    recipient row. *)
Theorem launch_not_atomic now faults campaignId db c pre lead post e :
  campaign_by_id campaignId db = Some c ->
  camp_status c = "draft" ->
  audience_of c db = pre ++ lead :: post ->
  Forall (fun l => faults (lead_id l) = None) pre ->
  faults (lead_id lead) = Some e ->
  is_duplicate e = false ->
  is_duplicate dup = true \/ fresh_audience campaignId pre db ->
  (launch dup now faults campaignId db).2 = inl (Sql e)
  /\ (launch dup now faults campaignId db).1
     = (create_recipients dup faults campaignId pre 0 db).1
  /\ Forall (fun l => (campaignId, lead_id l)
                      ∈ recipient_pairs (launch dup now faults campaignId db).1) pre
  /\ (exists added,
        recipient_pairs (launch dup now faults campaignId db).1
        = recipient_pairs db ++ added)
  /\ campaigns (launch dup now faults campaignId db).1 = campaigns db
  /\ campaign_by_id campaignId (launch dup now faults campaignId db).1 = Some c.
Proof.
  intros Hc Hs Ha Hpre Hlead Hdup Hkey.
  assert (audience_of c db <> []) as Hne by (rewrite Ha; by destruct pre).
  rewrite (launch_draft _ _ _ _ c) by done.
  rewrite Ha, create_recipients_app.
  destruct (create_recipients_completes faults campaignId pre 0%nat db) as [n Hres];
    [|done|].
  { eapply Forall_impl; [exact Hpre|]. cbn. intros l Hl e'. congruence. }
  pose proof (create_recipients_covers faults campaignId pre 0%nat db n Hres Hpre) as Hcov.
  destruct (create_recipients_appends faults campaignId pre 0%nat db)
    as (added & Heq & _ & _ & Hcs & _).
  destruct (create_recipients dup faults campaignId pre 0 db) as [db' r].
  cbn in Hres, Hcov, Heq, Hcs. subst r. cbn.
  rewrite Hlead. cbn. rewrite Hdup. cbn.
  split; [done|]. split; [done|]. split; [done|].
  split; [by exists added|]. split; [done|].
  unfold campaign_by_id in *. by rewrite Hcs.
Qed.

End Launch.

Section LaunchExamples.
Import Db Campaigns Spec Sample.



Lemma launch_not_atomic_witness :
  (launch wrapped_dup 1000 fail_on_luis 1 store_two_leads).2 = inl (Sql connection_lost)
  /\ recipient_pairs (launch wrapped_dup 1000 fail_on_luis 1 store_two_leads).1 = [(1, 1)]
  /\ campaign_by_id 1 (launch wrapped_dup 1000 fail_on_luis 1 store_two_leads).1
     = Some draft1.
Proof.
  destruct (launch_not_atomic wrapped_dup 1000 fail_on_luis 1 store_two_leads draft1
              [lead_ana] lead_luis [] connection_lost)
    as (Hres & _ & _ & _ & _ & Hc).
  - reflexivity.
  - reflexivity.
  - reflexivity.
  - repeat constructor.
  - reflexivity.
  - reflexivity.
  - right. split.
    + cbn. apply NoDup_singleton.
    + constructor; [|constructor]. cbn. apply not_elem_of_nil.
  - split; [exact Hres|]. split; [reflexivity | exact Hc].
Defined.

End LaunchExamples.

(** ** The settings singleton *)

Section Settings.
Import Db AppSettings.

Lemma latest_None l : latest l = None <-> l = [].
Proof.
  destruct l as [|r l]; cbn; [done|].
  split; [|done]. destruct (latest l); [case_bool_decide|]; done.
Qed.

Lemma latest_elem l r : latest l = Some r -> r ∈ l.
Proof.
  revert r. induction l as [|x l IH]; intros r; cbn; [done|].
  destruct (latest l) as [m|].
  - case_bool_decide; intros [= <-]; [right; by apply IH | left].
  - intros [= <-]. left.
Qed.

(** getOrCreateAppSettings leaves a table with rows alone and puts the
    default row into an empty one; it always has a row to return. *)
Lemma getOrCreateAppSettings_rows db :
  rows (appSettings (getOrCreateAppSettings db).1) =
  match rows (appSettings db) with
  | [] => [defaults (next_id (appSettings db))]
  | _ => rows (appSettings db)
  end
  /\ is_Some (getOrCreateAppSettings db).2.
Proof.
  unfold getOrCreateAppSettings.
  destruct (latest (rows (appSettings db))) as [row|] eqn:Hl.
  - cbn. split; [|by eexists].
    destruct (rows (appSettings db)) eqn:Hr; [cbn in Hl; discriminate|]. reflexivity.
  - apply latest_None in Hl. cbn. rewrite Hl. cbn. split; [done|by eexists].
Qed.

Lemma getOrCreateAppSettings_nonempty db :
  rows (appSettings db) <> [] -> (getOrCreateAppSettings db).1 = db.
Proof.
  intros Hne. unfold getOrCreateAppSettings.
  destruct (latest (rows (appSettings db))) eqn:Hl; [done|].
  by apply latest_None in Hl.
Qed.

(** A patch without a defined value changes no row. *)
Lemma apply_patch_nothing patch r :
  size (defined patch) = 0%nat -> apply_patch patch r = r.
Proof.
  intros Hsize. apply map_size_empty_iff in Hsize.
  unfold apply_patch. rewrite Hsize, (left_id_L ∅ (∪)). by destruct r.
Qed.

(** updateAppSettings patches, in place, rows of the table that
    getOrCreateAppSettings left: no row is added or removed and no id
    changes. *)
Lemma updateAppSettings_rows patch db :
  exists id,
    rows (appSettings (updateAppSettings patch db).1) =
    map (fun r => if bool_decide (as_id r = id) then apply_patch patch r else r)
      (rows (appSettings (getOrCreateAppSettings db).1)).
Proof.
  unfold updateAppSettings.
  destruct (getOrCreateAppSettings_rows db) as [_ [row Hrow]].
  destruct (getOrCreateAppSettings db) as [db1 r]. cbn in Hrow. subst r.
  exists (as_id row). case_bool_decide as Hsize; [|done]. cbn.
  rewrite <- (map_id (rows (appSettings db1))) at 1. apply map_ext.
  intros r. rewrite apply_patch_nothing by done. by case_bool_decide.
Qed.

Lemma call_length c db :
  (length (rows (appSettings db)) <= 1)%nat ->
  (length (rows (appSettings (call c db))) <= 1)%nat.
Proof.
  intros Hle.
  assert (length (rows (appSettings (getOrCreateAppSettings db).1)) <= 1)%nat as Hg.
  { destruct (getOrCreateAppSettings_rows db) as [-> _].
    by destruct (rows (appSettings db)). }
  destruct c as [|patch]; cbn; [done|].
  destruct (updateAppSettings_rows patch db) as [id ->]. by rewrite length_map.
Qed.

Lemma run_length calls db :
  (length (rows (appSettings db)) <= 1)%nat ->
  (length (rows (appSettings (run calls db))) <= 1)%nat.
Proof.
  revert db. induction calls as [|c calls IH]; intros db Hle; cbn; [done|].
  by apply IH, call_length.
Qed.

(** C8: from a store without a settings row, any run of
    getOrCreateAppSettings and updateAppSettings calls leaves at most one
    settings row.  getOrCreateAppSettings changes nothing when a row
    exists and inserts one row when none does; updateAppSettings keeps the
    rows and ids of a non-empty table and only overwrites patched
    columns. *)
Theorem app_settings_singleton calls db :
  rows (appSettings db) = [] ->
  (length (rows (appSettings (run calls db))) <= 1)%nat
  /\ length (rows (appSettings (getOrCreateAppSettings db).1)) = 1%nat
  /\ (forall db', rows (appSettings db') <> [] ->
        (getOrCreateAppSettings db').1 = db')
  /\ (forall patch db', rows (appSettings db') <> [] ->
        exists id,
          rows (appSettings (updateAppSettings patch db').1) =
          map (fun r => if bool_decide (as_id r = id) then apply_patch patch r else r)
            (rows (appSettings db'))).
Proof.
  intros Hempty. split; [|split; [|split]].
  - apply run_length. rewrite Hempty. cbn. lia.
  - destruct (getOrCreateAppSettings_rows db) as [-> _]. by rewrite Hempty.
  - apply getOrCreateAppSettings_nonempty.
  - intros patch db' Hne. destruct (updateAppSettings_rows patch db') as [id Hid].
    exists id. by rewrite Hid, getOrCreateAppSettings_nonempty.
Qed.

Lemma app_settings_singleton_witness :
  rows (appSettings Db.empty) = []
  /\ (length (rows (appSettings
                      (run [Update {[ "currency" := JS.VStr "USD" ]}; GetOrCreate;
                            Update {[ "language" := JS.VStr "en" ]}] Db.empty)))
      <= 1)%nat.
Proof.
  split; [reflexivity|].
  exact (proj1 (app_settings_singleton
                  [Update {[ "currency" := JS.VStr "USD" ]}; GetOrCreate;
                   Update {[ "language" := JS.VStr "en" ]}] Db.empty eq_refl)).
Defined.

End Settings.

(** ** Reconnecting a session *)

Section Reconnect.
Import Baileys Sample.

Lemma qr_step_actions userId update w :
  InitializeSession userId ∉ (qr_step userId update w).2.
Proof.
  unfold qr_step. destruct (update_qr update) as [q|]; [|by apply not_elem_of_nil].
  destruct (JS.str_truthy q); [|by apply not_elem_of_nil]. cbn.
  rewrite !not_elem_of_cons. split; [done|]. split; [done|]. apply not_elem_of_nil.
Qed.

Lemma on_connection_update_split userId update w :
  on_connection_update userId update w =
  ((connection_step userId update (qr_step userId update w).1).1,
   (qr_step userId update w).2
   ++ (connection_step userId update (qr_step userId update w).1).2).
Proof.
  unfold on_connection_update. destruct (qr_step userId update w) as [w1 a1].
  cbn. by destruct (connection_step userId update w1).
Qed.

(** C4 (as stated) fails: on a close event whose reason is a logout, the
    session is not started again; its directory is removed instead. *)
Lemma close_after_logout_no_reconnect :
  connection logged_out_close = Some conn_close
  /\ (InitializeSession 7 ∉ (on_connection_update 7 logged_out_close world7).2)
  /\ (on_connection_update 7 logged_out_close world7).2
     = [OnStatusUpdate disconnected; RmSession 7].
Proof.
  split; [reflexivity|].
  assert ((on_connection_update 7 logged_out_close world7).2
          = [OnStatusUpdate disconnected; RmSession 7]) as H by (vm_compute; reflexivity).
  split; [|exact H]. rewrite H.
  rewrite !not_elem_of_cons. split; [done|]. split; [done|]. apply not_elem_of_nil.
Qed.

(** C4 (as amended): the handler starts the session again exactly on a
    close event whose status code is not the logged-out one (a close
    without status code included); it does so at once, right after
    reporting the disconnect, with no delay and no count of attempts.
    After a logout it does not reconnect and the session directory is
    gone. *)
Theorem reconnect_unless_logged_out userId update w :
  (InitializeSession userId ∈ (on_connection_update userId update w).2
   <-> connection update = Some conn_close
       /\ lastDisconnect_statusCode update <> Some loggedOut)
  /\ (connection update = Some conn_close ->
      lastDisconnect_statusCode update <> Some loggedOut ->
      (connection_step userId update (qr_step userId update w).1).2
      = [OnStatusUpdate disconnected; InitializeSession userId])
  /\ (connection update = Some conn_close ->
      lastDisconnect_statusCode update = Some loggedOut ->
      userId ∉ sessions (on_connection_update userId update w).1).
Proof.
  rewrite on_connection_update_split. cbn [fst snd].
  pose proof (qr_step_actions userId update w) as Hqr.
  rewrite elem_of_app.
  set (w1 := (qr_step userId update w).1).
  unfold connection_step, shouldReconnect.
  destruct (connection update) as [[| |]|].
  - split; [|done]. split; [|by intros [? _]].
    intros [H|H]; [done|]. cbn in H.
    apply elem_of_cons in H as [H|H]; [done | by apply elem_of_nil in H].
  - split; [|done]. split; [|by intros [? _]].
    intros [H|H]; [done|]. by apply elem_of_nil in H.
  - case_bool_decide as Hcode; cbn [negb].
    + split; [|split; [done|]].
      * split; [|by intros [_ ?]]. intros [H|H]; [done|].
        case_bool_decide; cbn in H;
          repeat (apply elem_of_cons in H as [H|H]; [done|]);
          by apply elem_of_nil in H.
      * intros _ _. case_bool_decide as Hs; cbn; [|done].
        rewrite elem_of_difference, elem_of_singleton. by intros [_ ?].
    + split; [|done]. split; [done|]. intros _. right. cbn.
      apply elem_of_cons. right. apply elem_of_cons. by left.
  - split; [|done]. split; [|by intros [? _]].
    intros [H|H]; [done|]. by apply elem_of_nil in H.
Qed.

End Reconnect.

(** ** The handlers on the sample data *)

Section Examples.
Import JS Db Sample.

Example trim_spaces : trim "  owner	 " = "owner".
Proof. vm_compute. reflexivity. Qed.

Example trim_nbsp : trim (bytes [194; 160]%nat +:+ "a b" +:+ bytes [226; 128; 168]%nat) = "a b".
Proof. vm_compute. reflexivity. Qed.

Example commission_panama :
  Leads.commission "PANAMÁ" = "10000.00" /\ Leads.commission "Paraguay" = "5000.00".
Proof. split; vm_compute; reflexivity. Qed.

Example agent_cannot_become_admin :
  Rbac.computeEffectiveRole "agent" (Some "admin") {[ "admin" := ["*"] ]} = "agent".
Proof. vm_compute. reflexivity. Qed.

Example admin_takes_custom_role :
  Rbac.computeEffectiveRole "admin" (Some " sales ") {[ "sales" := ["leads.*"] ]} = "sales".
Proof. vm_compute. reflexivity. Qed.

Example agent_keeps_base_role :
  Rbac.computeEffectiveRole "agent" (Some "sales") {[ "sales" := ["leads.*"] ]} = "agent".
Proof. vm_compute. reflexivity. Qed.

Example unknown_role_falls_back :
  SecurityHelpers.getEffectiveRole "agent" (Some "sales") ∅ = "agent".
Proof. vm_compute. reflexivity. Qed.

(** The new lead of an inbound message goes to stage 11 with order 5. *)
Example inbound_lead_in_first_stage :
  map (fun l => (lead_id l, lead_phone l, lead_pipelineStageId l, lead_kanbanOrder l))
    (rows (leads (MessageHandler.handleIncomingMessage 1000 7 hola store_pipeline)))
  = [ (1, "+595961444555", Some 11, Some 4);
      (2, "+595981000111", Some 11, Some 5) ].
Proof. vm_compute. reflexivity. Qed.

Example inbound_twice_unread :
  map (fun c => (conv_id c, conv_leadId c, conv_unreadCount c))
    (rows (conversations
             (MessageHandler.handleIncomingMessage 1060 7 hola
                (MessageHandler.handleIncomingMessage 1000 7 hola store_pipeline))))
  = [ (1, Some 2, Some 2) ].
Proof. vm_compute. reflexivity. Qed.

Example group_message_ignored :
  MessageHandler.handleIncomingMessage 1000 7 group_hola store_pipeline = store_pipeline.
Proof. reflexivity. Qed.

Example create_uses_first_stage :
  (Leads.create (Some 3) input_luis store_pipeline).2
  = {| Leads.res_id := 2; Leads.res_success := true; Leads.res_existed := None |}
  /\ map (fun l => (lead_id l, lead_pipelineStageId l, lead_kanbanOrder l, lead_value l))
       (rows (leads (Leads.create (Some 3) input_luis store_pipeline).1))
     = [ (1, Some 11, Some 4, Some "0.00"); (2, Some 11, Some 5, Some "150") ].
Proof. split; vm_compute; reflexivity. Qed.

Example launch_two_leads :
  (Campaigns.launch Campaigns.dup_entry 1000 (fun _ => None) 1 store_two_leads).2
  = inr (Campaigns.Launched 2 2).
Proof. vm_compute. reflexivity. Qed.

End Examples.

(** * Properties of the other handlers *)

(** ** The leads router *)

Section LeadsRouterFacts.
Import Db Leads LeadsRouter Spec SpecX Sample SampleX.

Lemma find_update_where {A} (id : A -> Z) (f : A -> A) (k : Z) (l : list A) :
  (forall r, id (f r) = id r) ->
  find (fun r => bool_decide (id r = k))
    (map (fun r => if bool_decide (id r = k) then f r else r) l)
  = f <$> find (fun r => bool_decide (id r = k)) l.
Proof.
  intros Hid. induction l as [|x l IH]; cbn; [done|].
  destruct (bool_decide (id x = k)) eqn:Hx; cbn.
  - by rewrite Hid, Hx.
  - by rewrite Hx.
Qed.

(** X1: whichever branch leads.create takes, a lookup by the input phone
    afterwards finds a lead with the returned id. *)
Theorem leads_create_then_lookup user input db :
  exists l,
    lead_by_phone (in_phone input) (create user input db).1 = Some l
    /\ lead_id l = res_id (create user input db).2
    /\ lead_phone l = in_phone input.
Proof.
  unfold create. destruct (lead_by_phone (in_phone input) db) as [l|] eqn:Hf; cbn.
  - exists l. split; [done|]. split; [done|].
    apply find_some_elem in Hf as [_ Hp]. by apply bool_decide_eq_true_1 in Hp.
  - eexists.
    split; [unfold lead_by_phone in *; cbn; rewrite find_snoc, Hf; cbn;
            by rewrite bool_decide_eq_true_2|].
    split; reflexivity.
Qed.

Lemma next_kanbanOrder_above stageId db l k :
  l ∈ rows (leads db) ->
  lead_pipelineStageId l = Some stageId ->
  lead_kanbanOrder l = Some k ->
  k < next_kanbanOrder stageId db.
Proof.
  intros Hin Hs Hk. unfold next_kanbanOrder.
  assert (k ∈ omap lead_kanbanOrder
            (filter (fun l => bool_decide (lead_pipelineStageId l = Some stageId))
               (rows (leads db)))) as Hmem.
  { apply list_elem_of_omap. exists l. split; [|done].
    apply list_elem_of_filter. split; [|done]. by apply bool_decide_pack. }
  unfold max_kanbanOrder.
  pose proof (sql_max_spec (omap lead_kanbanOrder
            (filter (fun l => bool_decide (lead_pipelineStageId l = Some stageId))
               (rows (leads db))))) as H.
  destruct (sql_max _) as [m|].
  - destruct H as [_ Hall]. rewrite Forall_forall in Hall.
    specialize (Hall k Hmem). cbn. lia.
  - rewrite H in Hmem. by apply elem_of_nil in Hmem.
Qed.

(** X2: updateStatus puts the lead into the given stage behind every other
    lead of that stage (its kanban order is above all of theirs) and
    changes no other lead. *)
Theorem updateStatus_moves_to_end id stageId db l :
  getById id db = Some l ->
  exists moved,
    getById id (updateStatus id stageId db) = Some moved
    /\ moved = set_stage_order stageId (lead_kanbanOrder moved) l
    /\ (forall other k,
          other ∈ rows (leads (updateStatus id stageId db)) ->
          lead_id other <> id ->
          lead_pipelineStageId other = Some stageId ->
          lead_kanbanOrder other = Some k ->
          exists n, lead_kanbanOrder moved = Some n /\ k < n)
    /\ (forall other,
          lead_id other <> id ->
          other ∈ rows (leads (updateStatus id stageId db))
          <-> other ∈ rows (leads db)).
Proof.
  intros Hget. unfold getById, updateStatus in *. cbn.
  assert (forall other, lead_id other <> id ->
            other ∈ map (fun r => if bool_decide (lead_id r = id)
                                  then set_stage_order stageId
                                         (Some (next_kanbanOrder stageId db)) r
                                  else r) (rows (leads db))
            <-> other ∈ rows (leads db)) as Hothers.
  { intros other Hne. rewrite list_elem_of_fmap. split.
    - intros (r & -> & Hr). case_bool_decide as Hid; [|done].
      cbn in Hne. congruence.
    - intros Hin. exists other. by rewrite bool_decide_eq_false_2. }
  exists (set_stage_order stageId (Some (next_kanbanOrder stageId db)) l).
  split; [|split; [done|split; [|done]]].
  - rewrite (find_update_where lead_id) by done. by rewrite Hget.
  - intros other k Hin Hne Hs Hk. eexists. split; [reflexivity|].
    apply Hothers in Hin; [|done]. by eapply next_kanbanOrder_above.
Qed.

Lemma updateStatus_moves_to_end_witness :
  getById 1 store_kanban = Some lead_marta
  /\ exists moved,
      getById 1 (updateStatus 1 10 store_kanban) = Some moved
      /\ moved = set_stage_order 10 (lead_kanbanOrder moved) lead_marta
      /\ (forall other k,
            other ∈ rows (leads (updateStatus 1 10 store_kanban)) ->
            lead_id other <> 1 ->
            lead_pipelineStageId other = Some 10 ->
            lead_kanbanOrder other = Some k ->
            exists n, lead_kanbanOrder moved = Some n /\ k < n)
      /\ (forall other,
            lead_id other <> 1 ->
            other ∈ rows (leads (updateStatus 1 10 store_kanban))
            <-> other ∈ rows (leads store_kanban)).
Proof.
  split; [reflexivity|].
  exact (updateStatus_moves_to_end 1 10 store_kanban lead_marta eq_refl).
Defined.

Lemma case_when_lookup ids n i id :
  NoDup ids -> ids !! i = Some id -> case_when ids n id = Some (n + Z.of_nat i).
Proof.
  revert n i. induction ids as [|x ids IH]; intros n i Hnd Hi; [done|].
  inversion Hnd as [|? ? Hx Hnd']; subst. cbn.
  destruct i as [|i]; cbn in Hi.
  - injection Hi as ->. rewrite bool_decide_eq_true_2 by done. f_equal. lia.
  - rewrite bool_decide_eq_false_2.
    + rewrite (IH (n + 1) i) by done. f_equal. lia.
    + intros ->. apply Hx. by eapply list_elem_of_lookup_2.
Qed.

(** X3: for a list of distinct, non-zero lead ids, reorderKanban puts the
    lead named at position i (from 0) into the given stage with kanban
    order i + 1, leaves every lead that is not named as it was, and
    reports the number of ids. *)
Theorem reorderKanban_positions stageId ids db :
  NoDup ids ->
  0 ∉ ids ->
  (reorderKanban stageId ids db).2 = length ids
  /\ (forall i id l,
        ids !! i = Some id -> l ∈ rows (leads db) -> lead_id l = id ->
        set_stage_order stageId (Some (Z.of_nat i + 1)) l
        ∈ rows (leads (reorderKanban stageId ids db).1))
  /\ (forall l,
        lead_id l ∉ ids ->
        l ∈ rows (leads (reorderKanban stageId ids db).1) <-> l ∈ rows (leads db))
  /\ length (rows (leads (reorderKanban stageId ids db).1))
     = length (rows (leads db)).
Proof.
  intros Hnd Hzero.
  assert (filter (fun id => id <> 0) ids = ids) as Hf.
  { clear Hnd. induction ids as [|x ids IH]; [done|].
    rewrite not_elem_of_cons in Hzero. destruct Hzero as [Hx Hz].
    rewrite filter_cons_True by done. by rewrite IH. }
  unfold reorderKanban. rewrite Hf.
  case_bool_decide as Hlen.
  { apply length_zero_iff_nil in Hlen. subst ids. cbn.
    split; [done|]. split; [by intros i id l Hi|]. done. }
  cbn. split; [done|]. split; [|split; [|by rewrite length_map]].
  - intros i id l Hi Hin Hid. apply list_elem_of_fmap. exists l. split; [|done].
    rewrite bool_decide_eq_true_2.
    + rewrite Hid, (case_when_lookup ids 1 i id) by done. do 2 f_equal. lia.
    + rewrite Hid. by eapply list_elem_of_lookup_2.
  - intros l Hl. rewrite list_elem_of_fmap. split.
    + intros (r & -> & Hr). case_bool_decide as Hid; [|done].
      cbn in Hl. done.
    + intros Hin. exists l. by rewrite bool_decide_eq_false_2.
Qed.

Lemma reorderKanban_positions_witness :
  NoDup [3; 1] /\ (0 ∉ [3; 1])
  /\ (reorderKanban 10 [3; 1] store_kanban).2 = 2%nat
  /\ map (fun l => (lead_id l, lead_pipelineStageId l, lead_kanbanOrder l))
       (rows (leads (reorderKanban 10 [3; 1] store_kanban).1))
     = [ (1, Some 10, Some 2); (2, Some 10, Some 1); (3, Some 10, Some 1) ].
Proof.
  assert (NoDup [3; 1]) as Hnd.
  { apply NoDup_cons. split; [|apply NoDup_singleton].
    rewrite elem_of_cons, elem_of_nil. intros [?|[]]. done. }
  assert (0 ∉ [3; 1]) as Hz.
  { rewrite !not_elem_of_cons. split; [done|]. split; [done|]. apply not_elem_of_nil. }
  split; [exact Hnd|]. split; [exact Hz|].
  split; [exact (proj1 (reorderKanban_positions 10 [3; 1] store_kanban Hnd Hz))|].
  vm_compute. reflexivity.
Defined.

Section Sorting.
Context {A : Type} (leb : A -> A -> bool).
Hypothesis leb_total : forall a b, leb a b = false -> leb b a = true.
Hypothesis leb_trans : forall a b c, leb a b = true -> leb b c = true -> leb a c = true.

Lemma insert_by_perm x l : insert_by leb x l ≡ₚ x :: l.
Proof.
  induction l as [|y l IH]; cbn; [done|].
  destruct (leb x y); [done|]. rewrite IH. apply Permutation_swap.
Qed.

Lemma sort_by_perm l : sort_by leb l ≡ₚ l.
Proof.
  induction l as [|x l IH]; cbn; [done|].
  fold (sort_by leb l). by rewrite insert_by_perm, IH.
Qed.

Lemma insert_by_sorted x l :
  StronglySorted (fun a b => leb a b = true) l ->
  StronglySorted (fun a b => leb a b = true) (insert_by leb x l).
Proof.
  induction 1 as [|y l Hs IH Hy]; cbn.
  - constructor; constructor.
  - destruct (leb x y) eqn:Hxy.
    + constructor; [by constructor|]. constructor; [done|].
      eapply Forall_impl; [exact Hy|]. cbn. intros z Hz. by eapply leb_trans.
    + constructor; [done|].
      rewrite insert_by_perm. constructor; [by apply leb_total | done].
Qed.

Lemma sort_by_sorted l : StronglySorted (fun a b => leb a b = true) (sort_by leb l).
Proof.
  induction l as [|x l IH]; cbn; [constructor|]. by apply insert_by_sorted.
Qed.

End Sorting.

Lemma lead_leb_total a b : lead_leb a b = false -> lead_leb b a = true.
Proof.
  unfold lead_leb. repeat case_bool_decide; intros; try done; lia.
Qed.

Lemma lead_leb_trans a b c :
  lead_leb a b = true -> lead_leb b c = true -> lead_leb a c = true.
Proof.
  unfold lead_leb. repeat case_bool_decide; intros; try done; lia.
Qed.

Lemma init_buckets stages (r : gmap Z (list Lead)) k :
  fold_left (fun r s => <[stage_id s := []]> r) stages r !! k
  = if bool_decide (k ∈ map stage_id stages) then Some [] else r !! k.
Proof.
  revert r. induction stages as [|s stages IH]; intros r; cbn; [done|].
  rewrite IH. destruct (bool_decide (k ∈ map stage_id stages)) eqn:Hk.
  - apply bool_decide_eq_true_1 in Hk.
    rewrite bool_decide_eq_true_2; [done | by right].
  - apply bool_decide_eq_false_1 in Hk.
    destruct (decide (k = stage_id s)) as [->|Hne].
    + rewrite lookup_insert_eq. rewrite bool_decide_eq_true_2; [done | by left].
    + rewrite lookup_insert_ne by done. rewrite bool_decide_eq_false_2; [done|].
      rewrite not_elem_of_cons. done.
Qed.

Lemma push_leads ls (r : gmap Z (list Lead)) k :
  fold_left push_lead ls r !! k
  = (fun arr => arr ++ filter (of_stage k) ls) <$> r !! k.
Proof.
  revert r. induction ls as [|l ls IH]; intros r.
  { cbn. destruct (r !! k); cbn; [by rewrite app_nil_r | done]. }
  cbn [fold_left]. rewrite IH.
  destruct (decide (of_stage k l)) as [[Hs Hk0]|Hn].
  - rewrite filter_cons_True by done. unfold push_lead. rewrite Hs.
    rewrite bool_decide_eq_false_2 by done.
    destruct (r !! k) as [arr|] eqn:Hr; cbn.
    + rewrite lookup_insert_eq. cbn. by rewrite <- app_assoc.
    + by rewrite Hr.
  - rewrite filter_cons_False by done. f_equal. unfold push_lead.
    unfold of_stage in Hn.
    destruct (lead_pipelineStageId l) as [j|]; [|done].
    case_bool_decide as Hz; [done|].
    destruct (r !! j) as [arr|]; [|done].
    rewrite lookup_insert_ne; [done|]. intros ->. by apply Hn.
Qed.

Lemma sort_buckets stages (r : gmap Z (list Lead)) k :
  match r !! k with
  | None => fold_left sort_bucket stages r !! k = None
  | Some arr =>
      exists bucket,
        fold_left sort_bucket stages r !! k = Some bucket
        /\ bucket ≡ₚ arr
        /\ (k ∈ map stage_id stages \/ bucket = arr)
        /\ (k ∈ map stage_id stages ->
            StronglySorted (fun a b => lead_leb a b = true) bucket)
  end.
Proof.
  revert r. induction stages as [|s stages IH]; intros r.
  { cbn. destruct (r !! k) as [arr|]; [|done].
    exists arr. split; [done|]. split; [done|]. split; [by right|].
    intros H. by apply elem_of_nil in H. }
  cbn [fold_left]. specialize (IH (sort_bucket r s)).
  unfold sort_bucket in *.
  destruct (decide (k = stage_id s)) as [->|Hne].
  - destruct (r !! stage_id s) as [arr|] eqn:Hr; [|by rewrite Hr in IH].
    rewrite lookup_insert_eq in IH.
    destruct IH as (bucket & Hb & Hperm & Hcase & Hsorted).
    exists bucket. split; [done|]. split.
    { by rewrite Hperm, (sort_by_perm lead_leb). }
    split; [left; by left|]. intros _.
    destruct Hcase as [Hin | ->]; [by apply Hsorted|].
    apply sort_by_sorted; [apply lead_leb_total | apply lead_leb_trans].
  - assert ((match r !! stage_id s with
             | Some arr => <[stage_id s := sort_by lead_leb arr]> r
             | None => r
             end) !! k = r !! k) as Hsame.
    { destruct (r !! stage_id s); [by rewrite lookup_insert_ne | done]. }
    rewrite Hsame in IH. destruct (r !! k) as [arr|]; [|done].
    destruct IH as (bucket & Hb & Hperm & Hcase & Hsorted).
    exists bucket. split; [done|]. split; [done|]. split.
    + destruct Hcase as [Hin | ->]; [left; by right | by right].
    + intros Hin. apply Hsorted. apply elem_of_cons in Hin as [?|?]; done.
Qed.

(** X4: getByPipeline answers with one bucket per stage of the selected
    pipeline and nothing else; the bucket of a stage holds exactly the
    leads of that stage, ordered by kanban order and, among equal orders,
    newest first. *)
Theorem getByPipeline_buckets pipelineId db pipeline :
  select_pipeline pipelineId db = Some pipeline ->
  forall k,
    if bool_decide (k ∈ map stage_id
                      (filter (fun s => stage_pipelineId s = pipeline_id pipeline)
                         (pipelineStages db)))
    then exists bucket,
        getByPipeline pipelineId db !! k = Some bucket
        /\ bucket ≡ₚ filter (of_stage k) (rows (leads db))
        /\ StronglySorted (fun a b => lead_leb a b = true) bucket
    else getByPipeline pipelineId db !! k = None.
Proof.
  intros Hsel k. unfold getByPipeline. rewrite Hsel.
  set (stages := stages_of (pipeline_id pipeline) db).
  assert (forall j, j ∈ map stage_id stages
                    <-> j ∈ map stage_id
                          (filter (fun s => stage_pipelineId s = pipeline_id pipeline)
                             (pipelineStages db))) as Hids.
  { intros j. unfold stages, stages_of.
    by rewrite (sort_by_perm (fun a b => bool_decide (stage_order a <= stage_order b))). }
  set (filteredLeads := if bool_decide (length (map stage_id stages) = 0%nat)
                        then [] else sort_by _ _).
  pose proof (sort_buckets stages
                (fold_left push_lead filteredLeads
                   (fold_left (fun r s => <[stage_id s := []]> r) stages ∅)) k) as Hsort.
  rewrite push_leads, init_buckets in Hsort.
  destruct (decide (k ∈ map stage_id stages)) as [Hk|Hk].
  - rewrite bool_decide_eq_true_2 in Hsort by done.
    rewrite bool_decide_eq_true_2 by by apply Hids.
    cbn in Hsort. destruct Hsort as (bucket & Hb & Hperm & _ & Hsorted).
    exists bucket. split; [done|]. split; [|by apply Hsorted].
    rewrite Hperm. unfold filteredLeads.
    case_bool_decide as Hlen.
    { apply length_zero_iff_nil in Hlen.
      rewrite Hlen in Hk. by apply elem_of_nil in Hk. }
    rewrite (sort_by_perm _ (filter _ _)), list_filter_filter.
    erewrite list_filter_iff; [done|]. intros l. cbn. split; [by intros [? _]|].
    intros Hl. split; [done|]. unfold in_stages. destruct Hl as [-> _].
    by apply bool_decide_pack.
  - rewrite bool_decide_eq_false_2 in Hsort by done.
    rewrite bool_decide_eq_false_2 by (intros H; by apply Hk, Hids).
    by rewrite lookup_empty in Hsort.
Qed.

Lemma getByPipeline_buckets_witness :
  select_pipeline None store_kanban
  = Some {| pipeline_id := 2; pipeline_isDefault := true |}
  /\ map lead_id <$> getByPipeline None store_kanban !! 11 = Some [3; 1]
  /\ map lead_id <$> getByPipeline None store_kanban !! 10 = Some [2]
  /\ getByPipeline None store_kanban !! 12 = None.
Proof.
  split; [reflexivity|].
  pose proof (getByPipeline_buckets None store_kanban
                {| pipeline_id := 2; pipeline_isDefault := true |} eq_refl 12) as H12.
  split; [vm_compute; reflexivity|]. split; [vm_compute; reflexivity|].
  exact H12.
Defined.

End LeadsRouterFacts.

(** ** Lead intake *)

Section IntakeFacts.
Import Db Leads MessageHandler Spec SpecX Sample SampleX.

Lemma filter_map_length {A} (P : A -> Prop) `{!forall x, Decision (P x)}
    (f : A -> A) (l : list A) :
  (forall x, P (f x) <-> P x) ->
  length (filter P (map f l)) = length (filter P l).
Proof.
  intros Hf. induction l as [|x l IH]; [done|]. cbn [map].
  destruct (decide (P x)) as [Hx|Hx].
  - rewrite !filter_cons_True by (done || by apply Hf). cbn. by rewrite IH.
  - rewrite !filter_cons_False; [done | done |]. by rewrite Hf.
Qed.

Lemma handle_phone_count now userId message db phone :
  (phone_count phone (handleIncomingMessage now userId message db)
   <= Nat.max 1 (phone_count phone db))%nat.
Proof.
  unfold handleIncomingMessage. destruct (accepted message) as [jid|]; [|lia].
  destruct (find_or_create_lead now (contact_of message) (phone_of jid) db)
    as [db1 leadId] eqn:Hl.
  destruct (find_or_create_conversation now userId leadId (contact_of message)
              (phone_of jid) db1) as [db2 convId] eqn:Hc.
  assert (leads db2 = leads db1) as Hsame.
  { pose proof (conv_step now userId leadId (contact_of message) (phone_of jid) db1) as H.
    rewrite Hc in H. by destruct H as [? _]. }
  unfold phone_count, insert_message. cbn. rewrite Hsame.
  unfold find_or_create_lead in Hl.
  destruct (lead_by_phone (phone_of jid) db) as [l|] eqn:Hf.
  - injection Hl as <- <-. cbn.
    rewrite filter_map_length; [lia|].
    intros x. by destruct (bool_decide (lead_id x = lead_id l)).
  - destruct (default_stage_and_order db) as [stageId nextOrder].
    injection Hl as <- <-. cbn.
    apply lead_by_phone_None in Hf. unfold phone_count in Hf.
    rewrite filter_snoc_length. cbn.
    case_bool_decide as Hp; [|lia]. subst phone. lia.
Qed.

(** X5: whatever mix of leads.create calls and inbound messages comes in,
    a store in which no phone number belongs to two leads stays that
    way. *)
Theorem intake_keeps_phones_unique steps db :
  phones_unique db ->
  phones_unique (fold_left (fun d i => intake i d) steps db).
Proof.
  revert db. induction steps as [|i steps IH]; intros db Hu; cbn; [done|].
  apply IH. intros phone. specialize (Hu phone).
  destruct i as [user input|now userId message]; cbn.
  - pose proof (create_phone_count user input db phone). lia.
  - pose proof (handle_phone_count now userId message db phone). lia.
Qed.

Lemma intake_keeps_phones_unique_witness :
  phones_unique Db.empty
  /\ phones_unique
       (fold_left (fun d i => intake i d)
          [ByMessage 1000 7 hola; ByForm (Some 3) input_ana; ByMessage 1060 7 hola]
          Db.empty).
Proof.
  assert (phones_unique Db.empty) as H by (intros phone; cbn; lia).
  split; [exact H|].
  exact (intake_keeps_phones_unique
           [ByMessage 1000 7 hola; ByForm (Some 3) input_ana; ByMessage 1060 7 hola]
           Db.empty H).
Defined.

End IntakeFacts.

(** ** More on campaigns.launch *)

Section LaunchFacts.
Import Db Campaigns CampaignsRouter Spec SpecX Sample SampleX.

Lemma launch_cases dup now faults campaignId db :
  (launch dup now faults campaignId db).1 = db
  /\ (forall total inserted,
        (launch dup now faults campaignId db).2 <> inr (Launched total inserted))
  /\ (forall e, (launch dup now faults campaignId db).2 <> inl (Sql e))
  \/ exists c,
       campaign_by_id campaignId db = Some c
       /\ camp_status c = "draft"
       /\ audience_of c db <> []
       /\ launch dup now faults campaignId db =
          match create_recipients dup faults campaignId (audience_of c db) 0 db with
          | (db', inl err) => (db', inl (Sql err))
          | (db', inr insertedCount) =>
              (set_campaigns
                 (map (fun c' => if bool_decide (camp_id c' = campaignId)
                                 then schedule now (length (audience_of c db)) c'
                                 else c')
                    (campaigns db')) db',
               inr (Launched (length (audience_of c db)) insertedCount))
          end.
Proof.
  destruct (campaign_by_id campaignId db) as [c|] eqn:Hc.
  2: { left. unfold launch. rewrite Hc. done. }
  destruct (decide (camp_status c = "draft")) as [Hs|Hs].
  - destruct (decide (audience_of c db = [])) as [Ha|Ha].
    + left. unfold launch. rewrite Hc, Hs.
      rewrite (bool_decide_eq_false_2 ("draft" = "scheduled")) by done.
      rewrite (bool_decide_eq_false_2 ("draft" = "running")) by done.
      rewrite (bool_decide_eq_true_2 ("draft" = "draft")) by done. cbn.
      rewrite bool_decide_eq_true_2 by by rewrite Ha. done.
    + right. exists c. split; [done|]. split; [done|]. split; [done|].
      by apply launch_draft.
  - left. unfold launch. rewrite Hc.
    destruct (_ || _); [done|].
    rewrite (bool_decide_eq_false_2 (camp_status c = "draft")) by done. done.
Qed.

(** X6: a launch changes the store only if it finds a draft campaign with a
    non-empty audience; a missing campaign, a campaign in any other status
    and an empty audience leave every table as it was. *)
Theorem launch_changes_only_drafts dup now faults campaignId db :
  (launch dup now faults campaignId db).1 <> db -> launchable campaignId db.
Proof.
  intros Hne.
  destruct (launch_cases dup now faults campaignId db)
    as [[Hsame _] | (c & Hc & Hs & Ha & _)]; [done|].
  by exists c.
Qed.

Lemma launch_changes_only_drafts_witness :
  (launch wrapped_dup 1000 (fun _ => None) 1 store_two_leads).1 <> store_two_leads
  /\ launchable 1 store_two_leads.
Proof.
  assert ((launch wrapped_dup 1000 (fun _ => None) 1 store_two_leads).1 <> store_two_leads) as H.
  { intros Heq. apply (f_equal (fun d => length (rows (campaignRecipients d)))) in Heq.
    vm_compute in Heq. discriminate. }
  split; [exact H|].
  exact (launch_changes_only_drafts wrapped_dup 1000 (fun _ => None) 1 store_two_leads H).
Defined.

(** X7: once a launch has returned normally, launching the same campaign
    again, whenever and with whatever luck, changes nothing and answers
    that the campaign was already launched, with the recipient count of
    the first launch. *)
Theorem launch_twice dup now faults dup' now' faults' campaignId db total inserted :
  (launch dup now faults campaignId db).2 = inr (Launched total inserted) ->
  launch dup' now' faults' campaignId (launch dup now faults campaignId db).1
  = ((launch dup now faults campaignId db).1, inr (AlreadyLaunched (Z.of_nat total))).
Proof.
  intros Hres.
  destruct (launch_cases dup now faults campaignId db)
    as [(_ & Hno & _) | (c & Hc & Hs & Ha & Heq)]; [by destruct (Hno total inserted)|].
  rewrite Heq in *.
  destruct (create_recipients_appends dup faults campaignId (audience_of c db) 0%nat db)
    as (_ & _ & _ & _ & Hcs & _).
  destruct (create_recipients _ _ _ _ _ _) as [db' [err|n]]; [done|].
  cbn in Hres, Hcs. injection Hres as <- <-. cbn [fst].
  unfold launch at 1. unfold campaign_by_id in *. cbn [campaigns set_campaigns].
  rewrite Hcs, (campaign_by_id_schedule _ _ _ _ c) by done. cbn.
  rewrite (bool_decide_eq_true_2 ("scheduled" = "scheduled")) by done. done.
Qed.

Lemma launch_twice_witness :
  (launch wrapped_dup 1000 (fun _ => None) 1 store_two_leads).2 = inr (Launched 2 2)
  /\ launch dup_entry 2000 fail_on_luis 1 (launch wrapped_dup 1000 (fun _ => None) 1 store_two_leads).1
     = ((launch wrapped_dup 1000 (fun _ => None) 1 store_two_leads).1, inr (AlreadyLaunched 2)).
Proof.
  split; [reflexivity|].
  exact (launch_twice wrapped_dup 1000 (fun _ => None) dup_entry 2000 fail_on_luis 1 store_two_leads 2 2 eq_refl).
Defined.

Lemma create_recipients_count dup faults campaignId audience n db m :
  (create_recipients dup faults campaignId audience n db).2 = inr m ->
  (n <= m)%nat
  /\ length (recipient_pairs (create_recipients dup faults campaignId audience n db).1)
     = (length (recipient_pairs db) + (m - n))%nat
  /\ (m - n <= length audience)%nat.
Proof.
  revert n db. induction audience as [|lead rest IH]; intros n db; cbn.
  { intros [= <-]. lia. }
  destruct (insert_recipient _ _ _ _ db) as [err|db'] eqn:Hins.
  - destruct (is_duplicate err); [|done]. intros Hres.
    destruct (IH n db Hres) as (? & ? & ?). lia.
  - intros Hres. apply insert_recipient_inr in Hins as (_ & _ & Hp & _).
    destruct (IH (S n) db' Hres) as (? & Hlen & ?).
    rewrite Hlen, Hp, length_app. cbn. lia.
Qed.

(** X8: when no insert fails for a reason of its own, a launch that
    returns normally, whatever error the unique key answers with, leaves a
    recipient row for every lead of the audience; the count it reports is
    the size of the audience, which is what calculateAudience gives for
    the campaign's stage filter, and [inserted] is the number of rows it
    added, never more than that count. *)
Theorem launch_covers_audience dup now campaignId db c tags total inserted :
  campaign_by_id campaignId db = Some c ->
  (launch dup now (fun _ => None) campaignId db).2 = inr (Launched total inserted) ->
  Forall (fun l => (campaignId, lead_id l)
                   ∈ recipient_pairs (launch dup now (fun _ => None) campaignId db).1)
    (audience_of c db)
  /\ Z.of_nat total = calculateAudience (camp_audienceStage c) tags db
  /\ length (recipient_pairs (launch dup now (fun _ => None) campaignId db).1)
     = (length (recipient_pairs db) + inserted)%nat
  /\ (inserted <= total)%nat.
Proof.
  intros Hc Hres.
  destruct (launch_cases dup now (fun _ => None) campaignId db)
    as [(_ & Hno & _) | (c' & Hc' & Hs & Ha & Heq)]; [by destruct (Hno total inserted)|].
  rewrite Hc in Hc'. injection Hc' as <-. rewrite Heq in *.
  pose proof (create_recipients_covers dup (fun _ => None) campaignId (audience_of c db)
                0%nat db) as Hcov.
  pose proof (create_recipients_count dup (fun _ => None) campaignId (audience_of c db)
                0%nat db) as Hcount.
  destruct (create_recipients _ _ _ _ _ _) as [db' [err|n]]; [done|].
  cbn in Hres, Hcov, Hcount. injection Hres as <- <-. cbn [fst].
  specialize (Hcov n eq_refl). specialize (Hcount n eq_refl).
  split.
  { apply Hcov. apply Forall_forall. done. }
  split.
  { unfold calculateAudience, audience_of.
    destruct (Leads.stage_truthy (camp_audienceStage c)); done. }
  change (recipient_pairs (set_campaigns _ db')) with (recipient_pairs db').
  destruct Hcount as (_ & -> & ?). split; f_equal; lia.
Qed.

Lemma launch_covers_audience_witness :
  campaign_by_id 1 store_two_leads = Some draft1
  /\ (launch wrapped_dup 1000 (fun _ => None) 1 store_two_leads).2 = inr (Launched 2 2)
  /\ Forall (fun l => (1, lead_id l)
                      ∈ recipient_pairs
                          (launch wrapped_dup 1000 (fun _ => None) 1 store_two_leads).1)
       [lead_ana; lead_luis]
  /\ length (recipient_pairs (launch wrapped_dup 1000 (fun _ => None) 1 store_two_leads).1)
     = (length (recipient_pairs store_two_leads) + 2)%nat.
Proof.
  split; [reflexivity|]. split; [reflexivity|].
  destruct (launch_covers_audience wrapped_dup 1000 1 store_two_leads draft1 None
              2%nat 2%nat eq_refl eq_refl) as (Hcov & _ & Hlen & _).
  split; [exact Hcov | exact Hlen].
Defined.

End LaunchFacts.

(** ** The Baileys service *)

Section BaileysFacts.
Import Db Baileys BaileysService MessageHandler Spec SpecX Sample SampleX.

Lemma includes_char c d s :
  JS.includes (String d s) (String c EmptyString)
  = bool_decide (d = c) || JS.includes s (String c EmptyString).
Proof.
  change (JS.includes (String d s) (String c EmptyString))
    with (String.prefix (String c EmptyString) (String d s)
          || JS.includes s (String c EmptyString)).
  f_equal. cbn [String.prefix]. destruct (ascii_dec c d) as [->|Hne].
  - rewrite bool_decide_eq_true_2 by done. by destruct s.
  - rewrite bool_decide_eq_false_2 by congruence. done.
Qed.

Lemma includes_char_nil c : JS.includes EmptyString (String c EmptyString) = false.
Proof. done. Qed.

Lemma append_nil (s : string) : EmptyString +:+ s = s.
Proof. reflexivity. Qed.

Lemma append_cons x (d s : string) : String x d +:+ s = String x (d +:+ s).
Proof. reflexivity. Qed.

Lemma before_app c d rest :
  JS.includes d (String c EmptyString) = false ->
  JS.before c (d +:+ String c rest) = d.
Proof.
  induction d as [|x d IH]; intros Hd.
  - rewrite append_nil. cbn [JS.before]. by rewrite bool_decide_eq_true_2.
  - rewrite includes_char in Hd. apply orb_false_iff in Hd as [Hx Hd].
    rewrite append_cons. cbn [JS.before]. rewrite Hx. by rewrite IH.
Qed.

(** X9: the phone number the inbound handler derives from a direct-chat
    JID and the JID sendMessage derives from a phone number are inverse to
    each other: "+d" goes to "d@s.whatsapp.net" and back, for every d
    without "@" (and, from the JID side, without "+"). *)
Theorem jid_phone_round_trip d :
  JS.includes d "@" = false ->
  jid_of ("+" +:+ d) = d +:+ "@s.whatsapp.net"
  /\ phone_of (jid_of ("+" +:+ d)) = "+" +:+ d
  /\ jid_of (phone_of (d +:+ "@s.whatsapp.net")) = d +:+ "@s.whatsapp.net".
Proof.
  intros Hd.
  assert (jid_of ("+" +:+ d) = d +:+ "@s.whatsapp.net") as Hjid.
  { unfold jid_of. rewrite append_cons, append_nil, includes_char, Hd.
    rewrite bool_decide_eq_false_2 by done. cbn [orb remove_first].
    by rewrite bool_decide_eq_true_2. }
  assert (phone_of (d +:+ "@s.whatsapp.net") = "+" +:+ d) as Hphone.
  { unfold phone_of. by rewrite (before_app "@" d "s.whatsapp.net"). }
  split; [done|]. split; [by rewrite Hjid, Hphone | by rewrite Hphone, Hjid].
Qed.

Lemma jid_phone_round_trip_witness :
  JS.includes "595981000111" "@" = false
  /\ jid_of ("+" +:+ "595981000111") = "595981000111" +:+ "@s.whatsapp.net"
  /\ phone_of (jid_of ("+" +:+ "595981000111")) = "+" +:+ "595981000111"
  /\ jid_of (phone_of ("595981000111" +:+ "@s.whatsapp.net"))
     = "595981000111" +:+ "@s.whatsapp.net".
Proof.
  split; [reflexivity|]. exact (jid_phone_round_trip "595981000111" eq_refl).
Defined.

Lemma handle_message_rows now userId message db :
  length (rows (chatMessages (handleIncomingMessage now userId message db)))
  = (length (rows (chatMessages db))
     + if bool_decide (is_Some (accepted message)) then 1 else 0)%nat.
Proof.
  destruct (accepted message) as [jid|] eqn:Hacc.
  - destruct (handle_run now userId message db jid Hacc)
      as (lead & conv & msg & _ & _ & _ & _ & Hm & _).
    rewrite Hm, length_app. rewrite bool_decide_eq_true_2 by by eexists. done.
  - unfold handleIncomingMessage. rewrite Hacc.
    rewrite bool_decide_eq_false_2 by (by intros [? ?]). lia.
Qed.

Lemma own_message_not_accepted message :
  key_fromMe message = true -> accepted message = None.
Proof.
  intros H. unfold accepted. destruct (key_remoteJid message); [|done].
  rewrite H. by destruct (_ || _).
Qed.

(** X10: the messages.upsert listener stores one message row per message
    of the batch that passes the handler's guards (a JID that is neither a
    group nor the status broadcast, not sent by us), repeated deliveries
    included; the older listener does so for batches of type 'notify' and
    ignores every other batch. *)
Theorem messages_upsert_rows userId type messages db :
  length (rows (chatMessages (on_messages_upsert userId messages db)))
  = (length (rows (chatMessages db)) + accepted_count messages)%nat
  /\ length (rows (chatMessages (on_messages_upsert_notify userId type messages db)))
     = (length (rows (chatMessages db))
        + if bool_decide (type = "notify") then accepted_count messages else 0)%nat.
Proof.
  assert (forall d, length (rows (chatMessages (on_messages_upsert userId messages d)))
                    = (length (rows (chatMessages d)) + accepted_count messages)%nat) as H.
  { unfold on_messages_upsert, accepted_count.
    induction messages as [|[now m] ms IH]; intros d; cbn [fold_left]; [cbn; lia|].
    rewrite IH. cbn [fst snd].
    destruct (decide (is_Some (accepted m))) as [Hacc|Hacc].
    - rewrite filter_cons_True by done.
      destruct (key_fromMe m) eqn:Hme.
      { apply own_message_not_accepted in Hme. rewrite Hme in Hacc. by destruct Hacc. }
      rewrite handle_message_rows, bool_decide_eq_true_2 by done. cbn. lia.
    - rewrite filter_cons_False by done.
      destruct (key_fromMe m); [lia|].
      rewrite handle_message_rows, bool_decide_eq_false_2 by done. lia. }
  split; [apply H|]. unfold on_messages_upsert_notify.
  case_bool_decide; [apply H | lia].
Qed.

(** X11: a connection update touches the entry and the session directory
    of its own session only; a close leaves the status disconnected and no
    QR code, an open leaves it connected and no QR code; and the session
    directory survives every update except a close after a logout. *)
Theorem connection_update_effect userId update w :
  (forall other, other <> userId ->
     connections (on_connection_update userId update w).1 !! other
     = connections w !! other
     /\ (other ∈ sessions (on_connection_update userId update w).1
         <-> other ∈ sessions w))
  /\ (connection update = Some conn_close ->
      getStatus userId (on_connection_update userId update w).1 = disconnected
      /\ getQr userId (on_connection_update userId update w).1 = None)
  /\ (connection update = Some conn_open ->
      getStatus userId (on_connection_update userId update w).1 = connected
      /\ getQr userId (on_connection_update userId update w).1 = None)
  /\ (userId ∈ sessions w ->
      userId ∉ sessions (on_connection_update userId update w).1 ->
      connection update = Some conn_close
      /\ lastDisconnect_statusCode update = Some loggedOut).
Proof.
  rewrite on_connection_update_split. cbn [fst].
  assert (forall other, other <> userId ->
            connections (qr_step userId update w).1 !! other = connections w !! other)
    as Hqc.
  { intros other Hne. unfold qr_step. destruct (update_qr update) as [q|]; [|done].
    destruct (JS.str_truthy q); [|done]. cbn. by rewrite lookup_insert_ne. }
  assert (sessions (qr_step userId update w).1 = sessions w) as Hqs.
  { unfold qr_step. destruct (update_qr update) as [q|]; [|done].
    by destruct (JS.str_truthy q). }
  set (w1 := (qr_step userId update w).1) in *.
  unfold connection_step, shouldReconnect, getStatus, getQr.
  destruct (connection update) as [[| |]|]; cbn.
  - split; [|split; [done|split; [intros _; by rewrite lookup_insert_eq|]]].
    + intros other Hne. rewrite lookup_insert_ne by done. rewrite Hqs. by split; [apply Hqc|].
    + rewrite Hqs. done.
  - split; [|split; [done|split; [done|]]].
    + intros other Hne. rewrite Hqs. by split; [apply Hqc|].
    + rewrite Hqs. done.
  - case_bool_decide as Hcode; cbn.
    + case_bool_decide as Hs; cbn.
      * split; [|split; [intros _; by rewrite lookup_insert_eq|split; [done|done]]].
        intros other Hne. rewrite lookup_insert_ne by done. split; [by apply Hqc|].
        rewrite elem_of_difference, elem_of_singleton, Hqs.
        split; [by intros [? _] | done].
      * split; [|split; [intros _; by rewrite lookup_insert_eq|split; [done|done]]].
        intros other Hne. rewrite lookup_insert_ne by done. rewrite Hqs.
        by split; [apply Hqc|].
    + split; [|split; [intros _; by rewrite lookup_insert_eq|split; [done|]]].
      * intros other Hne. rewrite lookup_insert_ne by done. rewrite Hqs.
        by split; [apply Hqc|].
      * rewrite Hqs. done.
  - split; [|split; [done|split; [done|]]].
    + intros other Hne. rewrite Hqs. by split; [apply Hqc|].
    + rewrite Hqs. done.
Qed.

(** X12: disconnect only acts on a session that still has its socket.
    When the listener has handled a close event the entry has none: a
    disconnect that comes before anything else does nothing and cleans up
    no session directory.  Unless the close reports a logout, the listener
    has started initializeSession again; once that call has registered its
    new socket the status is connecting, and a disconnect ends the new
    socket, drops the entry (status disconnected, no QR code) and removes
    the session directory.  After a logout nothing is started again and
    the listener itself has removed the directory.  After any update
    other than a close the old socket is still recorded, and disconnect
    ends it, drops the entry and removes the session directory. *)
Theorem disconnect_after_update userId update w sock :
  connections w !! userId ≫= socket = Some sock ->
  let w' := (on_connection_update userId update w).1 in
  match connection update with
  | Some conn_close =>
      disconnect userId w' = (w', None)
      /\ (if shouldReconnect update
          then InitializeSession userId ∈ (on_connection_update userId update w).2
               /\ forall sock',
                    let w2 := (initializeSession userId sock' w').1 in
                    getStatus userId w2 = connecting
                    /\ userId ∈ sessions w2
                    /\ (disconnect userId w2).2 = Some sock'
                    /\ getStatus userId (disconnect userId w2).1 = disconnected
                    /\ getQr userId (disconnect userId w2).1 = None
                    /\ (userId ∉ sessions (disconnect userId w2).1)
          else (InitializeSession userId ∉ (on_connection_update userId update w).2)
               /\ (userId ∉ sessions w'))
  | _ => (disconnect userId w').2 = Some sock
         /\ getStatus userId (disconnect userId w').1 = disconnected
         /\ getQr userId (disconnect userId w').1 = None
         /\ (userId ∉ sessions (disconnect userId w').1)
  end.
Proof.
  intros Hsock w'. unfold w'. rewrite on_connection_update_split. cbn [fst snd].
  assert (connections (qr_step userId update w).1 !! userId ≫= socket = Some sock)
    as Hq.
  { unfold qr_step. destruct (update_qr update) as [q|]; [|done].
    destruct (JS.str_truthy q); [|done]. cbn. by rewrite lookup_insert_eq. }
  assert (InitializeSession userId ∉ (qr_step userId update w).2) as Hqa.
  { unfold qr_step. destruct (update_qr update) as [q|]; [|by apply not_elem_of_nil].
    destruct (JS.str_truthy q); [|by apply not_elem_of_nil].
    cbn. rewrite !not_elem_of_cons. split; [done|]. split; [done|].
    apply not_elem_of_nil. }
  set (w1 := (qr_step userId update w).1) in *.
  set (a1 := (qr_step userId update w).2) in *.
  assert (forall w2 s, connections w2 !! userId ≫= socket = Some s ->
            (disconnect userId w2).2 = Some s
            /\ getStatus userId (disconnect userId w2).1 = disconnected
            /\ getQr userId (disconnect userId w2).1 = None
            /\ (userId ∉ sessions (disconnect userId w2).1)) as Hlive.
  { intros w2 s H2. unfold disconnect, getStatus, getQr. rewrite H2. cbn.
    rewrite lookup_delete_eq. split; [done|]. split; [done|]. split; [done|].
    rewrite elem_of_difference, elem_of_singleton. by intros [_ ?]. }
  unfold connection_step.
  destruct (connection update) as [[| |]|].
  - apply Hlive. cbn. by rewrite lookup_insert_eq.
  - by apply Hlive.
  - assert (forall w2, connections w2 !! userId ≫= socket = None ->
              disconnect userId w2 = (w2, None)) as Hdead.
    { intros w2 H2. unfold disconnect. by rewrite H2. }
    destruct (shouldReconnect update).
    + split; [apply Hdead; cbn; by rewrite lookup_insert_eq|]. split.
      * cbn. rewrite elem_of_app, !elem_of_cons. right. right. by left.
      * intros sock'. cbn zeta. unfold initializeSession. cbn [fst].
        split; [unfold getStatus; cbn; by rewrite lookup_insert_eq|].
        split; [cbn; apply elem_of_union; left; by apply elem_of_singleton|].
        apply Hlive. cbn. by rewrite lookup_insert_eq.
    + case_bool_decide as Hdir.
      * split; [apply Hdead; cbn; by rewrite lookup_insert_eq|]. split.
        -- cbn. rewrite elem_of_app, !elem_of_cons, elem_of_nil.
           intros [?|[?|[?|?]]]; done.
        -- cbn. rewrite elem_of_difference, elem_of_singleton. by intros [_ ?].
      * split; [apply Hdead; cbn; by rewrite lookup_insert_eq|]. split.
        -- cbn. rewrite elem_of_app, !elem_of_cons, elem_of_nil.
           intros [?|[?|?]]; done.
        -- done.
  - by apply Hlive.
Qed.

Lemma disconnect_after_update_witness :
  connections world_live !! 7 ≫= socket = Some 41
  /\ disconnect 7 (on_connection_update 7 timed_out_close world_live).1
     = ((on_connection_update 7 timed_out_close world_live).1, None)
  /\ (disconnect 7 (initializeSession 7 43
                      (on_connection_update 7 timed_out_close world_live).1).1).2
     = Some 43
  /\ (7 ∉ sessions
            (disconnect 7 (initializeSession 7 43
                             (on_connection_update 7 timed_out_close world_live).1).1).1).
Proof.
  split; [reflexivity|].
  destruct (disconnect_after_update 7 timed_out_close world_live 41 eq_refl)
    as (Hnone & _ & Hre).
  split; [exact Hnone|].
  destruct (Hre 43) as (_ & _ & Hsock & _ & _ & Hdir).
  split; [exact Hsock | exact Hdir].
Defined.

End BaileysFacts.

(** ** Saving settings *)

Section SettingsFacts.
Import JS Db AppSettings SettingsRouter SecurityHelpers Spec SpecX Sample SampleX.

Lemma latest_map (g : AppSettingsRow -> AppSettingsRow) l :
  (forall r, as_id (g r) = as_id r) ->
  latest (map g l) = g <$> latest l.
Proof.
  intros Hg. induction l as [|r l IH]; cbn; [done|].
  rewrite IH. destruct (latest l) as [m|]; cbn; [|done].
  rewrite !Hg. by case_bool_decide.
Qed.

Lemma getOrCreateAppSettings_latest db :
  (getOrCreateAppSettings db).2
  = latest (rows (appSettings (getOrCreateAppSettings db).1))
  /\ is_Some (getOrCreateAppSettings db).2.
Proof.
  split; [|apply getOrCreateAppSettings_rows].
  unfold getOrCreateAppSettings.
  by destruct (latest (rows (appSettings db))) eqn:Hl.
Qed.

Lemma updateAppSettings_latest patch db :
  latest (rows (appSettings (updateAppSettings patch db).1))
  = apply_patch patch <$> latest (rows (appSettings (getOrCreateAppSettings db).1)).
Proof.
  destruct (getOrCreateAppSettings_latest db) as [Hl [row Hrow]].
  unfold updateAppSettings.
  destruct (getOrCreateAppSettings db) as [db1 r]. cbn in *.
  rewrite Hrow in Hl. rewrite Hrow. rewrite <- Hl.
  case_bool_decide as Hsize; cbn.
  { by rewrite apply_patch_nothing. }
  rewrite latest_map.
  - rewrite <- Hl. cbn. by rewrite bool_decide_eq_true_2.
  - intros r'. by case_bool_decide.
Qed.

Lemma defined_singleton col v :
  is_defined v = true -> defined {[ col := v ]} = {[ col := v ]}.
Proof. intros Hv. unfold defined. by rewrite map_filter_singleton_True. Qed.

(** What a read finds after a patch of one column. *)
Lemma stored_update col col' v db :
  is_defined v = true ->
  stored col (updateAppSettings {[ col' := v ]} db).1
  = if bool_decide (col = col') then Some v
    else stored col (getOrCreateAppSettings db).1.
Proof.
  intros Hv. unfold stored. rewrite updateAppSettings_latest.
  destruct (getOrCreateAppSettings_latest db) as [Hl [row Hrow]].
  rewrite <- Hl, Hrow. unfold apply_patch. cbn.
  rewrite defined_singleton by done.
  case_bool_decide as Hc.
  - subst col'. apply lookup_union_Some_l. by rewrite lookup_singleton_eq.
  - rewrite lookup_union_r; [done|]. by rewrite lookup_singleton_ne.
Qed.

Lemma config_stored col db :
  config col db
  = match stored col db with
    | Some v => if truthy v then spread v else ∅
    | None => ∅
    end.
Proof.
  unfold config, stored, column_or_empty.
  by destruct (latest (rows (appSettings db))).
Qed.

(** A column the default row leaves unset reads the same before and after
    getOrCreateAppSettings. *)
Lemma config_getOrCreate col db :
  as_cols (defaults 0) !! col = None ->
  config col (getOrCreateAppSettings db).1 = config col db.
Proof.
  intros Hd. unfold config, getOrCreateAppSettings.
  destruct (latest (rows (appSettings db))) as [row|] eqn:Hl; cbn; [by rewrite Hl|].
  apply latest_None in Hl. rewrite Hl. cbn.
  unfold column_or_empty. cbn. cbn in Hd. by rewrite Hd.
Qed.

Lemma config_update col m db :
  config col (updateAppSettings {[ col := VObj m ]} db).1 = m.
Proof.
  by rewrite config_stored, stored_update, bool_decide_eq_true_2.
Qed.

Lemma prev_config col db :
  as_cols (defaults 0) !! col = None ->
  exists currentSettings,
    getOrCreateAppSettings db = ((getOrCreateAppSettings db).1, Some currentSettings)
    /\ column_or_empty currentSettings col = config col db.
Proof.
  intros Hd. destruct (getOrCreateAppSettings_latest db) as [Hl [row Hrow]].
  exists row. split.
  - destruct (getOrCreateAppSettings db) as [db1 r]. cbn in *. by rewrite Hrow.
  - rewrite <- (config_getOrCreate col db) by done.
    unfold config. by rewrite <- Hl, Hrow.
Qed.

Lemma trim_truthy p : str_truthy (trim p) = true -> str_truthy p = true.
Proof. destruct p; [vm_compute; discriminate | done]. Qed.

(** The SMTP object before the password is looked at. *)
Lemma smtp_next input old :
  let next :=
    set_optional "from" (VStr <$> smtp_from input)
      (<["user" := VStr (smtp_user input)]>
         (<["secure" := VBool (smtp_secure input)]>
            (<["port" := VNum (smtp_port input)]>
               (<["host" := VStr (smtp_host input)]> old)))) in
  next !! "host" = Some (VStr (smtp_host input))
  /\ next !! "port" = Some (VNum (smtp_port input))
  /\ next !! "secure" = Some (VBool (smtp_secure input))
  /\ next !! "user" = Some (VStr (smtp_user input))
  /\ next !! "from" = VStr <$> smtp_from input
  /\ forall k, k ∉ ["host"; "port"; "secure"; "user"; "from"] ->
               next !! k = old !! k.
Proof.
  cbn zeta. unfold set_optional.
  assert (forall k, k ∉ ["host"; "port"; "secure"; "user"; "from"] ->
            k <> "host" /\ k <> "port" /\ k <> "secure" /\ k <> "user" /\ k <> "from")
    as Hks.
  { intros k Hk. rewrite !not_elem_of_cons in Hk. tauto. }
  destruct (smtp_from input) as [f|]; cbn.
  - rewrite lookup_insert_eq.
    rewrite !(lookup_insert_ne _ "from") by done.
    rewrite !lookup_insert_eq.
    rewrite !(lookup_insert_ne _ "user") by done. rewrite !lookup_insert_eq.
    rewrite !(lookup_insert_ne _ "secure") by done. rewrite !lookup_insert_eq.
    rewrite !(lookup_insert_ne _ "port") by done. rewrite !lookup_insert_eq.
    repeat (split; [done|]). intros k Hk.
    destruct (Hks k Hk) as (? & ? & ? & ? & ?).
    by rewrite !lookup_insert_ne.
  - rewrite lookup_delete_eq.
    rewrite !(lookup_delete_ne _ "from") by done.
    rewrite !lookup_insert_eq.
    rewrite !(lookup_insert_ne _ "user") by done. rewrite !lookup_insert_eq.
    rewrite !(lookup_insert_ne _ "secure") by done. rewrite !lookup_insert_eq.
    rewrite !(lookup_insert_ne _ "port") by done. rewrite !lookup_insert_eq.
    repeat (split; [done|]). intros k Hk.
    destruct (Hks k Hk) as (? & ? & ? & ? & ?).
    by rewrite lookup_delete_ne, !lookup_insert_ne.
Qed.

(** updateSmtpConfig as one patch of the store getOrCreateAppSettings
    leaves. *)
Lemma updateSmtpConfig_patch encryptSecret input db :
  exists next,
    (next !! "host" = Some (VStr (smtp_host input))
     /\ next !! "port" = Some (VNum (smtp_port input))
     /\ next !! "secure" = Some (VBool (smtp_secure input))
     /\ next !! "user" = Some (VStr (smtp_user input))
     /\ next !! "from" = VStr <$> smtp_from input
     /\ forall k, k ∉ ["host"; "port"; "secure"; "user"; "from"] ->
                  next !! k = config "smtpConfig" db !! k)
    /\ let save o :=
         ((updateAppSettings {[ "smtpConfig" := VObj o ]}
             (getOrCreateAppSettings db).1).1, true) in
       updateSmtpConfig encryptSecret input db
       = match smtp_pass input with
         | None => save next
         | Some None => save (<["pass" := VNull]> next)
         | Some (Some p) =>
             if str_truthy (trim p)
             then match encryptSecret (trim p) with
                  | Some e => save (<["pass" := VStr e]> next)
                  | None => ((getOrCreateAppSettings db).1, false)
                  end
             else save next
         end.
Proof.
  unfold updateSmtpConfig.
  destruct (prev_config "smtpConfig" db eq_refl) as (cur & -> & ->).
  eexists. split; [apply smtp_next|]. cbn zeta.
  destruct (smtp_pass input) as [[p|]|]; [|done|done].
  destruct (str_truthy (trim p)) eqn:Ht.
  - rewrite (trim_truthy p Ht). cbn [andb].
    by destruct (encryptSecret (trim p)).
  - by rewrite andb_false_r.
Qed.

Lemma not_smtp_key k :
  k ∉ ["host"; "port"; "secure"; "user"; "from"; "pass"] ->
  k <> "pass" /\ k ∉ ["host"; "port"; "secure"; "user"; "from"].
Proof. intros Hk. rewrite !not_elem_of_cons in *. tauto. Qed.

(** X13: what a read of the SMTP settings finds after updateSmtpConfig.
    Host, port, secure and user are the ones sent; "from" is the one sent
    and is dropped when none is sent; every other stored key stays.  The
    stored password stays when the request has no password or a blank one,
    becomes null for null, and becomes the encrypted trimmed password
    otherwise; if the encryption throws, nothing is saved. *)
Theorem updateSmtpConfig_merge encryptSecret input db :
  let old := config "smtpConfig" db in
  let r := updateSmtpConfig encryptSecret input db in
  let new := config "smtpConfig" r.1 in
  (r.2 = true ->
   new !! "host" = Some (VStr (smtp_host input))
   /\ new !! "port" = Some (VNum (smtp_port input))
   /\ new !! "secure" = Some (VBool (smtp_secure input))
   /\ new !! "user" = Some (VStr (smtp_user input))
   /\ new !! "from" = VStr <$> smtp_from input
   /\ forall k, k ∉ ["host"; "port"; "secure"; "user"; "from"; "pass"] ->
                new !! k = old !! k)
  /\ match smtp_pass input with
     | None => r.2 = true /\ new !! "pass" = old !! "pass"
     | Some None => r.2 = true /\ new !! "pass" = Some VNull
     | Some (Some p) =>
         if str_truthy (trim p)
         then match encryptSecret (trim p) with
              | Some e => r.2 = true /\ new !! "pass" = Some (VStr e)
              | None => r = ((getOrCreateAppSettings db).1, false)
              end
         else r.2 = true /\ new !! "pass" = old !! "pass"
     end.
Proof.
  cbn zeta.
  destruct (updateSmtpConfig_patch encryptSecret input db)
    as (next & (Hh & Hp & Hs & Hu & Hf & Hrest) & ->). cbn zeta.
  set (old := config "smtpConfig" db) in *.
  assert (next !! "pass" = old !! "pass") as Hpass.
  { apply Hrest. rewrite !not_elem_of_cons. repeat split; try done. apply not_elem_of_nil. }
  assert (forall v,
            let new := config "smtpConfig"
                         (updateAppSettings {[ "smtpConfig" := VObj (<["pass" := v]> next) ]}
                            (getOrCreateAppSettings db).1).1 in
            new !! "host" = Some (VStr (smtp_host input))
            /\ new !! "port" = Some (VNum (smtp_port input))
            /\ new !! "secure" = Some (VBool (smtp_secure input))
            /\ new !! "user" = Some (VStr (smtp_user input))
            /\ new !! "from" = VStr <$> smtp_from input
            /\ (forall k, k ∉ ["host"; "port"; "secure"; "user"; "from"; "pass"] ->
                          new !! k = old !! k)
            /\ new !! "pass" = Some v) as Hset.
  { intros v. cbn zeta. rewrite config_update.
    rewrite !(lookup_insert_ne _ "pass") by done. rewrite lookup_insert_eq.
    repeat (split; [done|]). split; [|done].
    intros k Hk. destruct (not_smtp_key k Hk) as [? ?].
    rewrite lookup_insert_ne by done. by apply Hrest. }
  assert (let new := config "smtpConfig"
                       (updateAppSettings {[ "smtpConfig" := VObj next ]}
                          (getOrCreateAppSettings db).1).1 in
          new !! "host" = Some (VStr (smtp_host input))
          /\ new !! "port" = Some (VNum (smtp_port input))
          /\ new !! "secure" = Some (VBool (smtp_secure input))
          /\ new !! "user" = Some (VStr (smtp_user input))
          /\ new !! "from" = VStr <$> smtp_from input
          /\ (forall k, k ∉ ["host"; "port"; "secure"; "user"; "from"; "pass"] ->
                        new !! k = old !! k)
          /\ new !! "pass" = old !! "pass") as Hkeep.
  { cbn zeta. rewrite config_update.
    repeat (split; [done|]). split; [|done].
    intros k Hk. destruct (not_smtp_key k Hk) as [? ?]. by apply Hrest. }
  cbn zeta in Hset, Hkeep.
  destruct (smtp_pass input) as [[p|]|].
  - destruct (str_truthy (trim p)) eqn:Ht.
    + destruct (encryptSecret (trim p)) as [e|]; cbn [fst snd].
      * destruct (Hset (VStr e)) as (? & ? & ? & ? & ? & ? & ?). done.
      * done.
    + cbn [fst snd]. destruct Hkeep as (? & ? & ? & ? & ? & ? & ?). done.
  - cbn [fst snd]. destruct (Hset VNull) as (? & ? & ? & ? & ? & ? & ?). done.
  - cbn [fst snd]. destruct Hkeep as (? & ? & ? & ? & ? & ? & ?). done.
Qed.

Lemma row_object_lookup row k :
  k <> "id" -> k <> "singleton" -> row_object row !! k = as_cols row !! k.
Proof. intros. unfold row_object. by rewrite !lookup_insert_ne. Qed.

(** A read of the settings through the router, on a store with a row. *)
Lemma get_latest db row :
  latest (rows (appSettings db)) = Some row ->
  get db = (db, sanitizeAppSettings (Some (row_object row))).
Proof.
  intros Hl. unfold get, getOrCreateAppSettings. by rewrite Hl.
Qed.

(** X14: once a password has been saved through updateSmtpConfig (and
    its encryption is not the empty string), settings.get hands out the
    SMTP object without the password and with hasPassword set, the other
    SMTP fields as saved, and reading changes nothing. *)
Theorem settings_get_hides_saved_password encryptSecret input db p e :
  smtp_pass input = Some (Some p) ->
  str_truthy (trim p) = true ->
  encryptSecret (trim p) = Some e ->
  e <> "" ->
  let db' := (updateSmtpConfig encryptSecret input db).1 in
  (get db').1 = db'
  /\ exists out c,
      (get db').2 = Some out
      /\ out !! "smtpConfig" = Some (VObj c)
      /\ c !! "pass" = None
      /\ c !! "hasPassword" = Some (VBool true)
      /\ forall k, k <> "pass" -> k <> "hasPassword" ->
                   c !! k = config "smtpConfig" db' !! k.
Proof.
  intros Hpass Ht He Hne. cbn zeta.
  destruct (updateSmtpConfig_patch encryptSecret input db) as (next & _ & ->).
  cbn zeta. rewrite Hpass, Ht, He. cbn [fst].
  set (o := <["pass" := VStr e]> next).
  rewrite config_update.
  pose proof (updateAppSettings_latest {[ "smtpConfig" := VObj o ]}
                (getOrCreateAppSettings db).1) as Hl.
  destruct (getOrCreateAppSettings_latest (getOrCreateAppSettings db).1)
    as [Hl1 [row Hrow]].
  rewrite <- Hl1, Hrow in Hl. unfold apply_patch in Hl.
  rewrite defined_singleton in Hl by done. cbn in Hl.
  rewrite (get_latest _ _ Hl). cbn [fst snd]. split; [done|].
  unfold sanitizeAppSettings.
  set (s := row_object _).
  assert (s !! "smtpConfig" = Some (VObj o)) as Hs.
  { unfold s. rewrite row_object_lookup by done. cbn.
    apply lookup_union_Some_l. by rewrite lookup_singleton_eq. }
  eexists _, (<["hasPassword" := VBool true]> (delete "pass" o)).
  split; [reflexivity|].
  rewrite !strip_secret_other by done.
  split.
  { unfold strip_secret. rewrite Hs. unfold JS.get, o.
    rewrite lookup_insert_eq. cbn.
    rewrite (bool_decide_eq_false_2 (e = "")) by done. cbn.
    by rewrite lookup_insert_eq. }
  split; [by rewrite lookup_insert_ne, lookup_delete_eq|].
  split; [by rewrite lookup_insert_eq|].
  intros k Hk1 Hk2. by rewrite lookup_insert_ne, lookup_delete_ne.
Qed.

Lemma settings_get_hides_saved_password_witness :
  let encryptSecret := fun s => Some ("enc:" +:+ s) in
  let input := {| smtp_host := "smtp.example.com"; smtp_port := 587;
                  smtp_secure := true; smtp_user := "crm";
                  smtp_pass := Some (Some " s3cret "); smtp_from := None |} in
  str_truthy (trim " s3cret ") = true
  /\ exists out c,
      (get (updateSmtpConfig encryptSecret input Db.empty).1).2 = Some out
      /\ out !! "smtpConfig" = Some (VObj c)
      /\ c !! "pass" = None
      /\ c !! "hasPassword" = Some (VBool true).
Proof.
  cbn zeta. split; [reflexivity|].
  destruct (settings_get_hides_saved_password
              (fun s => Some ("enc:" +:+ s))
              {| smtp_host := "smtp.example.com"; smtp_port := 587;
                 smtp_secure := true; smtp_user := "crm";
                 smtp_pass := Some (Some " s3cret "); smtp_from := None |}
              Db.empty " s3cret " "enc:s3cret" eq_refl eq_refl eq_refl)
    as (_ & out & c & H1 & H2 & H3 & H4 & _); [done|].
  exists out, c.
  split; [exact H1|]. split; [exact H2|]. split; [exact H3 | exact H4].
Defined.

Lemma updateDashboardConfig_config input db :
  config "dashboardConfig" (updateDashboardConfig input db)
  = (VBool <$> input) ∪ config "dashboardConfig" db.
Proof.
  unfold updateDashboardConfig.
  destruct (prev_config "dashboardConfig" db eq_refl) as (cur & -> & ->).
  apply config_update.
Qed.

Lemma updateDashboardLayout_config layout db :
  config "dashboardConfig" (updateDashboardLayout layout db)
  = <["layout" := layout]> (config "dashboardConfig" db).
Proof.
  unfold updateDashboardLayout.
  destruct (prev_config "dashboardConfig" db eq_refl) as (cur & -> & ->).
  apply config_update.
Qed.

(** X15: the two dashboard mutations do not undo each other.  As long as
    no widget flag is called "layout", saving flags keeps the stored
    layout, saving a layout keeps the stored flags, and both orders leave
    the same dashboard configuration: the old one with the new flags and
    the new layout. *)
Theorem dashboard_updates_commute input layout db :
  input !! "layout" = None ->
  config "dashboardConfig" (updateDashboardConfig input (updateDashboardLayout layout db))
  = <["layout" := layout]> ((VBool <$> input) ∪ config "dashboardConfig" db)
  /\ config "dashboardConfig"
       (updateDashboardLayout layout (updateDashboardConfig input db))
     = <["layout" := layout]> ((VBool <$> input) ∪ config "dashboardConfig" db).
Proof.
  intros Hl.
  rewrite updateDashboardConfig_config, !updateDashboardLayout_config,
    updateDashboardConfig_config.
  split; [|done]. symmetry. apply insert_union_r.
  by rewrite lookup_fmap, Hl.
Qed.

Lemma dashboard_updates_commute_witness :
  ({[ "showFunnel" := true ]} : gmap string bool) !! "layout" = None
  /\ config "dashboardConfig"
       (updateDashboardConfig {[ "showFunnel" := true ]}
          (updateDashboardLayout (VStr "funnel,leads") Db.empty))
     = <["layout" := VStr "funnel,leads"]>
         ((VBool <$> {[ "showFunnel" := true ]}) ∪ config "dashboardConfig" Db.empty).
Proof.
  split; [reflexivity|].
  exact (proj1 (dashboard_updates_commute {[ "showFunnel" := true ]}
                  (VStr "funnel,leads") Db.empty eq_refl)).
Defined.

End SettingsFacts.

(** ** Team management *)

Section TeamFacts.
Import JS Db TeamRouter Spec SpecX Sample SampleX.

Variable is_email : string -> bool.

Lemma table_wf_same_id {A} (id : A -> Z) (t : Table A) x y :
  table_wf id t -> x ∈ rows t -> y ∈ rows t -> id x = id y -> x = y.
Proof.
  intros [Hnd _]. induction (rows t) as [|z l IH]; [by intros ?%elem_of_nil|].
  cbn in Hnd. apply NoDup_cons in Hnd as [Hz Hnd].
  rewrite !elem_of_cons. intros [->|Hx] [->|Hy] Hid; [done| | |by apply IH].
  - exfalso. apply Hz. rewrite Hid. apply list_elem_of_fmap. by exists y.
  - exfalso. apply Hz. rewrite <- Hid. apply list_elem_of_fmap. by exists x.
Qed.

Lemma table_wf_update {A} (id : A -> Z) p (f : A -> A) (t : Table A) :
  (forall r, id (f r) = id r) ->
  table_wf id t -> table_wf id (update_where p f t).
Proof.
  intros Hid [Hnd Hlt]. unfold table_wf. cbn.
  assert (map id (map (fun r => if p r then f r else r) (rows t)) = map id (rows t))
    as Hmap.
  { rewrite map_map. apply map_ext. intros r. by destruct (p r). }
  split; [by rewrite Hmap|].
  apply Forall_forall. intros x Hx. apply list_elem_of_fmap in Hx as (r & -> & Hr).
  rewrite Forall_forall in Hlt. specialize (Hlt r Hr).
  destruct (p r); [by rewrite Hid | done].
Qed.

Lemma table_wf_insert {A} (id : A -> Z) (mk : Z -> A) (t : Table A) :
  (forall k, id (mk k) = k) ->
  table_wf id t -> table_wf id (insert_row mk t).1.
Proof.
  intros Hid [Hnd Hlt]. unfold table_wf. cbn. split.
  - rewrite map_app. cbn. rewrite Hid. apply NoDup_app. split; [done|].
    split; [|apply NoDup_singleton].
    intros k Hk ->%list_elem_of_singleton.
    apply list_elem_of_fmap in Hk as (r & Hr & Hin).
    rewrite Forall_forall in Hlt. specialize (Hlt r Hin). lia.
  - apply Forall_app. split.
    + eapply Forall_impl; [exact Hlt|]. cbn. intros. lia.
    + apply Forall_singleton. rewrite Hid. lia.
Qed.

Lemma table_wf_filter {A} (id : A -> Z) (P : A -> Prop) `{!forall x, Decision (P x)}
    (t : Table A) :
  table_wf id t ->
  table_wf id {| rows := filter P (rows t); next_id := next_id t |}.
Proof.
  intros [Hnd Hlt]. unfold table_wf. cbn. split.
  - clear Hlt. induction (rows t) as [|x l IH]; [done|].
    cbn in Hnd. apply NoDup_cons in Hnd as [Hx Hnd].
    destruct (decide (P x)).
    + rewrite filter_cons_True by done. cbn. apply NoDup_cons. split; [|by apply IH].
      intros Hin. apply Hx. apply list_elem_of_fmap in Hin as (y & Hy & Hin).
      apply list_elem_of_filter in Hin as [_ Hin]. apply list_elem_of_fmap. by exists y.
    + rewrite filter_cons_False by done. by apply IH.
  - apply Forall_forall. intros x Hx. apply list_elem_of_filter in Hx as [_ Hx].
    rewrite Forall_forall in Hlt. by apply Hlt.
Qed.

Lemma target_spec userId t v :
  target userId t = Some v -> v ∈ rows t /\ user_id v = userId.
Proof.
  intros Hf. apply find_some_elem in Hf as [Hin Hp].
  split; [done|]. by apply bool_decide_eq_true_1 in Hp.
Qed.

Lemma target_of_row t u :
  table_wf user_id t -> u ∈ rows t -> target (user_id u) t = Some u.
Proof.
  intros Hwf Hin.
  destruct (find_is_Some (fun v => bool_decide (user_id v = user_id u)) (rows t) u Hin)
    as [v Hv]; [by apply bool_decide_eq_true_2|].
  unfold target. rewrite Hv. f_equal.
  apply target_spec in Hv as [Hvin Hid].
  by apply (table_wf_same_id user_id t).
Qed.

Lemma filter_update_frame {A} (P : A -> Prop) `{!forall x, Decision (P x)}
    (p : A -> bool) (f : A -> A) (l : list A) :
  (forall r, r ∈ l -> p r = true -> ~ P r /\ ~ P (f r)) ->
  filter P (map (fun r => if p r then f r else r) l) = filter P l.
Proof.
  induction l as [|x l IH]; intros Hall; cbn [map]; [done|].
  assert (filter P (map (fun r => if p r then f r else r) l) = filter P l) as IH'.
  { apply IH. intros r Hr. apply Hall. by right. }
  destruct (p x) eqn:Hp.
  - destruct (Hall x) as [H1 H2]; [by left|done|].
    by rewrite !filter_cons_False.
  - destruct (decide (P x)).
    + rewrite !filter_cons_True by done. by rewrite IH'.
    + by rewrite !filter_cons_False.
Qed.

Lemma filter_filter_frame {A} (P Q : A -> Prop) `{!forall x, Decision (P x)}
    `{!forall x, Decision (Q x)} (l : list A) :
  (forall r, r ∈ l -> P r -> Q r) ->
  filter P (filter Q l) = filter P l.
Proof.
  induction l as [|x l IH]; intros Hall; [done|].
  assert (filter P (filter Q l) = filter P l) as IH'.
  { apply IH. intros r Hr. apply Hall. by right. }
  destruct (decide (Q x)) as [Hq|Hq].
  - rewrite (filter_cons_True Q) by done.
    destruct (decide (P x)).
    + rewrite !(filter_cons_True P) by done. by rewrite IH'.
    + by rewrite !(filter_cons_False P).
  - rewrite (filter_cons_False Q) by done.
    rewrite (filter_cons_False P); [done|].
    intros Hp. apply Hq. apply Hall; [by left|done].
Qed.

Lemma owner_guard_false ctx userId t :
  ctx_role ctx <> "owner" -> owner_guard ctx userId t = false ->
  user_role <$> target userId t <> Some "owner".
Proof.
  unfold owner_guard. intros Hc Hg Ht.
  rewrite bool_decide_eq_true_2 in Hg by done.
  by rewrite (bool_decide_eq_false_2 (ctx_role ctx = "owner")) in Hg.
Qed.

Lemma owners_update ctx userId f t :
  table_wf user_id t ->
  ctx_role ctx <> "owner" ->
  owner_guard ctx userId t = false ->
  (forall u, user_role u <> "owner" -> user_role (f u) <> "owner") ->
  owners (update_where (fun u => bool_decide (user_id u = userId)) f t) = owners t.
Proof.
  intros Hwf Hc Hg Hf. unfold owners. cbn.
  apply filter_update_frame. intros r Hr Hid.
  apply bool_decide_eq_true_1 in Hid. subst userId.
  pose proof (owner_guard_false ctx (user_id r) t Hc Hg) as Ht.
  rewrite (target_of_row t r) in Ht by done. cbn in Ht.
  assert (user_role r <> "owner") by congruence.
  split; [done|by apply Hf].
Qed.

Lemma creatable_not_owner role : role ∈ CREATABLE_ROLES -> role <> "owner".
Proof.
  unfold CREATABLE_ROLES. rewrite !elem_of_cons, elem_of_nil.
  intros [->|[->|[->|[->|[]]]]]; done.
Qed.

Lemma owners_insert mk (t : Table User) :
  (forall k, user_role (mk k) <> "owner") ->
  owners (insert_row mk t).1 = owners t.
Proof.
  intros Hmk. unfold owners. cbn. rewrite filter_app.
  rewrite filter_cons_False by apply Hmk.
  by rewrite filter_nil, app_nil_r.
Qed.

(** Every request keeps the ids distinct and below the counter. *)
Lemma call_wf ctx c t :
  table_wf user_id t -> table_wf user_id (call is_email ctx c t).1.
Proof.
  intros Hwf. destruct c; cbn.
  - unfold updateRole. repeat (case_match; [done|]). by apply table_wf_update.
  - unfold updateCustomRole. repeat (case_match; [done|]). by apply table_wf_update.
  - unfold setActive. repeat (case_match; [done|]). by apply table_wf_update.
  - unfold create. repeat (case_match; [done|]). by apply table_wf_insert.
  - unfold invite. repeat (case_match; [done|]). by apply table_wf_insert.
  - unfold delete. destruct (target userId t); [|done].
    repeat (case_match; [done|]). cbn. by apply table_wf_filter.
Qed.

(** A caller who is not an owner leaves the owner accounts alone. *)
Lemma call_owners ctx c t :
  table_wf user_id t -> ctx_role ctx <> "owner" ->
  owners (call is_email ctx c t).1 = owners t.
Proof.
  intros Hwf Hc. destruct c; cbn.
  - unfold updateRole. case_match; [done|].
    destruct (bool_decide (role = "owner")) eqn:Hr.
    { by rewrite (bool_decide_eq_false_2 (ctx_role ctx = "owner")). }
    cbn [andb]. destruct (owner_guard ctx userId t) eqn:Hg; [done|]. cbn.
    apply (owners_update ctx); try done.
    intros u _. cbn. by apply bool_decide_eq_false_1 in Hr.
  - unfold updateCustomRole. case_match; [done|].
    destruct (owner_guard ctx userId t) eqn:Hg; [done|].
    repeat (case_match; [done|]). cbn.
    by apply (owners_update ctx).
  - unfold setActive.
    destruct (owner_guard ctx userId t) eqn:Hg; [done|]. cbn.
    by apply (owners_update ctx).
  - unfold create.
    destruct (bool_decide (role ∈ CREATABLE_ROLES)) eqn:Hr;
      [|by rewrite andb_false_r].
    repeat (case_match; [done|]).
    apply owners_insert. intros k. cbn.
    apply bool_decide_eq_true_1 in Hr. by apply creatable_not_owner.
  - unfold invite.
    destruct (bool_decide (role ∈ CREATABLE_ROLES)) eqn:Hr;
      [|by rewrite andb_false_r].
    repeat (case_match; [done|]).
    apply owners_insert. intros k. cbn.
    apply bool_decide_eq_true_1 in Hr. by apply creatable_not_owner.
  - unfold delete. destruct (target userId t) as [u|] eqn:Ht; [|done].
    destruct (bool_decide (user_role u = "owner")) eqn:Ho.
    { by rewrite (bool_decide_eq_false_2 (ctx_role ctx = "owner")). }
    cbn [andb]. case_match; [done|]. unfold owners. cbn.
    apply filter_filter_frame. intros r Hr Hrole Hid.
    apply target_spec in Ht as [Hu Huid].
    assert (r = u) as -> by (apply (table_wf_same_id user_id t); congruence).
    by apply bool_decide_eq_false_1 in Ho.
Qed.

Lemma run_wf calls t :
  table_wf user_id t -> table_wf user_id (run is_email calls t).
Proof.
  unfold run. revert t.
  induction calls as [|[ctx c] calls IH]; intros t Hwf; cbn [fold_left fst snd]; [done|].
  by apply IH, call_wf.
Qed.

(** X16: as long as no request comes from an owner, no sequence of team
    requests (role, custom role and activation changes, creations,
    invitations, deletions) changes, removes or adds an owner account. *)
Theorem team_owner_protected calls t :
  table_wf user_id t ->
  Forall (fun c => ctx_role c.1 <> "owner") calls ->
  owners (run is_email calls t) = owners t.
Proof.
  unfold run. revert t.
  induction calls as [|[ctx c] calls IH]; intros t Hwf Hall; cbn [fold_left fst snd];
    [done|].
  apply Forall_cons in Hall as [Hc Hall]. cbn in Hc.
  rewrite IH by (done || by apply call_wf). by apply call_owners.
Qed.

Lemma update_emails_unique p f (t : Table User) :
  (forall u, user_email (f u) = user_email u) ->
  emails_unique t -> emails_unique (update_where p f t).
Proof.
  intros Hf Hu email. specialize (Hu email). cbn.
  rewrite filter_map_length; [done|].
  intros u. destruct (p u); [by rewrite Hf | done].
Qed.

Lemma insert_emails_unique mk email (t : Table User) :
  (forall k, user_email (mk k) = Some email) ->
  email_taken email t = false ->
  emails_unique t -> emails_unique (insert_row mk t).1.
Proof.
  intros Hmk Ht Hu e. specialize (Hu e). cbn. rewrite filter_app, length_app.
  destruct (decide (e = email)) as [->|Hne].
  - rewrite filter_cons_True by apply Hmk. cbn.
    unfold email_taken in Ht. apply bool_decide_eq_false_1 in Ht.
    assert (filter (fun u => user_email u = Some email) (rows t) = []) as ->; [|done].
    destruct (filter _ (rows t)) as [|x l] eqn:Hf; [done|].
    exfalso. apply Ht. apply Exists_exists. exists x.
    assert (x ∈ filter (fun u => user_email u = Some email) (rows t)) as Hx
      by (rewrite Hf; left).
    apply list_elem_of_filter in Hx as [Hx Hin]. by split.
  - rewrite filter_cons_False by (rewrite Hmk; congruence). cbn. lia.
Qed.

Lemma filter_filter_length {A} (P Q : A -> Prop) `{!forall x, Decision (P x)}
    `{!forall x, Decision (Q x)} (l : list A) :
  (length (filter P (filter Q l)) <= length (filter P l))%nat.
Proof.
  induction l as [|x l IH]; [done|].
  destruct (decide (Q x)); destruct (decide (P x)).
  - rewrite (filter_cons_True Q), !(filter_cons_True P) by done. cbn. lia.
  - rewrite (filter_cons_True Q), !(filter_cons_False P) by done. done.
  - rewrite (filter_cons_False Q), (filter_cons_True P) by done. cbn. lia.
  - rewrite (filter_cons_False Q), (filter_cons_False P) by done. done.
Qed.

Lemma call_emails_unique ctx c t :
  emails_unique t -> emails_unique (call is_email ctx c t).1.
Proof.
  intros Hu. destruct c; cbn.
  - unfold updateRole. repeat (case_match; [done|]). by apply update_emails_unique.
  - unfold updateCustomRole. repeat (case_match; [done|]).
    by apply update_emails_unique.
  - unfold setActive. repeat (case_match; [done|]). by apply update_emails_unique.
  - unfold create. case_match; [done|].
    destruct (email_taken email t) eqn:Ht; [done|].
    by apply (insert_emails_unique _ email).
  - unfold invite. case_match; [done|].
    destruct (email_taken email t) eqn:Ht; [done|].
    by apply (insert_emails_unique _ email).
  - unfold delete. destruct (target userId t); [|done].
    repeat (case_match; [done|]). intros e. specialize (Hu e). cbn.
    etrans; [apply filter_filter_length | exact Hu].
Qed.

Lemma call_no_owner_custom ctx c t :
  no_owner_custom t -> no_owner_custom (call is_email ctx c t).1.
Proof.
  unfold no_owner_custom. intros Hn.
  assert (forall p f,
            (forall u, user_customRole u <> Some "owner" ->
                       user_customRole (f u) <> Some "owner") ->
            Forall (fun u => user_customRole u <> Some "owner")
              (rows (update_where p f t))) as Hupd.
  { intros p f Hf. cbn. apply Forall_forall. intros x Hx.
    apply list_elem_of_fmap in Hx as (r & -> & Hr).
    rewrite Forall_forall in Hn. specialize (Hn r Hr).
    destruct (p r); [by apply Hf | done]. }
  destruct c; cbn.
  - unfold updateRole. repeat (case_match; [done|]). by apply Hupd.
  - unfold updateCustomRole.
    destruct (bool_decide (64 < _)%nat); [done|].
    destruct (owner_guard ctx userId t); [done|].
    destruct (bool_decide (custom_value customRole = Some "owner")) eqn:Hv; [done|].
    destruct (_ && _); [done|].
    apply Hupd. intros u _. cbn. by apply bool_decide_eq_false_1 in Hv.
  - unfold setActive. repeat (case_match; [done|]). by apply Hupd.
  - unfold create. repeat (case_match; [done|]). cbn.
    apply Forall_app. split; [done|]. by apply Forall_singleton.
  - unfold invite. repeat (case_match; [done|]). cbn.
    apply Forall_app. split; [done|]. by apply Forall_singleton.
  - unfold delete. destruct (target userId t); [|done].
    repeat (case_match; [done|]). cbn.
    apply Forall_forall. intros x Hx. apply list_elem_of_filter in Hx as [_ Hx].
    rewrite Forall_forall in Hn. by apply Hn.
Qed.

(** X17: whoever sends them, team requests keep two facts about the
    users table: no e-mail address belongs to two users, and no user has
    "owner" as custom role. *)
Theorem team_invariants calls t :
  emails_unique t ->
  no_owner_custom t ->
  emails_unique (run is_email calls t) /\ no_owner_custom (run is_email calls t).
Proof.
  unfold run. revert t.
  induction calls as [|[ctx c] calls IH]; intros t He Hn; cbn [fold_left fst snd];
    [done|].
  apply IH; [by apply call_emails_unique | by apply call_no_owner_custom].
Qed.

Lemma call_keeps_caller ctx c t u :
  u ∈ rows t -> user_id u = ctx_id ctx ->
  exists u', u' ∈ rows (call is_email ctx c t).1 /\ user_id u' = ctx_id ctx.
Proof.
  intros Hin Hid.
  assert (forall p f, (forall r, user_id (f r) = user_id r) ->
            exists u', u' ∈ rows (update_where p f t) /\ user_id u' = ctx_id ctx)
    as Hupd.
  { intros p f Hf. exists (if p u then f u else u). split.
    - cbn. apply list_elem_of_fmap. by exists u.
    - destruct (p u); [by rewrite Hf | done]. }
  assert (forall mk, exists u', u' ∈ rows (insert_row mk t).1 /\ user_id u' = ctx_id ctx)
    as Hins.
  { intros mk. exists u. split; [|done]. cbn. apply elem_of_app. by left. }
  assert (exists u', u' ∈ rows t /\ user_id u' = ctx_id ctx) as Hsame by by exists u.
  destruct c; cbn.
  - unfold updateRole. repeat (case_match; [done|]). by apply Hupd.
  - unfold updateCustomRole. repeat (case_match; [done|]). by apply Hupd.
  - unfold setActive. repeat (case_match; [done|]). by apply Hupd.
  - unfold create. repeat (case_match; [done|]). apply Hins.
  - unfold invite. repeat (case_match; [done|]). apply Hins.
  - unfold delete. destruct (target userId t) as [v|] eqn:Ht; [|done].
    case_match; [done|].
    destruct (bool_decide (user_id v = ctx_id ctx)) eqn:Hv; [done|]. cbn.
    apply bool_decide_eq_false_1 in Hv.
    exists u. split; [|done]. apply list_elem_of_filter. split; [|done].
    apply target_spec in Ht as [_ Hvid]. congruence.
Qed.

(** X18: nobody can delete their own account: a user who is in the table
    is still in it after any sequence of requests of their own. *)
Theorem team_no_self_delete me calls t :
  me ∈ map user_id (rows t) ->
  Forall (fun c => ctx_id c.1 = me) calls ->
  me ∈ map user_id (rows (run is_email calls t)).
Proof.
  unfold run. revert t.
  induction calls as [|[ctx c] calls IH]; intros t Hin Hall; cbn [fold_left fst snd];
    [done|].
  apply Forall_cons in Hall as [Hc Hall]. cbn in Hc. subst me.
  apply IH; [|done].
  apply list_elem_of_fmap in Hin as (u & Hid & Hin).
  destruct (call_keeps_caller ctx c t u Hin) as (u' & Hin' & Hid'); [done|].
  apply list_elem_of_fmap. by exists u'.
Qed.

End TeamFacts.

Section TeamExamples.
Import JS Db TeamRouter Spec SpecX Sample SampleX.

Lemma NoDup_emails_unique (t : Table User) :
  NoDup (omap user_email (rows t)) -> emails_unique t.
Proof.
  intros Hnd email. revert Hnd. generalize (rows t). intros l.
  induction l as [|x l IH]; intros Hnd; [cbn; lia|].
  destruct (decide (user_email x = Some email)) as [Hx|Hx].
  - rewrite filter_cons_True by done. cbn in Hnd. rewrite Hx in Hnd.
    apply NoDup_cons in Hnd as [Hnot _].
    assert (filter (fun u => user_email u = Some email) l = []) as ->; [|done].
    destruct (filter _ l) as [|y l'] eqn:Hf; [done|].
    exfalso. apply Hnot.
    assert (y ∈ filter (fun u => user_email u = Some email) l) as Hy
      by (rewrite Hf; left).
    apply list_elem_of_filter in Hy as [Hy Hin].
    apply list_elem_of_omap. by exists y.
  - rewrite filter_cons_False by done. apply IH.
    cbn in Hnd. destruct (user_email x); [by apply NoDup_cons in Hnd as [_ ?] | done].
Qed.

Lemma team_wf : table_wf user_id team.
Proof.
  split; [apply (bool_decide_unpack _) | apply (bool_decide_unpack _)];
    vm_compute; exact I.
Qed.

Lemma team_owner_protected_witness :
  table_wf user_id team
  /\ Forall (fun c => ctx_role c.1 <> "owner") adan_calls
  /\ map user_id (rows (run has_at adan_calls team)) = [1; 2; 4]
  /\ owners (run has_at adan_calls team) = owners team.
Proof.
  assert (Forall (fun c => ctx_role c.1 <> "owner") adan_calls) as H.
  { unfold adan_calls. repeat (apply Forall_cons; split; [done|]). done. }
  split; [exact team_wf|]. split; [exact H|]. split; [vm_compute; reflexivity|].
  exact (team_owner_protected has_at adan_calls team team_wf H).
Defined.

Lemma team_invariants_witness :
  emails_unique team /\ no_owner_custom team
  /\ emails_unique
       (run has_at
          [ (adan, Create "Bea" "bea@crm.test" "secret1" "agent" "$2a$10$hash" "n4n0");
            (adan, Invite "Ben" "bea@crm.test" "agent" "t0k3n" "n4n1" 1000);
            (adan, UpdateCustomRole 3 (Some " owner ") (Some {[ "owner" := ["*"] ]})) ]
          team)
  /\ no_owner_custom
       (run has_at
          [ (adan, Create "Bea" "bea@crm.test" "secret1" "agent" "$2a$10$hash" "n4n0");
            (adan, Invite "Ben" "bea@crm.test" "agent" "t0k3n" "n4n1" 1000);
            (adan, UpdateCustomRole 3 (Some " owner ") (Some {[ "owner" := ["*"] ]})) ]
          team).
Proof.
  assert (emails_unique team) as He.
  { apply NoDup_emails_unique, (bool_decide_unpack _). vm_compute. exact I. }
  assert (no_owner_custom team) as Hn.
  { unfold no_owner_custom, team. cbn [rows].
    repeat (apply Forall_cons; split; [done|]). done. }
  split; [exact He|]. split; [exact Hn|].
  exact (team_invariants has_at _ team He Hn).
Defined.

Lemma team_no_self_delete_witness :
  2 ∈ map user_id (rows team)
  /\ 2 ∈ map user_id
           (rows (run has_at [ (adan, Delete 2); (adan, UpdateRole 2 "viewer");
                               (adan, Delete 2) ] team)).
Proof.
  assert (2 ∈ map user_id (rows team)) as H by (cbn; right; left).
  split; [exact H|].
  apply (team_no_self_delete has_at 2 _ team H).
  repeat (apply Forall_cons; split; [done|]). done.
Defined.

End TeamExamples.

(** ** The internal chat *)

Section InternalChatFacts.
Import JS Db TeamRouter InternalChat LeadsRouter Spec SpecX Sample SampleX.

Lemma count_fold (l : list InternalMessage) (m : gmap Z Z) k :
  default 0
    (fold_left
       (fun m r => <[im_senderId r := default 0 (m !! im_senderId r) + 1]> m) l m
     !! k)
  = default 0 (m !! k)
    + Z.of_nat (length (filter (fun r => im_senderId r = k) l)).
Proof.
  revert m. induction l as [|x l IH]; intros m; cbn [fold_left]; [cbn; lia|].
  rewrite IH. destruct (decide (im_senderId x = k)) as [Hx|Hx].
  - rewrite filter_cons_True by done. rewrite Hx, lookup_insert_eq. cbn. lia.
  - rewrite filter_cons_False by done. by rewrite lookup_insert_ne.
Qed.

(** The entry of [unreadMap] for a sender is the number of unread direct
    messages of that sender. *)
Lemma unreadMap_lookup me t k :
  default 0 (unreadMap me t !! k) = Z.of_nat (unread me k t).
Proof.
  unfold unreadMap, unread. rewrite count_fold, lookup_empty. cbn [default].
  rewrite Z.add_0_l, list_filter_filter. do 2 f_equal. apply list_filter_iff. intros r.
  rewrite andb_True, bool_decide_spec, negb_True, Is_true_false. tauto.
Qed.

Lemma getRecentChats_perm me users t :
  getRecentChats me users t ≡ₚ chat_rows me users t.
Proof.
  unfold getRecentChats, chat_rows. rewrite sort_by_perm, list_filter_filter.
  rewrite (list_filter_iff _ (fun u => user_isActive u = true /\ user_id u <> me))
    by (intros u; tauto).
  match goal with |- ?a ≡ₚ ?b => assert (a = b) as ->; [|done] end.
  apply map_ext. intros u. unfold recent_chat. by rewrite unreadMap_lookup.
Qed.

Lemma StronglySorted_impl {A} (R R' : A -> A -> Prop) l :
  (forall a b, R a b -> R' a b) -> StronglySorted R l -> StronglySorted R' l.
Proof.
  intros HR. induction 1 as [|x l Hs IH Hx]; constructor; [done|].
  eapply Forall_impl; [exact Hx|]. cbn. auto.
Qed.

Lemma StronglySorted_take {A} (R : A -> A -> Prop) n l :
  StronglySorted R l -> StronglySorted R (take n l).
Proof.
  intros Hs. revert n. induction Hs as [|x l Hs IH Hx]; intros [|n]; cbn;
    try constructor; [apply IH|by apply Forall_take].
Qed.

Lemma StronglySorted_map {A B} (R : B -> B -> Prop) (f : A -> B) l :
  StronglySorted (fun a b => R (f a) (f b)) l -> StronglySorted R (map f l).
Proof.
  induction 1 as [|x l Hs IH Hx]; cbn; constructor; [done|].
  apply Forall_forall. intros y Hy. apply list_elem_of_fmap in Hy as (z & -> & Hz).
  rewrite Forall_forall in Hx. by apply Hx.
Qed.

(** X19: getRecentChats lists every other active user exactly once, each
    with the number of unread direct messages that user sent to the
    caller, the users with more unread messages first. *)
Theorem getRecentChats_spec me users t :
  getRecentChats me users t ≡ₚ chat_rows me users t
  /\ StronglySorted (fun a b => rc_unreadCount b <= rc_unreadCount a)
       (getRecentChats me users t).
Proof.
  split; [apply getRecentChats_perm|].
  apply (StronglySorted_impl
           (fun a b => bool_decide (rc_unreadCount b <= rc_unreadCount a) = true)).
  { intros a b. apply bool_decide_eq_true_1. }
  apply sort_by_sorted.
  - intros a b Hab. apply bool_decide_eq_false_1 in Hab.
    apply bool_decide_eq_true_2. lia.
  - intros a b c Hab Hbc. apply bool_decide_eq_true_1 in Hab, Hbc.
    apply bool_decide_eq_true_2. lia.
Qed.

Lemma filter_map_nil {A} (P : A -> Prop) `{!forall x, Decision (P x)}
    (g : A -> A) (l : list A) :
  (forall x, ~ P (g x)) -> filter P (map g l) = [].
Proof.
  intros Hg. induction l as [|x l IH]; [done|]. cbn [map].
  by rewrite filter_cons_False.
Qed.

Lemma markAsRead_unread me s t viewer sender :
  s <> 0 ->
  unread viewer sender (markAsRead me (Some s) t)
  = if bool_decide (viewer = me /\ sender = s) then 0%nat
    else unread viewer sender t.
Proof.
  intros Hs. unfold markAsRead, unread. cbn.
  rewrite (bool_decide_eq_false_2 (s = 0)) by done. cbn.
  set (cond := fun m : InternalMessage =>
                 bool_decide (Some (im_senderId m) = Some s)
                 && bool_decide (im_recipientId m = Some me) && negb (im_isRead m)).
  assert (forall m, cond m = true ->
            im_senderId m = s /\ im_recipientId m = Some me) as Hcond.
  { intros m. unfold cond. rewrite !andb_true_iff, !bool_decide_eq_true.
    intros [[[= ?] ?] _]. done. }
  case_bool_decide as Hvs.
  - destruct Hvs as [-> ->].
    rewrite filter_map_nil; [done|]. intros m. fold (cond m). intros (H1 & H2 & H3).
    destruct (cond m) eqn:Hc; [done|].
    unfold cond in Hc. rewrite H1, H2, H3 in Hc.
    by rewrite !bool_decide_eq_true_2 in Hc.
  - apply filter_map_length. intros m. fold (cond m).
    destruct (cond m) eqn:Hc; [|done].
    destruct (Hcond m Hc) as [H1 H2]. cbn. split.
    + intros (? & ? & ?). done.
    + intros (? & ? & ?). exfalso. apply Hvs. split; congruence.
Qed.

(** X20: markAsRead for a sender clears the unread direct messages of
    that sender to the caller and of nobody else, so the caller's chat
    list then shows 0 for that sender; for the general channel (no
    sender, or sender 0) it changes nothing. *)
Theorem markAsRead_clears_one_chat me s users t :
  s <> 0 ->
  (forall viewer sender,
     unread viewer sender (markAsRead me (Some s) t)
     = if bool_decide (viewer = me /\ sender = s) then 0%nat
       else unread viewer sender t)
  /\ (forall rc, rc ∈ getRecentChats me users (markAsRead me (Some s) t) ->
        rc_unreadCount rc
        = if bool_decide (rc_id rc = s) then 0
          else Z.of_nat (unread me (rc_id rc) t))
  /\ markAsRead me None t = t
  /\ markAsRead me (Some 0) t = t.
Proof.
  intros Hs. split; [intros; by apply markAsRead_unread|].
  split; [|done].
  intros rc Hrc. rewrite getRecentChats_perm in Hrc.
  apply list_elem_of_fmap in Hrc as (u & -> & _). cbn.
  rewrite markAsRead_unread by done.
  case_bool_decide as H1; case_bool_decide as H2; try done.
  - destruct H1 as [_ ?]. done.
  - exfalso. apply H1. done.
Qed.

Lemma in_channel_between me r m :
  r <> 0 -> in_channel me (Some r) m = true <-> between me r m.
Proof.
  intros Hr. unfold in_channel, between. cbn.
  rewrite (bool_decide_eq_false_2 (r = 0)) by done. cbn.
  rewrite orb_true_iff, !andb_true_iff, !bool_decide_eq_true.
  split; (intros [[? ?]|[? ?]]; [left|right]; split; congruence).
Qed.

Lemma history_leb_total tie a b :
  history_leb tie a b = false -> history_leb tie b a = true.
Proof.
  unfold history_leb. repeat case_bool_decide; cbn; try done; lia.
Qed.

Lemma history_leb_trans tie a b c :
  history_leb tie a b = true -> history_leb tie b c = true ->
  history_leb tie a c = true.
Proof.
  unfold history_leb. repeat case_bool_decide; cbn; try done; lia.
Qed.

Lemma history_leb_createdAt tie a b :
  history_leb tie a b = true -> im_createdAt a <= im_createdAt b.
Proof.
  unfold history_leb. repeat case_bool_decide; cbn; try done; lia.
Qed.

(** X21: a direct chat is the same list for both parties, whatever the
    order the server gives to the messages of one second; it holds at
    most 100 rows, oldest first, and every row comes from a message one
    of the two sent to the other. *)
Theorem history_shared_and_private tie me r users t :
  me <> 0 -> r <> 0 ->
  getHistory tie me (Some r) users t = getHistory tie r (Some me) users t
  /\ (length (getHistory tie me (Some r) users t) <= 100)%nat
  /\ (forall h, h ∈ getHistory tie me (Some r) users t ->
        exists m, m ∈ rows t /\ between me r m /\ h = history_row users m)
  /\ StronglySorted (fun a b => h_createdAt a <= h_createdAt b)
       (getHistory tie me (Some r) users t).
Proof.
  intros Hme Hr. unfold getHistory. split; [|split; [|split]].
  - do 3 f_equal. apply list_filter_iff. intros m.
    rewrite !Is_true_true, !in_channel_between by done.
    unfold between. tauto.
  - rewrite length_map, length_take. lia.
  - intros h Hh. apply list_elem_of_fmap in Hh as (m & -> & Hm).
    apply elem_of_take in Hm as (i & Hm & _).
    apply list_elem_of_lookup_2 in Hm.
    rewrite sort_by_perm in Hm. apply list_elem_of_filter in Hm as [Hc Hm].
    exists m. split; [done|]. split; [|done].
    apply in_channel_between; [done|]. by apply Is_true_true.
  - apply StronglySorted_map, StronglySorted_take.
    apply (StronglySorted_impl (fun a b => history_leb tie a b = true)).
    { intros a b. apply history_leb_createdAt. }
    apply sort_by_sorted; [apply history_leb_total | apply history_leb_trans].
Qed.

Lemma insert_by_snoc {A} (leb : A -> A -> bool) y l x :
  leb y x = true ->
  insert_by leb y (l ++ [x]) = insert_by leb y l ++ [x].
Proof.
  intros Hyx. induction l as [|z l IH]; cbn; [by rewrite Hyx|].
  destruct (leb y z); [done|]. by rewrite IH.
Qed.

Lemma sort_by_snoc {A} (leb : A -> A -> bool) l x :
  Forall (fun y => leb y x = true) l ->
  sort_by leb (l ++ [x]) = sort_by leb l ++ [x].
Proof.
  induction 1 as [|y l Hy Hl IH]; [done|].
  cbn. fold (sort_by leb (l ++ [x])). fold (sort_by leb l).
  rewrite IH. by apply insert_by_snoc.
Qed.

Lemma sort_by_length {A} (leb : A -> A -> bool) l :
  length (sort_by leb l) = length l.
Proof. by rewrite sort_by_perm. Qed.

(** X22: getHistory returns the oldest 100 messages of a channel.  A
    message sent now, to a recipient other than 0 and later than every
    message of the channel, is the last row of the sender's history of
    that channel while the channel held fewer than 100 messages, after
    the rows of those messages; once the channel holds 100 messages the
    history has 100 rows, all of them older, and the new message is not
    among them.  This holds for every order the server gives to the
    messages of one second. *)
Theorem send_then_history tie me content recipientId attachments now users t t' :
  send me content recipientId attachments now t = (t', Done None) ->
  recipientId <> Some 0 ->
  Forall (fun m => im_createdAt m < now)
    (filter (fun m => in_channel me recipientId m) (rows t)) ->
  if bool_decide
       (length (filter (fun m => in_channel me recipientId m) (rows t)) < 100)%nat
  then getHistory tie me recipientId users t'
       = getHistory tie me recipientId users t
         ++ [ {| h_id := next_id t; h_content := content;
                 h_attachments := attachments; h_createdAt := now;
                 h_senderId := me;
                 h_senderName := target me users ≫= user_name |} ]
       /\ getHistory tie me recipientId users t
          ≡ₚ map (history_row users)
               (filter (fun m => in_channel me recipientId m) (rows t))
  else getHistory tie me recipientId users t' = getHistory tie me recipientId users t
       /\ length (getHistory tie me recipientId users t') = 100%nat
       /\ Forall (fun h => h_createdAt h < now) (getHistory tie me recipientId users t').
Proof.
  intros Hsend Hr Hnow. unfold send in Hsend.
  destruct (_ || _); [done|]. injection Hsend as <-.
  unfold getHistory. cbn [rows insert_row fst].
  set (new := {| im_id := next_id t; im_senderId := me;
                 im_recipientId := recipientId; im_content := content;
                 im_attachments := attachments; im_isRead := false;
                 im_createdAt := now |}).
  assert (in_channel me recipientId new = true) as Hin.
  { unfold in_channel. destruct recipientId as [r|]; cbn.
    - rewrite (bool_decide_eq_false_2 (r = 0)) by congruence. cbn.
      by rewrite (bool_decide_eq_true_2 (me = me)),
           (bool_decide_eq_true_2 (Some r = Some r)).
    - done. }
  rewrite filter_app, (filter_cons_True _ new) by by apply Is_true_true.
  rewrite filter_nil.
  set (l := filter _ (rows t)) in *.
  rewrite sort_by_snoc.
  2:{ eapply Forall_impl; [exact Hnow|]. intros m Hm. unfold history_leb.
      rewrite bool_decide_eq_true_2; [done|]. by cbn. }
  case_bool_decide as Hlen.
  - rewrite !take_ge by (rewrite ?length_app, sort_by_length; cbn; lia).
    split; [by rewrite map_app|]. by rewrite sort_by_perm.
  - rewrite take_app_le by (rewrite sort_by_length; lia).
    split; [done|]. split.
    + rewrite length_map, length_take, sort_by_length. lia.
    + apply Forall_forall. intros h Hh.
      apply list_elem_of_fmap in Hh as (m & -> & Hm).
      apply elem_of_take in Hm as (i & Hm & _).
      apply list_elem_of_lookup_2 in Hm. rewrite sort_by_perm in Hm.
      rewrite Forall_forall in Hnow. by apply Hnow.
Qed.

End InternalChatFacts.

Section InternalChatExamples.
Import JS Db TeamRouter InternalChat LeadsRouter Spec SpecX Sample SampleX.

Lemma markAsRead_clears_one_chat_witness :
  3 <> 0
  /\ map (fun rc => (rc_id rc, rc_unreadCount rc)) (getRecentChats 2 team inbox)
     = [(3, 2); (1, 1)]
  /\ map (fun rc => (rc_id rc, rc_unreadCount rc))
       (getRecentChats 2 team (markAsRead 2 (Some 3) inbox))
     = [(1, 1); (3, 0)]
  /\ unread 1 3 (markAsRead 2 (Some 3) inbox) = unread 1 3 inbox.
Proof.
  split; [done|]. split; [vm_compute; reflexivity|]. split; [vm_compute; reflexivity|].
  exact (proj1 (markAsRead_clears_one_chat 2 3 team inbox ltac:(done)) 1 3).
Defined.

Lemma history_shared_and_private_witness :
  2 <> 0 /\ 3 <> 0
  /\ map h_id (getHistory im_id 2 (Some 3) team inbox) = [1; 4; 5]
  /\ getHistory im_id 2 (Some 3) team inbox = getHistory im_id 3 (Some 2) team inbox.
Proof.
  split; [done|]. split; [done|]. split; [vm_compute; reflexivity|].
  exact (proj1 (history_shared_and_private im_id 2 3 team inbox ltac:(done) ltac:(done))).
Defined.

Lemma send_then_history_witness :
  send 2 "listo" (Some 3) None 150 inbox
  = ((send 2 "listo" (Some 3) None 150 inbox).1, Done None)
  /\ Some 3 <> Some 0
  /\ Forall (fun m => im_createdAt m < 150)
       (filter (fun m => in_channel 2 (Some 3) m) (rows inbox))
  /\ map h_id (getHistory (fun m => - im_id m) 2 (Some 3) team
                 (send 2 "listo" (Some 3) None 150 inbox).1)
     = map h_id (getHistory (fun m => - im_id m) 2 (Some 3) team inbox) ++ [6].
Proof.
  assert (Forall (fun m => im_createdAt m < 150)
            (filter (fun m => in_channel 2 (Some 3) m) (rows inbox))) as H.
  { apply (bool_decide_unpack _). vm_compute. exact I. }
  split; [reflexivity|]. split; [done|]. split; [exact H|].
  pose proof (send_then_history (fun m => - im_id m) 2 "listo" (Some 3) None 150 team
                inbox (send 2 "listo" (Some 3) None 150 inbox).1
                eq_refl ltac:(done) H) as Hs.
  rewrite bool_decide_eq_true_2 in Hs by (vm_compute; lia).
  destruct Hs as [-> _]. by rewrite map_app.
Defined.

End InternalChatExamples.

(** ** Reordering the stages of a pipeline *)

Section PipelineFacts.
Import JS Db MessageHandler LeadsRouter PipelinesRouter Spec SpecX Sample SampleX.

Lemma min_stage_spec l :
  match min_stage l with
  | Some m => m ∈ l /\ forall s, s ∈ l -> stage_order m <= stage_order s
  | None => l = []
  end.
Proof.
  induction l as [|x l IH]; cbn; [done|].
  destruct (min_stage l) as [m|].
  - destruct IH as [Hm Hle]. case_bool_decide as Hlt.
    + split; [by right|]. intros s [->|Hs]%elem_of_cons; [lia|by apply Hle].
    + split; [by left|]. intros s [->|Hs]%elem_of_cons; [lia|].
      specialize (Hle s Hs). lia.
  - subst l. split; [by left|]. by intros s ->%list_elem_of_singleton.
Qed.

(** The stages of the pipeline after reorderStages, when the list names
    all of them: each has the position of its id as order. *)
Lemma reorderStages_orders pipelineId ids db s :
  NoDup ids ->
  ids <> [] ->
  (forall r, r ∈ pipelineStages db -> stage_pipelineId r = pipelineId ->
             stage_id r ∈ ids) ->
  s ∈ pipelineStages (reorderStages pipelineId ids db) ->
  stage_pipelineId s = pipelineId ->
  exists i, ids !! i = Some (stage_id s) /\ stage_order s = Z.of_nat i.
Proof.
  intros Hnd Hne Hall Hs Hp. unfold reorderStages in Hs.
  rewrite bool_decide_eq_false_2 in Hs by (by destruct ids). cbn in Hs.
  apply list_elem_of_fmap in Hs as (r & -> & Hr).
  destruct (bool_decide (stage_pipelineId r = pipelineId)) eqn:Hrp; cbn [andb] in *.
  - apply bool_decide_eq_true_1 in Hrp.
    rewrite bool_decide_eq_true_2 in * by by apply Hall.
    destruct (list_elem_of_lookup_1 _ _ (Hall r Hr Hrp)) as [i Hi].
    rewrite (case_when_lookup ids 0 i (stage_id r)) in * by done. cbn.
    exists i. split; [done|lia].
  - apply bool_decide_eq_false_1 in Hrp. done.
Qed.

Lemma reorderStages_row pipelineId ids db i id s :
  NoDup ids ->
  ids !! i = Some id -> s ∈ pipelineStages db -> stage_id s = id ->
  stage_pipelineId s = pipelineId ->
  {| stage_id := id; stage_pipelineId := pipelineId; stage_order := Z.of_nat i |}
  ∈ pipelineStages (reorderStages pipelineId ids db).
Proof.
  intros Hnd Hi Hs Hid Hp. unfold reorderStages.
  rewrite bool_decide_eq_false_2 by (intros Hl; by destruct ids).
  cbn. apply list_elem_of_fmap. exists s. split; [|done].
  rewrite !bool_decide_eq_true_2
    by (done || (rewrite Hid; by eapply list_elem_of_lookup_2)).
  cbn. rewrite Hid, (case_when_lookup ids 0 i id) by done. cbn.
  by rewrite Hid, Hp.
Qed.

(** X23: for a list of distinct stage ids, reorderStages gives the stage
    of the pipeline named at position i (from 0) the order i and leaves
    every stage of another pipeline and every stage that is not named as
    it was; the stage ids stay as they are, in their order, and nothing
    but the stages table changes. *)
Theorem reorderStages_positions pipelineId ids db :
  NoDup ids ->
  let db' := reorderStages pipelineId ids db in
  (forall i id s,
     ids !! i = Some id -> s ∈ pipelineStages db -> stage_id s = id ->
     stage_pipelineId s = pipelineId ->
     {| stage_id := id; stage_pipelineId := pipelineId; stage_order := Z.of_nat i |}
     ∈ pipelineStages db')
  /\ (forall s, stage_pipelineId s <> pipelineId \/ stage_id s ∉ ids ->
        s ∈ pipelineStages db' <-> s ∈ pipelineStages db)
  /\ map stage_id (pipelineStages db') = map stage_id (pipelineStages db)
  /\ set_pipelineStages (pipelineStages db) db' = db.
Proof.
  intros Hnd. cbn zeta. split; [intros; by eapply reorderStages_row|].
  unfold reorderStages.
  case_bool_decide as Hlen; [by destruct db|].
  cbn. split; [|split; [|by destruct db]].
  - intros s Hs. rewrite list_elem_of_fmap. split.
    + intros (r & -> & Hr).
      destruct (bool_decide (stage_pipelineId r = pipelineId)) eqn:Hrp;
        cbn [andb] in *; [|done].
      destruct (bool_decide (stage_id r ∈ ids)) eqn:Hri; [|done].
      apply bool_decide_eq_true_1 in Hrp, Hri.
      destruct (case_when ids 0 (stage_id r)); cbn in *; [|done].
      destruct Hs; done.
    + intros Hin. exists s. split; [|done].
      destruct Hs as [Hs|Hs]; [by rewrite bool_decide_eq_false_2|].
      rewrite (bool_decide_eq_false_2 (stage_id s ∈ ids)) by done.
      by rewrite andb_false_r.
  - rewrite map_map. apply map_ext. intros r.
    destruct (_ && _); [|done]. by destruct (case_when ids 0 (stage_id r)).
Qed.

(** X24: after the stages of the default pipeline have been reordered
    with a list that names all of them, a WhatsApp message from an
    unknown number creates its lead in the stage the list names first, at
    the end of that stage. *)
Theorem reorderStages_sets_intake_stage now userId message jid p first rest db :
  accepted message = Some jid ->
  lead_by_phone (phone_of jid) db = None ->
  default_pipeline db = Some p ->
  NoDup (first :: rest) ->
  (forall s, s ∈ pipelineStages db -> stage_pipelineId s = pipeline_id p ->
             stage_id s ∈ first :: rest) ->
  (exists s, s ∈ pipelineStages db /\ stage_id s = first
             /\ stage_pipelineId s = pipeline_id p) ->
  exists lead,
    lead_by_phone (phone_of jid)
      (handleIncomingMessage now userId message
         (reorderStages (pipeline_id p) (first :: rest) db)) = Some lead
    /\ lead_pipelineStageId lead = Some first
    /\ lead_kanbanOrder lead = Some (next_kanbanOrder first db).
Proof.
  intros Hacc Hnew Hp Hnd Hall (s0 & Hs0 & Hid0 & Hp0).
  set (ids := first :: rest) in *.
  set (db1 := reorderStages (pipeline_id p) ids db).
  assert (leads db1 = leads db /\ pipelines db1 = pipelines db) as [Hleads Hpipes].
  { unfold db1, reorderStages. by case_bool_decide. }
  assert (exists st, default_first_stage db1 = Some st /\ stage_id st = first)
    as (st & Hst & Hstid).
  { unfold default_first_stage, default_pipeline. rewrite Hpipes.
    fold (default_pipeline db). rewrite Hp. cbn. unfold first_stage.
    pose proof (min_stage_spec
                  (filter (fun s => bool_decide (stage_pipelineId s = pipeline_id p))
                     (pipelineStages db1))) as Hmin.
    assert (forall s, s ∈ pipelineStages db1 -> stage_pipelineId s = pipeline_id p ->
              exists i, ids !! i = Some (stage_id s) /\ stage_order s = Z.of_nat i)
      as Hord.
    { intros s Hs Hsp. by apply (reorderStages_orders (pipeline_id p) ids db). }
    pose proof (reorderStages_row (pipeline_id p) ids db 0%nat first s0 Hnd
                  eq_refl Hs0 Hid0 Hp0) as Hpos.
    fold db1 in Hpos.
    set (s1 := {| stage_id := first; stage_pipelineId := pipeline_id p;
                  stage_order := Z.of_nat 0 |}) in *.
    assert (s1 ∈ filter (fun s => bool_decide (stage_pipelineId s = pipeline_id p))
                   (pipelineStages db1)) as Hs1.
    { apply list_elem_of_filter. split; [|done]. by apply bool_decide_pack. }
    destruct (min_stage _) as [m|]; [|by rewrite Hmin in Hs1; apply elem_of_nil in Hs1].
    exists m. split; [done|]. destruct Hmin as [Hm Hle].
    specialize (Hle s1 Hs1). cbn in Hle.
    apply list_elem_of_filter in Hm as [Hmp Hm]. apply bool_decide_unpack in Hmp.
    destruct (Hord m Hm Hmp) as (i & Hi & Hio).
    assert (i = 0%nat) as -> by lia. cbn in Hi. congruence. }
  destruct (handle_run now userId message db1 jid Hacc) as (lead & conv & msg & Hrec).
  destruct Hrec as (Hlead & Hcase & _).
  unfold lead_by_phone in Hcase, Hnew. rewrite Hleads, Hnew in Hcase.
  rewrite Hst in Hcase. destruct Hcase as (_ & Hstage & Horder).
  exists lead. split; [done|]. rewrite Hstage, Horder, Hstid.
  split; [done|]. unfold next_kanbanOrder, max_kanbanOrder. by rewrite Hleads.
Qed.

Lemma reorderStages_positions_witness :
  NoDup [10; 11]
  /\ pipelineStages (reorderStages 2 [10; 11] store_pipeline)
     = [ {| stage_id := 10; stage_pipelineId := 2; stage_order := 0 |};
         {| stage_id := 11; stage_pipelineId := 2; stage_order := 1 |};
         {| stage_id := 12; stage_pipelineId := 1; stage_order := 0 |} ]
  /\ set_pipelineStages (pipelineStages store_pipeline)
       (reorderStages 2 [10; 11] store_pipeline) = store_pipeline.
Proof.
  assert (NoDup [10; 11]) as H by (apply (bool_decide_unpack _); vm_compute; exact I).
  split; [exact H|]. split; [vm_compute; reflexivity|].
  exact (proj2 (proj2 (proj2 (reorderStages_positions 2 [10; 11] store_pipeline H)))).
Defined.

Lemma reorderStages_sets_intake_stage_witness :
  accepted hola = Some "595981000111@s.whatsapp.net"
  /\ lead_by_phone "+595981000111" store_pipeline = None
  /\ default_pipeline store_pipeline
     = Some {| pipeline_id := 2; pipeline_isDefault := true |}
  /\ exists lead,
      lead_by_phone "+595981000111"
        (handleIncomingMessage 1000 7 hola (reorderStages 2 [10; 11] store_pipeline))
      = Some lead
      /\ lead_pipelineStageId lead = Some 10
      /\ lead_kanbanOrder lead = Some 1.
Proof.
  split; [reflexivity|]. split; [reflexivity|]. split; [reflexivity|].
  apply (reorderStages_sets_intake_stage 1000 7 hola "595981000111@s.whatsapp.net"
           {| pipeline_id := 2; pipeline_isDefault := true |} 10 [11] store_pipeline).
  - reflexivity.
  - reflexivity.
  - reflexivity.
  - apply (bool_decide_unpack _). vm_compute. exact I.
  - intros s Hs Hp. cbn in Hs. rewrite !elem_of_cons in Hs.
    destruct Hs as [->|[->|[->|Hs]]]; [by left|right; by left|done|].
    by apply elem_of_nil in Hs.
  - exists {| stage_id := 10; stage_pipelineId := 2; stage_order := 2 |}.
    split; [left|done].
Defined.

End PipelineFacts.

(** ** The two role resolvers *)

Section RoleFacts.
Import JS Rbac SecurityHelpers Spec SpecX.

Variable permissionsMatrix : gmap string (list string).

(** X25: for a built-in base role, computeEffectiveRole answers "owner"
    only for the owner, and otherwise either the base role or a custom
    role that is an own key of the matrix and is either a built-in role of
    no higher rank or, for an admin only, a role outside the built-in
    ones. *)
Theorem computeEffectiveRole_bounded baseRole customRole rb :
  BUILTIN_RANK !! base_of baseRole = Some rb ->
  let role := computeEffectiveRole baseRole customRole permissionsMatrix in
  (role = "owner" <-> base_of baseRole = "owner")
  /\ (role = base_of baseRole
      \/ role = custom_of customRole
         /\ is_Some (permissionsMatrix !! role)
         /\ match BUILTIN_RANK !! role with
            | Some rc => rc <= rb
            | None => base_of baseRole = "admin"
            end).
Proof.
  intros Hb. cbn zeta. split; [apply computeEffectiveRole_owner_iff|].
  destruct (decide (computeEffectiveRole baseRole customRole permissionsMatrix
                    = base_of baseRole)) as [|Hne]; [by left|].
  right.
  destruct (computeEffectiveRole_cases permissionsMatrix baseRole customRole)
    as [? | (Hc & _ & _ & Hm)]; [done|].
  split; [done|]. rewrite Hc. split; [done|].
  destruct (BUILTIN_RANK !! custom_of customRole) as [rc|] eqn:Hrc.
  - destruct (decide (rc <= rb)) as [|Hgt]; [done|]. exfalso. apply Hne.
    apply (computeEffectiveRole_no_builtin_escalation _ _ _ rb rc); [done|done|lia].
  - by apply (computeEffectiveRole_custom_only_admin permissionsMatrix _ customRole).
Qed.

Lemma not_reserved_no_rank k :
  k ∉ RESERVED_SYSTEM_ROLES -> BUILTIN_RANK !! k = None.
Proof.
  intros Hk. destruct (BUILTIN_RANK !! k) as [n|] eqn:Hn; [|done].
  exfalso. apply Hk. unfold BUILTIN_RANK in Hn.
  apply elem_of_list_to_map_2 in Hn. unfold RESERVED_SYSTEM_ROLES.
  rewrite !elem_of_cons, elem_of_nil in Hn. rewrite !elem_of_cons.
  destruct Hn as [Hn|[Hn|[Hn|[Hn|[Hn|[]]]]]]; injection Hn as -> _; tauto.
Qed.

(** X26: the two resolvers disagree on custom roles.  For a custom role
    whose trimmed name is a non-reserved own key of the matrix,
    getEffectiveRole answers the custom role as it was given (not
    trimmed) for every base role below owner, while computeEffectiveRole
    answers the trimmed custom role for an admin and the base role for a
    viewer, an agent and a supervisor. *)
Theorem resolvers_disagree baseRole c perms :
  baseRole ∈ ["viewer"; "agent"; "supervisor"; "admin"] ->
  trim c <> "" ->
  trim c ∉ RESERVED_SYSTEM_ROLES ->
  permissionsMatrix !! trim c = Some perms ->
  getEffectiveRole baseRole (Some c) permissionsMatrix = c
  /\ computeEffectiveRole baseRole (Some c) permissionsMatrix
     = if bool_decide (baseRole = "admin") then trim c else baseRole.
Proof.
  intros Hb Ht Hr Hm.
  assert (str_truthy c = true) as Hc.
  { destruct c; [by vm_compute in Ht | done]. }
  assert (baseRole <> "owner" /\ base_of baseRole = baseRole) as [Hno Hbase].
  { rewrite !elem_of_cons, elem_of_nil in Hb.
    destruct Hb as [->|[->|[->|[->|[]]]]]; split; done. }
  split.
  - unfold getEffectiveRole, validateCustomRole.
    rewrite (bool_decide_eq_false_2 (baseRole = "owner")) by done.
    rewrite Hc. cbn [negb].
    rewrite (bool_decide_eq_false_2 (trim c ∈ RESERVED_SYSTEM_ROLES)) by done.
    unfold matrix_entry_falsy, get_prop. by rewrite Hm.
  - unfold computeEffectiveRole. fold (base_of baseRole). rewrite Hbase, Hc.
    rewrite (bool_decide_eq_false_2 (baseRole = "owner")) by done.
    unfold str_truthy at 1.
    rewrite (bool_decide_eq_false_2 (trim c = "")) by done. cbn [negb].
    unfold hasOwnProperty. rewrite Hm.
    rewrite (bool_decide_eq_true_2 (is_Some (Some perms))) by by eexists.
    cbn [negb].
    rewrite (bool_decide_eq_false_2 (trim c = "owner")).
    2:{ intros Ho. apply Hr. rewrite Ho. left. }
    assert (is_number (get_prop BUILTIN_RANK (trim c)) = false) as ->.
    { unfold get_prop. rewrite (not_reserved_no_rank (trim c)) by done.
      by destruct (bool_decide (trim c ∈ object_prototype_keys)). }
    cbn [andb negb]. by destruct (bool_decide (baseRole = "admin")).
Qed.

End RoleFacts.

Section RoleExamples.
Import JS Rbac SecurityHelpers Spec SpecX.

Lemma computeEffectiveRole_bounded_witness :
  BUILTIN_RANK !! base_of "agent" = Some 1
  /\ computeEffectiveRole "agent" (Some "admin") {[ "admin" := ["*"] ]} = "agent"
  /\ (computeEffectiveRole "agent" (Some "admin") {[ "admin" := ["*"] ]} = "owner"
      <-> base_of "agent" = "owner").
Proof.
  split; [reflexivity|]. split; [vm_compute; reflexivity|].
  exact (proj1 (computeEffectiveRole_bounded {[ "admin" := ["*"] ]} "agent"
                  (Some "admin") 1 eq_refl)).
Defined.

Lemma resolvers_disagree_witness :
  "agent" ∈ ["viewer"; "agent"; "supervisor"; "admin"]
  /\ trim " sales " <> ""
  /\ (trim " sales " ∉ RESERVED_SYSTEM_ROLES)
  /\ ({[ "sales" := ["leads.view"] ]} : gmap string (list string)) !! trim " sales "
     = Some ["leads.view"]
  /\ getEffectiveRole "agent" (Some " sales ") {[ "sales" := ["leads.view"] ]}
     = " sales "
  /\ computeEffectiveRole "agent" (Some " sales ") {[ "sales" := ["leads.view"] ]}
     = "agent".
Proof.
  assert ("agent" ∈ ["viewer"; "agent"; "supervisor"; "admin"]) as H1
    by (right; left).
  assert (trim " sales " <> "") as H2 by (vm_compute; discriminate).
  assert (trim " sales " ∉ RESERVED_SYSTEM_ROLES) as H3.
  { apply (bool_decide_unpack _). vm_compute. exact I. }
  assert (({[ "sales" := ["leads.view"] ]} : gmap string (list string))
            !! trim " sales " = Some ["leads.view"]) as H4 by reflexivity.
  split; [exact H1|]. split; [exact H2|]. split; [exact H3|]. split; [exact H4|].
  exact (resolvers_disagree {[ "sales" := ["leads.view"] ]} "agent" " sales "
           ["leads.view"] H1 H2 H3 H4).
Defined.

End RoleExamples.

(** ** Reassigning leads *)

Section LeadsUpdateFacts.
Import JS Rbac Db Leads LeadsUpdate Spec SpecX Sample SampleX.

(** The effective role of a caller whose built-in base role is below
    admin is neither owner nor admin. *)
Lemma below_admin_stays_below baseRole customRole matrix rb :
  BUILTIN_RANK !! base_of baseRole = Some rb ->
  rb < 3 ->
  computeEffectiveRole baseRole customRole matrix <> "owner"
  /\ computeEffectiveRole baseRole customRole matrix <> "admin".
Proof.
  intros Hb Hlt.
  assert (base_of baseRole <> "owner") as Hno.
  { intros Ho. rewrite Ho in Hb. vm_compute in Hb. injection Hb as <-. lia. }
  assert (base_of baseRole <> "admin") as Hna.
  { intros Ho. rewrite Ho in Hb. vm_compute in Hb. injection Hb as <-. lia. }
  split.
  - by rewrite computeEffectiveRole_owner_iff.
  - intros Hadmin.
    destruct (computeEffectiveRole_cases matrix baseRole customRole)
      as [Hr | (Hr & _ & _ & _)]; [congruence|].
    rewrite Hr in Hadmin.
    pose proof (computeEffectiveRole_no_builtin_escalation matrix baseRole customRole
                  rb 3 Hb) as Hesc.
    rewrite Hadmin in Hesc. specialize (Hesc eq_refl ltac:(lia)). congruence.
Qed.

(** X27: a caller whose base role is a built-in role below admin can
    change the assignee of a lead only if the permissions matrix lists
    "*", "leads.*" or "leads.assign" for the caller's effective role;
    otherwise update throws and leaves the leads as they were. *)
Theorem update_assign_guarded caller input permissionsMatrix db rb :
  up_assignedToId input <> None ->
  BUILTIN_RANK !! base_of (or_str (caller_role caller) "agent") = Some rb ->
  rb < 3 ->
  let role := computeEffectiveRole (or_str (caller_role caller) "agent")
                (caller_customRole caller) (default ∅ permissionsMatrix) in
  (exists perms,
     default ∅ permissionsMatrix !! role = Some perms
     /\ ("*" ∈ perms \/ "leads.*" ∈ perms \/ "leads.assign" ∈ perms))
  \/ (leads (update caller input permissionsMatrix db).1 = leads db
      /\ (update caller input permissionsMatrix db).2 <> Done).
Proof.
  intros Ha Hb Hlt. cbn zeta.
  destruct (below_admin_stays_below _ (caller_customRole caller)
              (default ∅ permissionsMatrix) rb Hb Hlt) as [Hno Hna].
  set (role := computeEffectiveRole _ _ _) in *.
  assert (leads (AppSettings.getOrCreateAppSettings db).1 = leads db) as Hleads.
  { unfold AppSettings.getOrCreateAppSettings.
    by destruct (AppSettings.latest (rows (appSettings db))). }
  unfold update. destruct (up_assignedToId input) as [a|]; [|done].
  unfold check_assign. fold role. unfold hasAssign.
  rewrite (bool_decide_eq_false_2 (role = "owner")),
    (bool_decide_eq_false_2 (role = "admin")) by done.
  cbn [orb]. unfold get_prop.
  destruct (default ∅ permissionsMatrix !! role) as [perms|] eqn:Hperms.
  - destruct (bool_decide ("*" ∈ perms)) eqn:H1;
      [left; exists perms; apply bool_decide_eq_true_1 in H1; tauto|].
    destruct (bool_decide ("leads.*" ∈ perms)) eqn:H2;
      [left; exists perms; apply bool_decide_eq_true_1 in H2; tauto|].
    destruct (bool_decide ("leads.assign" ∈ perms)) eqn:H3;
      [left; exists perms; apply bool_decide_eq_true_1 in H3; tauto|].
    right. cbn. done.
  - right. by destruct (bool_decide (role ∈ object_prototype_keys)).
Qed.

Lemma filter_map_le {A} (P Q : A -> Prop) `{!forall x, Decision (P x)}
    `{!forall x, Decision (Q x)} (g : A -> A) (l : list A) :
  (forall r, r ∈ l -> P (g r) -> Q r) ->
  (length (filter P (map g l)) <= length (filter Q l))%nat.
Proof.
  induction l as [|x l IH]; intros Hall; [done|]. cbn [map].
  assert (length (filter P (map g l)) <= length (filter Q l))%nat as IH'.
  { apply IH. intros r Hr. apply Hall. by right. }
  destruct (decide (P (g x))) as [Hp|Hp].
  - rewrite (filter_cons_True P) by done.
    rewrite (filter_cons_True Q) by (apply Hall; [by left|done]). cbn. lia.
  - rewrite (filter_cons_False P) by done.
    destruct (decide (Q x)).
    + rewrite (filter_cons_True Q) by done. cbn. lia.
    + by rewrite (filter_cons_False Q).
Qed.

Lemma NoDup_id_count {A K} `{!EqDecision K} (id : A -> K) (l : list A) k :
  NoDup (map id l) -> (length (filter (fun r => id r = k) l) <= 1)%nat.
Proof.
  induction l as [|x l IH]; intros Hnd; [cbn; lia|].
  cbn in Hnd. apply NoDup_cons in Hnd as [Hx Hnd].
  destruct (decide (id x = k)) as [Hk|Hk].
  - rewrite filter_cons_True by done. cbn.
    assert (filter (fun r => id r = k) l = []) as ->; [|cbn; lia].
    destruct (filter _ l) as [|y l'] eqn:Hf; [done|].
    exfalso. apply Hx.
    assert (y ∈ filter (fun r => id r = k) l) as Hy by (rewrite Hf; left).
    apply list_elem_of_filter in Hy as [Hy Hin].
    apply list_elem_of_fmap. exists y. split; [congruence|done].
  - rewrite filter_cons_False by done. by apply IH.
Qed.

(** X28: with distinct lead ids, an update never gives two leads the
    same phone number: a store in which no phone number belongs to two
    leads stays that way, whether the update goes through or throws. *)
Theorem update_keeps_phones_unique caller input permissionsMatrix db :
  table_wf lead_id (leads db) ->
  phones_unique db ->
  phones_unique (update caller input permissionsMatrix db).1.
Proof.
  intros [Hnd _] Hu.
  assert (forall d, leads d = leads db -> phones_unique d) as Hsame.
  { intros d Hd phone. unfold phone_count. rewrite Hd. apply Hu. }
  assert (leads (AppSettings.getOrCreateAppSettings db).1 = leads db) as Hleads.
  { unfold AppSettings.getOrCreateAppSettings.
    by destruct (AppSettings.latest (rows (appSettings db))). }
  unfold update.
  set (checked := match up_assignedToId input with Some _ => _ | None => _ end).
  assert (leads checked.1 = leads db) as Hc.
  { unfold checked. by destruct (up_assignedToId input). }
  destruct checked as [db1 [[|]|]]; cbn [fst] in Hc; [|by apply Hsame..].
  destruct (nothing_to_set input); [by apply Hsame|].
  destruct (phone_conflict input db1) eqn:Hconf; [by apply Hsame|].
  cbn [fst]. intros q. unfold phone_count. cbn. rewrite Hc.
  set (k := match up_pipelineStageId input with Some _ => _ | None => _ end).
  set (g := fun r => if bool_decide (lead_id r = up_id input)
                     then apply_update input k r else r).
  specialize (Hu q). unfold phone_count in Hu.
  unfold phone_conflict in Hconf. rewrite Hc in Hconf.
  destruct (up_phone input) as [ph|] eqn:Hph.
  - apply andb_false_iff in Hconf as [Hno|Hno]; apply bool_decide_eq_false_1 in Hno.
    + (* no lead has the id *)
      etrans; [|exact Hu]. apply filter_map_le. intros r Hr. unfold g.
      destruct (bool_decide (lead_id r = up_id input)) eqn:Hid; [|done].
      apply bool_decide_eq_true_1 in Hid.
      exfalso. apply Hno. apply Exists_exists. by exists r.
    + destruct (decide (q = ph)) as [->|Hq].
      * etrans; [|apply (NoDup_id_count lead_id _ (up_id input) Hnd)].
        apply filter_map_le. intros r Hr. unfold g.
        destruct (bool_decide (lead_id r = up_id input)) eqn:Hid;
          [by apply bool_decide_eq_true_1 in Hid|].
        apply bool_decide_eq_false_1 in Hid.
        intros Hp%bool_decide_unpack.
        exfalso. apply Hno. apply Exists_exists. by exists r.
      * etrans; [|exact Hu]. apply filter_map_le. intros r Hr. unfold g.
        destruct (bool_decide (lead_id r = up_id input)) eqn:Hid; [|done].
        cbn. rewrite Hph. cbn. intros Hp%bool_decide_unpack. congruence.
  - etrans; [|exact Hu]. apply filter_map_le. intros r Hr. unfold g.
    destruct (bool_decide (lead_id r = up_id input)) eqn:Hid; [|done].
    cbn. by rewrite Hph.
Qed.

Lemma update_assign_guarded_witness :
  up_assignedToId reassign <> None
  /\ BUILTIN_RANK !! base_of (or_str (caller_role agus) "agent") = Some 1
  /\ 1 < 3
  /\ update agus reassign (Some matrix_view) store_kanban
     = ((AppSettings.getOrCreateAppSettings store_kanban).1,
        Thrown "No tienes permisos para reasignar leads (leads.assign)")
  /\ ((exists perms,
         default ∅ (Some matrix_view)
         !! computeEffectiveRole (or_str (caller_role agus) "agent")
              (caller_customRole agus) (default ∅ (Some matrix_view)) = Some perms
         /\ ("*" ∈ perms \/ "leads.*" ∈ perms \/ "leads.assign" ∈ perms))
      \/ (leads (update agus reassign (Some matrix_view) store_kanban).1
          = leads store_kanban
          /\ (update agus reassign (Some matrix_view) store_kanban).2 <> Done)).
Proof.
  split; [done|]. split; [reflexivity|]. split; [lia|]. split; [vm_compute; reflexivity|].
  exact (update_assign_guarded agus reassign (Some matrix_view) store_kanban 1
           ltac:(done) eq_refl ltac:(lia)).
Defined.

Lemma NoDup_phones_unique db :
  NoDup (map lead_phone (rows (leads db))) -> phones_unique db.
Proof.
  intros Hnd phone. unfold phone_count.
  rewrite (list_filter_iff _ (fun l => lead_phone l = phone))
    by (intros l; apply bool_decide_spec).
  by apply NoDup_id_count.
Qed.

Lemma update_keeps_phones_unique_witness :
  table_wf lead_id (leads store_kanban)
  /\ phones_unique store_kanban
  /\ (update agus steal_phone None store_kanban).2 = Thrown "ER_DUP_ENTRY"
  /\ phones_unique (update agus steal_phone None store_kanban).1.
Proof.
  assert (table_wf lead_id (leads store_kanban)) as Hwf.
  { split; apply (bool_decide_unpack _); vm_compute; exact I. }
  assert (phones_unique store_kanban) as Hu.
  { apply NoDup_phones_unique, (bool_decide_unpack _). vm_compute. exact I. }
  split; [exact Hwf|]. split; [exact Hu|]. split; [vm_compute; reflexivity|].
  exact (update_keeps_phones_unique agus steal_phone None store_kanban Hwf Hu).
Defined.

End LeadsUpdateFacts.

(** ** Reading settings back *)

Section SettingsReadBack.
Import JS Db AppSettings SettingsRouter Spec SpecX.



(** A patch that only names a column without a value, and one that also
    sets the currency. *)
Example settings_patch_undefined :
  updateAppSettings {[ "language" := VUndefined ]} Db.empty
  = ((getOrCreateAppSettings Db.empty).1, inl "No values to set")
  /\ (exists row,
        (updateAppSettings {[ "language" := VUndefined; "currency" := VStr "USD" ]}
           Db.empty).2 = inr (Some row)
        /\ as_cols row !! "language" = Some (VStr "es")
        /\ as_cols row !! "currency" = Some (VStr "USD")).
Proof.
  split; [by vm_compute|]. eexists. split; [by vm_compute|].
  split; by vm_compute.
Qed.

End SettingsReadBack.

(** ** The board after a move *)

Section BoardFacts.
Import JS Db Leads LeadsRouter Spec SpecX Sample SampleX.

(** The bucket of a stage of the selected pipeline. *)
Lemma getByPipeline_bucket pipelineId db pipeline k :
  select_pipeline pipelineId db = Some pipeline ->
  k ∈ map stage_id
        (filter (fun s => stage_pipelineId s = pipeline_id pipeline) (pipelineStages db)) ->
  exists bucket,
    getByPipeline pipelineId db !! k = Some bucket
    /\ bucket ≡ₚ filter (of_stage k) (rows (leads db))
    /\ StronglySorted (fun a b => lead_leb a b = true) bucket.
Proof.
  intros Hsel Hk. unfold getByPipeline. rewrite Hsel.
  set (stages := stages_of (pipeline_id pipeline) db).
  assert (k ∈ map stage_id stages) as Hk'.
  { unfold stages, stages_of.
    by rewrite (sort_by_perm (fun a b => bool_decide (stage_order a <= stage_order b))). }
  set (filteredLeads := if bool_decide (length (map stage_id stages) = 0%nat)
                        then [] else sort_by _ _).
  pose proof (sort_buckets stages
                (fold_left push_lead filteredLeads
                   (fold_left (fun r s => <[stage_id s := []]> r) stages ∅)) k) as Hsort.
  rewrite push_leads, init_buckets in Hsort.
  rewrite bool_decide_eq_true_2 in Hsort by done.
  cbn in Hsort. destruct Hsort as (bucket & Hb & Hperm & _ & Hsorted).
  exists bucket. split; [done|]. split; [|by apply Hsorted].
  rewrite Hperm. unfold filteredLeads.
  case_bool_decide as Hlen.
  { apply length_zero_iff_nil in Hlen.
    rewrite Hlen in Hk'. by apply elem_of_nil in Hk'. }
  rewrite (sort_by_perm _ (filter _ _)), list_filter_filter.
  erewrite list_filter_iff; [done|]. intros l. cbn. split; [by intros [? _]|].
  intros Hl. split; [done|]. unfold in_stages. destruct Hl as [-> _].
  by apply bool_decide_pack.
Qed.

Lemma lead_leb_order a b : lead_leb a b = true -> sort_order a <= sort_order b.
Proof.
  unfold lead_leb. case_bool_decide as He; [lia|].
  intros H. apply bool_decide_eq_true_1 in H. lia.
Qed.

(** In a sorted bucket, the leads of greatest order come last. *)
Lemma sorted_last id N (bucket : list Lead) :
  StronglySorted (fun a b => lead_leb a b = true) bucket ->
  Exists (fun m => lead_id m = id) bucket ->
  (forall x, x ∈ bucket ->
     (lead_id x = id /\ sort_order x = N) \/ (lead_id x <> id /\ sort_order x < N)) ->
  exists m, last bucket = Some m /\ lead_id m = id.
Proof.
  induction 1 as [|x rest Hs IH Hx]; intros Hex Hall; [by apply Exists_nil in Hex|].
  destruct rest as [|y rest'].
  { apply Exists_cons in Hex as [Hid|Hex]; [|by apply Exists_nil in Hex].
    by exists x. }
  change (last (x :: y :: rest')) with (last (y :: rest')).
  apply IH; [|intros z Hz; apply Hall; by right].
  destruct (decide (Exists (fun m => lead_id m = id) (y :: rest'))) as [|Hno]; [done|].
  exfalso. apply Exists_cons in Hex as [Hid|Hex]; [|done].
  destruct (Hall x) as [[_ HxN]|[? _]]; [by left| |done].
  destruct (Hall y) as [[Hy _]|[_ HyN]]; [right; by left| |].
  - apply Hno. by left.
  - apply Forall_cons in Hx as [Hxy _]. apply lead_leb_order in Hxy. lia.
Qed.

(** X30: after updateStatus has moved a lead into a stage of the selected
    pipeline (the stage is not 0 and its leads all have a kanban order),
    getByPipeline shows that lead as the last one of the stage's
    bucket. *)
Theorem moved_lead_is_last pipelineId pipeline id stageId db l :
  getById id db = Some l ->
  stageId <> 0 ->
  select_pipeline pipelineId db = Some pipeline ->
  stageId ∈ map stage_id
              (filter (fun s => stage_pipelineId s = pipeline_id pipeline)
                 (pipelineStages db)) ->
  (forall o, o ∈ rows (leads db) -> lead_pipelineStageId o = Some stageId ->
             lead_kanbanOrder o <> None) ->
  exists bucket moved,
    getByPipeline pipelineId (updateStatus id stageId db) !! stageId = Some bucket
    /\ last bucket = Some moved
    /\ lead_id moved = id.
Proof.
  intros Hget Hs Hsel Hstage Horders.
  set (db' := updateStatus id stageId db).
  destruct (getByPipeline_bucket pipelineId db' pipeline stageId)
    as (bucket & Hb & Hperm & Hsorted); [done|done|].
  exists bucket.
  set (N := next_kanbanOrder stageId db).
  assert (forall x, x ∈ bucket ->
            (lead_id x = id /\ sort_order x = N) \/ (lead_id x <> id /\ sort_order x < N))
    as Hall.
  { intros x Hx. rewrite Hperm in Hx. apply list_elem_of_filter in Hx as [[Hxs _] Hx].
    unfold db', updateStatus in Hx. cbn in Hx.
    apply list_elem_of_fmap in Hx as (r & -> & Hr).
    destruct (bool_decide (lead_id r = id)) eqn:Hid.
    - left. apply bool_decide_eq_true_1 in Hid. done.
    - right. apply bool_decide_eq_false_1 in Hid. split; [done|].
      destruct (lead_kanbanOrder r) as [k|] eqn:Hk; [|by destruct (Horders r Hr Hxs)].
      unfold sort_order. rewrite Hk. cbn. by eapply next_kanbanOrder_above. }
  destruct (sorted_last id N bucket Hsorted) as (moved & Hlast & Hid); [|done|by exists moved].
  apply Exists_exists. exists (set_stage_order stageId (Some N) l).
  apply find_some_elem in Hget as [Hl Hlid]. apply bool_decide_eq_true_1 in Hlid.
  split; [|done]. rewrite Hperm. apply list_elem_of_filter. split; [done|].
  unfold db', updateStatus. cbn. apply list_elem_of_fmap. exists l.
  by rewrite bool_decide_eq_true_2.
Qed.

Lemma moved_lead_is_last_witness :
  getById 2 store_kanban = Some lead_rosa
  /\ 11 <> 0
  /\ select_pipeline None store_kanban
     = Some {| pipeline_id := 2; pipeline_isDefault := true |}
  /\ map lead_id <$> getByPipeline None (updateStatus 2 11 store_kanban) !! 11
     = Some [3; 1; 2]
  /\ exists bucket moved,
      getByPipeline None (updateStatus 2 11 store_kanban) !! 11 = Some bucket
      /\ last bucket = Some moved
      /\ lead_id moved = 2.
Proof.
  split; [reflexivity|]. split; [done|]. split; [reflexivity|].
  split; [vm_compute; reflexivity|].
  apply (moved_lead_is_last None {| pipeline_id := 2; pipeline_isDefault := true |}
           2 11 store_kanban lead_rosa); [reflexivity|done|reflexivity| |].
  - apply (bool_decide_unpack _). vm_compute. exact I.
  - intros o Ho Hs. cbn in Ho. rewrite !elem_of_cons, elem_of_nil in Ho.
    destruct Ho as [->|[->|[->|[]]]]; done.
Defined.

End BoardFacts.
